(** * Browser-side helpers of the web UI: progress polling and lazy thumbnails

    A shallow embedding of [javascript/progressbar.js] (the adaptive polling
    progress reporter) and of the [IntelligentThumbnailLoader] class (the
    viewport-driven thumbnail loader), together with the properties that the
    specification states about them.

    Conventions of the embedding.
    - A JavaScript number is read as an exact rational ([Q]), and whole
      numbers are printed in decimal. The code computes with doubles: the
      two agree as long as the code rounds nothing away, which for the
      quotients and floors of [formatTime] is the case for times below
      [2^53] seconds ([exact_below]). Beyond, the code rounds its quotients
      and shows other fields than the model; and the percentage of the
      title is rounded here from the exact product [progress * 100], where
      the code rounds the product of doubles (0.145 is shown as 14% by the
      code and as 15% here).
    - A JavaScript value used as a condition is represented by its
      truthiness: a [bool] for flags, an [option] for a field that may be
      absent ([undefined]/[null]).
    - DOM elements have identity; they are named by natural numbers.
    - [setTimeout] appends to a list of pending timers; the event loop is
      the environment, which fires timers and delivers responses. *)

From Stdlib Require Import QArith Qround Ascii String.
From stdpp Require Import gmap strings list fin_maps pretty.

Local Open Scope Z_scope.

(** ** JavaScript values that occur in string concatenations *)

Module Js.

(** [pad2] returns either a string or the number it was given; both end up
    as operands of [+] next to a string, i.e. are concatenated. *)
Inductive value :=
| Num (n : Z)
| Str (s : string).

(** ToString on the two kinds of value. *)
Definition to_string (v : value) : string :=
  match v with
  | Num n => pretty n
  | Str s => s
  end.

(** [a + b] where at least one operand is a string. *)
Definition concat (a b : value) : value :=
  Str (to_string a +:+ to_string b).

(** [x || d] on an optional number: [undefined], [null] and [0] are falsy. *)
Definition num_or (x : option Q) (d : Q) : Q :=
  match x with
  | Some q => if Qeq_bool q 0 then d else q
  | None => d
  end.

(** [a < b] and [a > b] on numbers. *)
Definition lt (a b : Q) : bool := negb (Qle_bool b a).
Definition gt (a b : Q) : bool := lt b a.

(** Truthiness of an optional number and of an optional string. *)
Definition truthy_num (x : option Q) : bool :=
  match x with
  | Some q => negb (Qeq_bool q 0)
  | None => false
  end.

Definition truthy_str (x : option string) : bool :=
  match x with
  | Some s => negb (String.eqb s "")
  | None => false
  end.

(** [x.toFixed(0)] for [x >= 0] (it is applied to a positive progress): the
    integer nearest to [x], ties going to the larger. The argument is the
    exact value; where the code computes it as a product of doubles that
    falls just below a tie, the code shows the smaller integer. *)
Definition toFixed0 (x : Q) : string := pretty (Qfloor (x + (1 # 2))%Q).

(** [s.includes(t)]. *)
Fixpoint includes (t s : string) : bool :=
  String.prefix t s ||
  match s with
  | EmptyString => false
  | String _ s' => includes t s'
  end.

(** [s.trim()], for the ASCII blanks that the progress text can hold. *)
Definition is_blank (c : Ascii.ascii) : bool :=
  (Ascii.eqb c " "%char || Ascii.eqb c "009"%char ||
   Ascii.eqb c "010"%char || Ascii.eqb c "013"%char)%bool.

Fixpoint trim_start (s : string) : string :=
  match s with
  | String c s' => if is_blank c then trim_start s' else s
  | EmptyString => EmptyString
  end.

Definition trim (s : string) : string :=
  String.rev (trim_start (String.rev (trim_start s))).

(** The bound below which every whole number is a double
    ([Number.MAX_SAFE_INTEGER] + 1). Properties that rest on exact
    quotients are stated for numbers below it. *)
Definition exact_below : Z := 2 ^ 53.

End Js.

(** ** progressbar.js *)

Module Progressbar.

Import Js.

(** [function pad2(x) { return x < 10 ? '0' + x : x; }] *)
Definition pad2 (x : Z) : value :=
  if x <? 10 then concat (Str "0") (Num x) else Num x.

(** [function formatTime(secs)] *)
Definition formatTime (secs : Q) : string :=
  if gt secs 3600 then
    to_string
      (concat (concat (concat (concat
         (pad2 (Qfloor (secs / 60 / 60)%Q)) (Str ":"))
         (pad2 (Qfloor (secs / 60)%Q mod 60))) (Str ":"))
         (pad2 (Qfloor secs mod 60)))
  else if gt secs 60 then
    to_string
      (concat (concat
         (pad2 (Qfloor (secs / 60)%Q)) (Str ":"))
         (pad2 (Qfloor secs mod 60)))
  else
    to_string (concat (Num (Qfloor secs)) (Str "s")).

(** [function getSmartRefreshRate(progress, isActive)] *)
Definition getSmartRefreshRate (progress : Q) (isActive : bool) : Z :=
  if (negb isActive || lt progress (5 # 100))%bool then 1000
  else if lt progress (2 # 10) then 800
  else if lt progress (7 # 10) then 400
  else if lt progress (95 # 100) then 250
  else 200.


(** The renderings named by the specification, written independently of
    [pad2]: a number below 100 as exactly two decimal digits, and a number
    padded with a zero to at least two digits. *)
Definition digit (d : Z) : ascii := ascii_of_nat (48 + Z.to_nat d).

Definition two_digits (n : Z) : string :=
  String (digit (n / 10)) (String (digit (n mod 10)) "").

Definition zero_padded (n : Z) : string :=
  if n <? 10 then "0" +:+ pretty n else pretty n.

(** *** The poll session of [requestProgress] *)

(** The fields of the global [opts] that the file reads. *)
Record Opts := {
  show_progressbar : bool;
  show_progress_in_title : bool;
  prevent_screen_sleep_during_generation : bool
}.

(** The JSON answer of [./internal/progress], as far as it is read. *)
Record Response := {
  completed : bool;
  active : bool;
  queued : bool;
  progress : option Q;
  eta : option Q;
  textinfo : option string;
  live_preview : option string;
  id_live_preview : option Z
}.

(** What the handlers write into [divInner]. *)
Record DivInner := {
  width_percent : Q;
  background_transparent : bool;
  textContent : string
}.

(** The closures handed to [setTimeout]. *)
Inductive Callback :=
| CallFunProgress
| CallFunLivePreview (id : option Z)
| FadeIn (img : nat)
| RemoveOld (img : nat).

(** The requests sent to [./internal/progress]. *)
Inductive Request :=
| ReqProgress
| ReqLivePreview (id : option Z).

(** The arguments of [requestProgress] and the globals it reads. The wake
    lock helpers are asynchronous and touch only the variable [wakeLock],
    which nothing else reads; they are left out. *)
Record Config := {
  opts : Opts;
  originalAppTitle : string;
  gallery : bool;              (* [gallery] is not null *)
  onProgress : bool;           (* [onProgress] is not null *)
  inactivityTimeout : Q;       (* seconds *)
  dateStart : Z                (* [new Date()] at the call, milliseconds *)
}.

(** The variables of the closure, the part of the document it owns, and the
    event loop (pending timers, requests in flight). *)
Record Session := {
  wasEverActive : bool;
  divProgress : bool;  (* [divProgress] is not null *)
  divInner : DivInner;
  livePreview : option (list nat);  (* children of the preview div, once created *)
  progressbar_mounted : bool;  (* divProgress is a child of parentProgressbar *)
  preview_mounted : bool;  (* livePreview is a child of gallery *)
  title : string;  (* document.title *)
  next_image : nat;  (* identity of the next [new Image()] *)
  image_src : gmap nat string;
  image_opacity : gmap nat Z;
  images_loading : list nat;  (* images whose [onload] is still to come *)
  timers : list (Z * Callback);  (* pending [setTimeout] calls: delay, closure *)
  requests : list Request;  (* requests in flight *)
  atEnd_calls : nat;
  onProgress_calls : nat
}.

(** Field updates ([s.f = v]). *)
Definition set_wasEverActive (v : bool) (s : Session) : Session :=
  {| wasEverActive := v; divProgress := divProgress s; divInner := divInner
     s; livePreview := livePreview s; progressbar_mounted :=
     progressbar_mounted s; preview_mounted := preview_mounted s; title :=
     title s; next_image := next_image s; image_src := image_src s;
     image_opacity := image_opacity s; images_loading := images_loading s;
     timers := timers s; requests := requests s; atEnd_calls := atEnd_calls
     s; onProgress_calls := onProgress_calls s |}.
Definition set_divProgress (v : bool) (s : Session) : Session :=
  {| wasEverActive := wasEverActive s; divProgress := v; divInner := divInner
     s; livePreview := livePreview s; progressbar_mounted :=
     progressbar_mounted s; preview_mounted := preview_mounted s; title :=
     title s; next_image := next_image s; image_src := image_src s;
     image_opacity := image_opacity s; images_loading := images_loading s;
     timers := timers s; requests := requests s; atEnd_calls := atEnd_calls
     s; onProgress_calls := onProgress_calls s |}.
Definition set_divInner (v : DivInner) (s : Session) : Session :=
  {| wasEverActive := wasEverActive s; divProgress := divProgress s; divInner
     := v; livePreview := livePreview s; progressbar_mounted :=
     progressbar_mounted s; preview_mounted := preview_mounted s; title :=
     title s; next_image := next_image s; image_src := image_src s;
     image_opacity := image_opacity s; images_loading := images_loading s;
     timers := timers s; requests := requests s; atEnd_calls := atEnd_calls
     s; onProgress_calls := onProgress_calls s |}.
Definition set_livePreview (v : option (list nat)) (s : Session) : Session :=
  {| wasEverActive := wasEverActive s; divProgress := divProgress s; divInner
     := divInner s; livePreview := v; progressbar_mounted :=
     progressbar_mounted s; preview_mounted := preview_mounted s; title :=
     title s; next_image := next_image s; image_src := image_src s;
     image_opacity := image_opacity s; images_loading := images_loading s;
     timers := timers s; requests := requests s; atEnd_calls := atEnd_calls
     s; onProgress_calls := onProgress_calls s |}.
Definition set_progressbar_mounted (v : bool) (s : Session) : Session :=
  {| wasEverActive := wasEverActive s; divProgress := divProgress s; divInner
     := divInner s; livePreview := livePreview s; progressbar_mounted := v;
     preview_mounted := preview_mounted s; title := title s; next_image :=
     next_image s; image_src := image_src s; image_opacity := image_opacity
     s; images_loading := images_loading s; timers := timers s; requests :=
     requests s; atEnd_calls := atEnd_calls s; onProgress_calls :=
     onProgress_calls s |}.
Definition set_preview_mounted (v : bool) (s : Session) : Session :=
  {| wasEverActive := wasEverActive s; divProgress := divProgress s; divInner
     := divInner s; livePreview := livePreview s; progressbar_mounted :=
     progressbar_mounted s; preview_mounted := v; title := title s;
     next_image := next_image s; image_src := image_src s; image_opacity :=
     image_opacity s; images_loading := images_loading s; timers := timers s;
     requests := requests s; atEnd_calls := atEnd_calls s; onProgress_calls
     := onProgress_calls s |}.
Definition set_title (v : string) (s : Session) : Session :=
  {| wasEverActive := wasEverActive s; divProgress := divProgress s; divInner
     := divInner s; livePreview := livePreview s; progressbar_mounted :=
     progressbar_mounted s; preview_mounted := preview_mounted s; title := v;
     next_image := next_image s; image_src := image_src s; image_opacity :=
     image_opacity s; images_loading := images_loading s; timers := timers s;
     requests := requests s; atEnd_calls := atEnd_calls s; onProgress_calls
     := onProgress_calls s |}.
Definition set_next_image (v : nat) (s : Session) : Session :=
  {| wasEverActive := wasEverActive s; divProgress := divProgress s; divInner
     := divInner s; livePreview := livePreview s; progressbar_mounted :=
     progressbar_mounted s; preview_mounted := preview_mounted s; title :=
     title s; next_image := v; image_src := image_src s; image_opacity :=
     image_opacity s; images_loading := images_loading s; timers := timers s;
     requests := requests s; atEnd_calls := atEnd_calls s; onProgress_calls
     := onProgress_calls s |}.
Definition set_image_src (v : gmap nat string) (s : Session) : Session :=
  {| wasEverActive := wasEverActive s; divProgress := divProgress s; divInner
     := divInner s; livePreview := livePreview s; progressbar_mounted :=
     progressbar_mounted s; preview_mounted := preview_mounted s; title :=
     title s; next_image := next_image s; image_src := v; image_opacity :=
     image_opacity s; images_loading := images_loading s; timers := timers s;
     requests := requests s; atEnd_calls := atEnd_calls s; onProgress_calls
     := onProgress_calls s |}.
Definition set_image_opacity (v : gmap nat Z) (s : Session) : Session :=
  {| wasEverActive := wasEverActive s; divProgress := divProgress s; divInner
     := divInner s; livePreview := livePreview s; progressbar_mounted :=
     progressbar_mounted s; preview_mounted := preview_mounted s; title :=
     title s; next_image := next_image s; image_src := image_src s;
     image_opacity := v; images_loading := images_loading s; timers := timers
     s; requests := requests s; atEnd_calls := atEnd_calls s;
     onProgress_calls := onProgress_calls s |}.
Definition set_images_loading (v : list nat) (s : Session) : Session :=
  {| wasEverActive := wasEverActive s; divProgress := divProgress s; divInner
     := divInner s; livePreview := livePreview s; progressbar_mounted :=
     progressbar_mounted s; preview_mounted := preview_mounted s; title :=
     title s; next_image := next_image s; image_src := image_src s;
     image_opacity := image_opacity s; images_loading := v; timers := timers
     s; requests := requests s; atEnd_calls := atEnd_calls s;
     onProgress_calls := onProgress_calls s |}.
Definition set_timers (v : list (Z * Callback)) (s : Session) : Session :=
  {| wasEverActive := wasEverActive s; divProgress := divProgress s; divInner
     := divInner s; livePreview := livePreview s; progressbar_mounted :=
     progressbar_mounted s; preview_mounted := preview_mounted s; title :=
     title s; next_image := next_image s; image_src := image_src s;
     image_opacity := image_opacity s; images_loading := images_loading s;
     timers := v; requests := requests s; atEnd_calls := atEnd_calls s;
     onProgress_calls := onProgress_calls s |}.
Definition set_requests (v : list Request) (s : Session) : Session :=
  {| wasEverActive := wasEverActive s; divProgress := divProgress s; divInner
     := divInner s; livePreview := livePreview s; progressbar_mounted :=
     progressbar_mounted s; preview_mounted := preview_mounted s; title :=
     title s; next_image := next_image s; image_src := image_src s;
     image_opacity := image_opacity s; images_loading := images_loading s;
     timers := timers s; requests := v; atEnd_calls := atEnd_calls s;
     onProgress_calls := onProgress_calls s |}.
Definition set_atEnd_calls (v : nat) (s : Session) : Session :=
  {| wasEverActive := wasEverActive s; divProgress := divProgress s; divInner
     := divInner s; livePreview := livePreview s; progressbar_mounted :=
     progressbar_mounted s; preview_mounted := preview_mounted s; title :=
     title s; next_image := next_image s; image_src := image_src s;
     image_opacity := image_opacity s; images_loading := images_loading s;
     timers := timers s; requests := requests s; atEnd_calls := v;
     onProgress_calls := onProgress_calls s |}.
Definition set_onProgress_calls (v : nat) (s : Session) : Session :=
  {| wasEverActive := wasEverActive s; divProgress := divProgress s; divInner
     := divInner s; livePreview := livePreview s; progressbar_mounted :=
     progressbar_mounted s; preview_mounted := preview_mounted s; title :=
     title s; next_image := next_image s; image_src := image_src s;
     image_opacity := image_opacity s; images_loading := images_loading s;
     timers := timers s; requests := requests s; atEnd_calls := atEnd_calls
     s; onProgress_calls := v |}.

(** The return statement by which the progress handler ends. *)
Inductive Exit :=
| ExitCompleted        (* [if (res.completed)] *)
| ExitInactive         (* [if (!res.active && wasEverActive)] *)
| ExitTimeout          (* [if (elapsedFromStart > inactivityTimeout && ...)] *)
| ExitRescheduled.     (* fell through to [setTimeout] *)

Section Session.

Variable cfg : Config.

(** [requestProgress] up to the definition of the closures: the bar is
    created and inserted, [livePreview] is null. *)
Definition session_created (title0 : string) : Session :=
  {| wasEverActive := false; divProgress := true;
     divInner := {| width_percent := 0; background_transparent := false;
                    textContent := "" |};
     livePreview := None; progressbar_mounted := true;
     preview_mounted := false; title := title0; next_image := 0%nat;
     image_src := ∅; image_opacity := ∅; images_loading := [];
     timers := []; requests := []; atEnd_calls := 0%nat;
     onProgress_calls := 0%nat |}.

(** [function setTitle(progress)] *)
Definition setTitle (progress : string) (s : Session) : Session :=
  let title' :=
    if (show_progress_in_title (opts cfg) && negb (String.eqb progress ""))%bool
    then "[" +:+ trim progress +:+ "] " +:+ originalAppTitle cfg
    else originalAppTitle cfg in
  if negb (String.eqb (title s) title') then set_title title' s else s.

(** [var removeProgressBar = function() { ... }] *)
Definition removeProgressBar (s : Session) : Session :=
  if negb (divProgress s) then s
  else
    let s := setTitle "" s in
    let s := set_progressbar_mounted false s in
    let s := if (gallery cfg && bool_decide (is_Some (livePreview s)))%bool
             then set_preview_mounted false s else s in
    let s := set_atEnd_calls (S (atEnd_calls s)) s in
    set_divProgress false s.

(** [request(url, data, handler, errorHandler)]: the request is in flight
    until the environment answers it. *)
Definition request (r : Request) (s : Session) : Session :=
  set_requests (requests s ++ [r]) s.

(** [setTimeout(f, delay)] *)
Definition setTimeout (f : Callback) (delay : Z) (s : Session) : Session :=
  set_timers (timers s ++ [(delay, f)]) s.

(** [var funProgress = function(id_task) { ... }], the part that runs at
    the call. *)
Definition funProgress (s : Session) : Session :=
  request ReqProgress s.

(** [res.progress > 0] *)
Definition progress_positive (res : Response) : bool :=
  match progress res with
  | Some p => gt p 0
  | None => false
  end.

(** [res.textinfo && res.textinfo.indexOf("\n") == -1] *)
Definition textinfo_one_line (res : Response) : bool :=
  match textinfo res with
  | Some t => negb (String.eqb t "") && negb (includes (String "010" "") t)
  | None => false
  end.

(** The text shown in the title: percentage and ETA. *)
Definition progressText_title (res : Response) : string :=
  let progressText :=
    if progress_positive res
    then toFixed0 (num_or (progress res) 0 * 100)%Q +:+ "%" else "" in
  match eta res with
  | Some e => if truthy_num (Some e)
              then progressText +:+ " ETA: " +:+ formatTime e
              else progressText
  | None => progressText
  end.

(** The text shown in the bar: [textinfo] in front when it is one line. *)
Definition progressText_bar (res : Response) : string :=
  if textinfo_one_line res
  then default "" (textinfo res) +:+ " " +:+ progressText_title res
  else progressText_title res.

(** The part of the handler that shows the progress: the width and the
    background of the bar, the title, the text of the bar. *)
Definition show_progress (res : Response) (s : Session) : Session :=
  let s := set_divInner
             {| width_percent := (num_or (progress res) 0 * 100)%Q;
                background_transparent := negb (truthy_num (progress res));
                textContent := textContent (divInner s) |} s in
  let s := setTitle (progressText_title res) s in
  set_divInner
    {| width_percent := width_percent (divInner s);
       background_transparent := background_transparent (divInner s);
       textContent := progressText_bar res |} s.

(** The success handler of the request made by [funProgress], for a response
    handled at time [now] (milliseconds). *)
Definition onProgressResponse (res : Response) (now : Z) (s : Session)
  : Exit * Session :=
  if completed res then (ExitCompleted, removeProgressBar s)
  else
    let s := show_progress res s in
    let elapsedFromStart := (inject_Z (now - dateStart cfg) / 1000)%Q in
    let s := if active res then set_wasEverActive true s else s in
    if (negb (active res) && wasEverActive s)%bool
    then (ExitInactive, removeProgressBar s)
    else if (gt elapsedFromStart (inactivityTimeout cfg)
             && negb (queued res) && negb (active res))%bool
    then (ExitTimeout, removeProgressBar s)
    else
      let s := if onProgress cfg
               then set_onProgress_calls (S (onProgress_calls s)) s else s in
      (ExitRescheduled,
       setTimeout CallFunProgress
         (getSmartRefreshRate (num_or (progress res) 0) (active res)) s).

(** The error handler of the request made by [funProgress]. *)
Definition onProgressError (s : Session) : Session :=
  removeProgressBar s.

(** [var funLivePreview = function(id_task, id_live_preview) { ... }], the
    part that runs at the call. *)
Definition funLivePreview (id : option Z) (s : Session) : Session :=
  request (ReqLivePreview id) s.

(** [var img = new Image(); img.onload = ...; img.src = res.live_preview] *)
Definition new_preview_image (src : string) (s : Session) : Session :=
  let img := next_image s in
  let s := set_next_image (S img) s in
  let s := set_image_src (<[img := src]> (image_src s)) s in
  set_images_loading (images_loading s ++ [img]) s.

(** The success handler of the request made by [funLivePreview]. *)
Definition onLivePreviewResponse (res : Response) (s : Session) : Session :=
  if negb (divProgress s) then s
  else
    let s := match live_preview res with
             | Some src =>
                 if (truthy_str (Some src) && gallery cfg)%bool
                 then new_preview_image src s else s
             | None => s
             end in
    setTimeout (CallFunLivePreview (id_live_preview res))
      (getSmartRefreshRate (num_or (progress res) 0) (active res)) s.

(** The error handler of the request made by [funLivePreview]. *)
Definition onLivePreviewError (s : Session) : Session :=
  removeProgressBar s.

(** [parent.appendChild(x)]: [x] becomes the last child (and is moved there
    if it was a child already). *)
Definition appendChild (x : nat) (children : list nat) : list nat :=
  filter (λ y, y ≠ x) children ++ [x].

(** [parent.removeChild(x)] for a child [x]. *)
Definition removeChild (x : nat) (children : list nat) : list nat :=
  filter (λ y, y ≠ x) children.

(** [img.onload = function() { ... }] of a preview image. *)
Definition img_onload (img : nat) (s : Session) : Session :=
  let s := match livePreview s with
           | None => set_preview_mounted true (set_livePreview (Some []) s)
           | Some _ => s
           end in
  let s := set_image_opacity (<[img := 0]> (image_opacity s)) s in
  let children := appendChild img (default [] (livePreview s)) in
  let s := set_livePreview (Some children) s in
  let s := setTimeout (FadeIn img) 10 s in
  if (2 <? length children)%nat then
    match children with
    | oldImg :: _ =>
        let s := set_image_opacity (<[oldImg := 0]> (image_opacity s)) s in
        setTimeout (RemoveOld oldImg) 300 s
    | [] => s
    end
  else s.

(** What a timer does when it fires. *)
Definition run_callback (f : Callback) (s : Session) : Session :=
  match f with
  | CallFunProgress => funProgress s
  | CallFunLivePreview id => funLivePreview id s
  | FadeIn img => set_image_opacity (<[img := 1]> (image_opacity s)) s
  | RemoveOld oldImg =>
      match livePreview s with
      | Some children =>
          if bool_decide (oldImg ∈ children)       (* [oldImg.parentNode] *)
          then set_livePreview (Some (removeChild oldImg children)) s
          else s
      | None => s
      end
  end.

(** [requestProgress(id_task, progressbarContainer, gallery, atEnd,
    onProgress, inactivityTimeout)] *)
Definition requestProgress (title0 : string) : Session :=
  let s := session_created title0 in
  let s := funProgress s in
  if gallery cfg then funLivePreview (Some 0) s else s.

(** *** The event loop

    What the browser can do to a session: answer a request in flight (with a
    response or with a failure), finish loading a preview image, fire a
    pending timer. An event that is not enabled leaves the session as it
    is. *)
Inductive Event :=
| ProgressResponse (res : Response) (now : Z)
| ProgressError
| LivePreviewResponse (res : Response)
| LivePreviewError
| ImageLoaded (img : nat)
| TimerFired (k : nat).

Definition is_progress_request (r : Request) : bool :=
  match r with ReqProgress => true | ReqLivePreview _ => false end.

Definition is_preview_request (r : Request) : bool :=
  negb (is_progress_request r).

(** Take the oldest request of a kind out of the requests in flight. *)
Fixpoint answer (kind : Request → bool) (rs : list Request)
  : option (list Request) :=
  match rs with
  | [] => None
  | r :: rs' => if kind r then Some rs'
                else (λ rest, r :: rest) <$> answer kind rs'
  end.

Definition step (s : Session) (e : Event) : Session :=
  match e with
  | ProgressResponse res now =>
      match answer is_progress_request (requests s) with
      | Some rs => snd (onProgressResponse res now (set_requests rs s))
      | None => s
      end
  | ProgressError =>
      match answer is_progress_request (requests s) with
      | Some rs => onProgressError (set_requests rs s)
      | None => s
      end
  | LivePreviewResponse res =>
      match answer is_preview_request (requests s) with
      | Some rs => onLivePreviewResponse res (set_requests rs s)
      | None => s
      end
  | LivePreviewError =>
      match answer is_preview_request (requests s) with
      | Some rs => onLivePreviewError (set_requests rs s)
      | None => s
      end
  | ImageLoaded img =>
      if bool_decide (img ∈ images_loading s)
      then img_onload img
             (set_images_loading (filter (λ y, y ≠ img) (images_loading s)) s)
      else s
  | TimerFired k =>
      match timers s !! k with
      | Some (_, f) => run_callback f (set_timers (delete k (timers s)) s)
      | None => s
      end
  end.

Definition run (s : Session) (es : list Event) : Session :=
  foldl step s es.

(** A session is terminated once [removeProgressBar] has done its work. *)
Definition terminated (s : Session) : bool := negb (divProgress s).

(** The poll cycles that are still to come: timers that will call one of the
    two loops again. *)
Definition is_poll (t : Z * Callback) : bool :=
  match snd t with
  | CallFunProgress | CallFunLivePreview _ => true
  | FadeIn _ | RemoveOld _ => false
  end.

Definition scheduled_polls (s : Session) : list (Z * Callback) :=
  filter (λ t, is_poll t = true) (timers s).

End Session.

(** The timers of the preview images: fade-in and eviction. *)
Definition is_fade (t : Z * Callback) : bool := negb (is_poll t).

(** All pending timers of the preview images fire, oldest first. *)
Definition fire_fades (s : Session) : Session :=
  foldl (λ (s : Session) (t : Z * Callback), run_callback (snd t) s)
    (set_timers (List.filter is_poll (timers s)) s)
    (List.filter is_fade (timers s)).

(** Preview images load one after the other, each of them after the timers
    of the ones before it have fired (images at least 300 ms apart). *)
Definition show_images (s : Session) (imgs : list nat) : Session :=
  foldl (λ (s : Session) (img : nat), fire_fades (img_onload img s)) s imgs.

(** The children of the preview div, none while it does not exist. *)
Definition preview_images (s : Session) : list nat :=
  default [] (livePreview s).

(** The two newest of a list of images given oldest first. *)
Definition last_two (l : list nat) : list nat := drop (length l - 2) l.

(** A response of the progress loop that reports the task active. *)
Definition reports_active (e : Event) : bool :=
  match e with
  | ProgressResponse res _ => active res
  | _ => false
  end.

(** *** The data of the scenarios of the specification *)

Definition scenario_config (with_gallery : bool) : Config :=
  {| opts := {| show_progressbar := true; show_progress_in_title := true;
                prevent_screen_sleep_during_generation := false |};
     originalAppTitle := "Stable Diffusion";
     gallery := with_gallery; onProgress := true;
     inactivityTimeout := 40; dateStart := 0 |}.

Definition scenario_response (is_completed is_active : bool)
    (p : option Q) (preview : option string) : Response :=
  {| completed := is_completed; active := is_active; queued := false;
     progress := p; eta := None; textinfo := None;
     live_preview := preview; id_live_preview := Some 1 |}.

(** One cycle of the live-preview loop: the response carries the address
    of a preview, the image [img] made for it loads, its fade-in timer
    fires, and so does the timer of the next poll. *)
Definition preview_cycle (img : nat) (address : string) : list Event :=
  [LivePreviewResponse
     (scenario_response false true (Some (1 # 2)) (Some address));
   ImageLoaded img; TimerFired 1; TimerFired 0].

(** Three previews in a row; the trace stops when the third image has
    loaded. *)
Definition three_previews : list Event :=
  preview_cycle 0 "preview-a" ++ preview_cycle 1 "preview-b" ++
  [LivePreviewResponse
     (scenario_response false true (Some (1 # 2)) (Some "preview-c"));
   ImageLoaded 2].

(** The session right after [requestProgress]. *)
Definition scenario_session (with_gallery : bool) : Session :=
  requestProgress (scenario_config with_gallery) "Stable Diffusion".

(** *** The request behind the two loops *)

(** What [onreadystatechange] sees of the XMLHttpRequest: [body] is the
    value of [JSON.parse(xhr.responseText)], and [None] when the parse
    throws. *)
Record Xhr := {
  readyState : Z;
  status : Z;
  body : option Response
}.

Section Request.

Variable cfg : Config.

(** The [handler] and the [errorHandler] that a loop passes to [request]. *)
Definition handler (r : Request) (res : Response) (now : Z) (s : Session)
  : Session :=
  match r with
  | ReqProgress => snd (onProgressResponse cfg res now s)
  | ReqLivePreview _ => onLivePreviewResponse cfg res s
  end.

Definition errorHandler (r : Request) (s : Session) : Session :=
  match r with
  | ReqProgress => onProgressError cfg s
  | ReqLivePreview _ => onLivePreviewError cfg s
  end.

(** [xhr.onreadystatechange = function() { ... }] in [request]. *)
Definition onreadystatechange (r : Request) (x : Xhr) (now : Z) (s : Session)
  : Session :=
  if readyState x =? 4 then
    if status x =? 200 then
      match body x with
      | Some js => handler r js now s
      | None => errorHandler r s
      end
    else errorHandler r s
  else s.

End Request.

(** *** The cycles of the two loops

    A cycle of a loop is under way while its request is in flight or while
    the timer that will send its next request is pending. *)
Definition is_progress_poll (t : Z * Callback) : bool :=
  match snd t with
  | CallFunProgress => true
  | _ => false
  end.

Definition is_preview_poll (t : Z * Callback) : bool :=
  match snd t with
  | CallFunLivePreview _ => true
  | _ => false
  end.

Definition progress_cycles (s : Session) : nat :=
  length (List.filter is_progress_request (requests s))
  + length (List.filter is_progress_poll (timers s)).

Definition preview_cycles (s : Session) : nat :=
  length (List.filter is_preview_request (requests s))
  + length (List.filter is_preview_poll (timers s)).

(** *** Reading a time back

    The whole seconds that a text of [formatTime] stands for: fields of
    decimal digits separated by colons, each field worth 60 of the next, or
    one field followed by "s". *)
Definition digit_value (c : ascii) : option Z :=
  let n := Z.of_nat (nat_of_ascii c) in
  if ((48 <=? n) && (n <=? 57))%bool then Some (n - 48) else None.

Fixpoint read_time (total field : Z) (text : string) : option Z :=
  match text with
  | EmptyString => Some (total + field)
  | String c rest =>
      match digit_value c with
      | Some d => read_time total (10 * field + d) rest
      | None =>
          if Ascii.eqb c ":" then read_time ((total + field) * 60) 0 rest
          else if (Ascii.eqb c "s" && String.eqb rest "")%bool
               then Some (total + field)
               else None
      end
  end.

Definition seconds_shown (text : string) : option Z := read_time 0 0 text.

(** *** What the cleanup touches

    Two states of a session between which no cleanup has taken place: the
    bar is as it was and [atEnd] was not called; a preview div that was in
    the gallery is still there. *)
Definition no_cleanup (s s' : Session) : Prop :=
  divProgress s' = divProgress s ∧
  progressbar_mounted s' = progressbar_mounted s ∧
  atEnd_calls s' = atEnd_calls s ∧
  (preview_mounted s = true → preview_mounted s' = true).

(** The bar is in the document exactly while [divProgress] is not null, and
    [atEnd] has been called once exactly when it is null. *)
Definition cleaned_up_once (s : Session) : Prop :=
  progressbar_mounted s = divProgress s ∧
  atEnd_calls s = (if divProgress s then 0 else 1)%nat.

(** Every pending poll waits between 200 ms and one second. *)
Definition poll_delays_bounded (s : Session) : Prop :=
  Forall (λ t : Z * Callback, is_poll t = true → 200 <= fst t <= 1000)
    (timers s).

End Progressbar.

(** ** The thumbnail loader ([class IntelligentThumbnailLoader]) *)

Module ThumbnailLoader.

Import Js.

(** *** The document *)

(** An [img] element of a card. *)
Record Img := {
  src : string;  (* img.src *)
  originalSrc : option string;  (* img.dataset.originalSrc *)
  lazyId : option string;  (* img.dataset.lazyId *)
  lazyLoading : bool;  (* the attribute data-lazy-loading is "true" *)
  in_preview : bool;  (* img.closest('.preview') is not null *)
  card_image : bool;  (* img.classList.contains('card-image') *)
  opacity : string;  (* img.style.opacity *)
  filter_ : string;  (* img.style.filter *)
  transition : string  (* img.style.transition *)
}.

Definition set_src (v : string) (i : Img) : Img :=
  {| src := v; originalSrc := originalSrc i; lazyId := lazyId i; lazyLoading
     := lazyLoading i; in_preview := in_preview i; card_image := card_image
     i; opacity := opacity i; filter_ := filter_ i; transition := transition
     i |}.
Definition set_originalSrc (v : option string) (i : Img) : Img :=
  {| src := src i; originalSrc := v; lazyId := lazyId i; lazyLoading :=
     lazyLoading i; in_preview := in_preview i; card_image := card_image i;
     opacity := opacity i; filter_ := filter_ i; transition := transition i |}.
Definition set_lazyId (v : option string) (i : Img) : Img :=
  {| src := src i; originalSrc := originalSrc i; lazyId := v; lazyLoading :=
     lazyLoading i; in_preview := in_preview i; card_image := card_image i;
     opacity := opacity i; filter_ := filter_ i; transition := transition i |}.
Definition set_lazyLoading (v : bool) (i : Img) : Img :=
  {| src := src i; originalSrc := originalSrc i; lazyId := lazyId i;
     lazyLoading := v; in_preview := in_preview i; card_image := card_image
     i; opacity := opacity i; filter_ := filter_ i; transition := transition
     i |}.
Definition set_opacity (v : string) (i : Img) : Img :=
  {| src := src i; originalSrc := originalSrc i; lazyId := lazyId i;
     lazyLoading := lazyLoading i; in_preview := in_preview i; card_image :=
     card_image i; opacity := v; filter_ := filter_ i; transition :=
     transition i |}.
Definition set_filter_ (v : string) (i : Img) : Img :=
  {| src := src i; originalSrc := originalSrc i; lazyId := lazyId i;
     lazyLoading := lazyLoading i; in_preview := in_preview i; card_image :=
     card_image i; opacity := opacity i; filter_ := v; transition :=
     transition i |}.
Definition set_transition (v : string) (i : Img) : Img :=
  {| src := src i; originalSrc := originalSrc i; lazyId := lazyId i;
     lazyLoading := lazyLoading i; in_preview := in_preview i; card_image :=
     card_image i; opacity := opacity i; filter_ := filter_ i; transition :=
     v |}.

(** A card element ([.extra-network-cards .card]). *)
Record Card := {
  data_name : option string;  (* card.dataset.name *)
  images : list Img;  (* card.querySelectorAll('img'), in document order *)
  indicator : bool;  (* the card has a .thumbnail-loading-indicator child *)
  position : string  (* card.style.position *)
}.

Definition set_images (v : list Img) (c : Card) : Card :=
  {| data_name := data_name c; images := v; indicator := indicator c;
     position := position c |}.
Definition set_indicator (v : bool) (c : Card) : Card :=
  {| data_name := data_name c; images := images c; indicator := v; position
     := position c |}.
Definition set_position (v : string) (c : Card) : Card :=
  {| data_name := data_name c; images := images c; indicator := indicator c;
     position := v |}.

(** The closures handed to [setTimeout]. *)
Inductive Timer :=
| RetryLoad (card : nat)                         (* scheduleRetry *)
| SwapImage (card : nat) (index : nat) (src : string).   (* loadSingleImage *)

(** *** The loader object

    [maxRetries] and [config.retryDelay] are assigned in the constructor and
    never written again. [reinitialize()], the reset of the debugging
    interface, and the scan [processAllCards()], which calls [processCard]
    on the cards it finds, act on the loader object as a whole, further
    down. *)
Definition maxRetries : nat := 3.
Definition retryDelay : Z := 1000.

(** A call of [loadCardThumbnails] suspended at its [await]: the card, the
    [cardName] computed on entry, and the images handed to [loadSingleImage]
    (position among the card's images, and the address to load). *)
Record Suspended := {
  s_card : nat;
  s_cardName : string;
  s_promises : list (nat * string)
}.

Record Loader := {
  loadedImages : gset string;
  loadingImages : gset string;
  observedCards : list nat;  (* a Set of elements, in insertion order *)
  retryAttempts : gmap string nat;
  observer : option (gset nat);  (* targets of the IntersectionObserver; None is null *)
  page : gmap nat Card;  (* the card elements of the document *)
  timers : list (Z * Timer);  (* pending [setTimeout] calls: delay, closure *)
  awaiting : list Suspended;  (* calls of loadCardThumbnails waiting at [await] *)
  observe_log : list nat;  (* history: the calls of observer.observe, oldest first *)
  retry_log : list (string * Z)  (* history: the timers set by scheduleRetry, oldest first *)
}.

Definition set_loadedImages (v : gset string) (st : Loader) : Loader :=
  {| loadedImages := v; loadingImages := loadingImages st; observedCards :=
     observedCards st; retryAttempts := retryAttempts st; observer :=
     observer st; page := page st; timers := timers st; awaiting := awaiting
     st; observe_log := observe_log st; retry_log := retry_log st |}.
Definition set_loadingImages (v : gset string) (st : Loader) : Loader :=
  {| loadedImages := loadedImages st; loadingImages := v; observedCards :=
     observedCards st; retryAttempts := retryAttempts st; observer :=
     observer st; page := page st; timers := timers st; awaiting := awaiting
     st; observe_log := observe_log st; retry_log := retry_log st |}.
Definition set_observedCards (v : list nat) (st : Loader) : Loader :=
  {| loadedImages := loadedImages st; loadingImages := loadingImages st;
     observedCards := v; retryAttempts := retryAttempts st; observer :=
     observer st; page := page st; timers := timers st; awaiting := awaiting
     st; observe_log := observe_log st; retry_log := retry_log st |}.
Definition set_retryAttempts (v : gmap string nat) (st : Loader) : Loader :=
  {| loadedImages := loadedImages st; loadingImages := loadingImages st;
     observedCards := observedCards st; retryAttempts := v; observer :=
     observer st; page := page st; timers := timers st; awaiting := awaiting
     st; observe_log := observe_log st; retry_log := retry_log st |}.
Definition set_observer (v : option (gset nat)) (st : Loader) : Loader :=
  {| loadedImages := loadedImages st; loadingImages := loadingImages st;
     observedCards := observedCards st; retryAttempts := retryAttempts st;
     observer := v; page := page st; timers := timers st; awaiting :=
     awaiting st; observe_log := observe_log st; retry_log := retry_log st |}.
Definition set_page (v : gmap nat Card) (st : Loader) : Loader :=
  {| loadedImages := loadedImages st; loadingImages := loadingImages st;
     observedCards := observedCards st; retryAttempts := retryAttempts st;
     observer := observer st; page := v; timers := timers st; awaiting :=
     awaiting st; observe_log := observe_log st; retry_log := retry_log st |}.
Definition set_timers (v : list (Z * Timer)) (st : Loader) : Loader :=
  {| loadedImages := loadedImages st; loadingImages := loadingImages st;
     observedCards := observedCards st; retryAttempts := retryAttempts st;
     observer := observer st; page := page st; timers := v; awaiting :=
     awaiting st; observe_log := observe_log st; retry_log := retry_log st |}.
Definition set_awaiting (v : list Suspended) (st : Loader) : Loader :=
  {| loadedImages := loadedImages st; loadingImages := loadingImages st;
     observedCards := observedCards st; retryAttempts := retryAttempts st;
     observer := observer st; page := page st; timers := timers st; awaiting
     := v; observe_log := observe_log st; retry_log := retry_log st |}.
Definition set_observe_log (v : list nat) (st : Loader) : Loader :=
  {| loadedImages := loadedImages st; loadingImages := loadingImages st;
     observedCards := observedCards st; retryAttempts := retryAttempts st;
     observer := observer st; page := page st; timers := timers st; awaiting
     := awaiting st; observe_log := v; retry_log := retry_log st |}.
Definition set_retry_log (v : list (string * Z)) (st : Loader) : Loader :=
  {| loadedImages := loadedImages st; loadingImages := loadingImages st;
     observedCards := observedCards st; retryAttempts := retryAttempts st;
     observer := observer st; page := page st; timers := timers st; awaiting
     := awaiting st; observe_log := observe_log st; retry_log := v |}.

(** The loader after [new IntelligentThumbnailLoader()] on a page. *)
Definition constructed (cards : gmap nat Card) : Loader :=
  {| loadedImages := ∅; loadingImages := ∅; observedCards := [];
     retryAttempts := ∅; observer := None; page := cards; timers := [];
     awaiting := []; observe_log := []; retry_log := [] |}.

(** [this.observer = new IntersectionObserver(...)] in [initialize()]. *)
Definition create_observer (st : Loader) : Loader :=
  set_observer (Some ∅) st.

(** An element that is not a card of the page has no attribute and no
    image. *)
Definition empty_card : Card :=
  {| data_name := None; images := []; indicator := false; position := "" |}.

Definition card_of (st : Loader) (card : nat) : Card :=
  default empty_card (page st !! card).

Definition update_card (card : nat) (f : Card → Card) (st : Loader) : Loader :=
  set_page (alter f card (page st)) st.

(** [card.dataset.name || 'unnamed'] *)
Definition name_or_unnamed (c : Card) : string :=
  match data_name c with
  | Some n => if String.eqb n "" then "unnamed" else n
  | None => "unnamed"
  end.

Definition cardName (st : Loader) (card : nat) : string :=
  name_or_unnamed (card_of st card).

(** [set.add(x)] on a Set kept in insertion order. *)
Definition Set_add (x : nat) (l : list nat) : list nat :=
  if bool_decide (x ∈ l) then l else l ++ [x].

(** [setTimeout(f, delay)] *)
Definition setTimeout (f : Timer) (delay : Z) (st : Loader) : Loader :=
  set_timers (timers st ++ [(delay, f)]) st.

(** [findThumbnailImages(card)] *)
Definition is_thumbnail (i : Img) : bool :=
  negb (String.eqb (src i) "") &&
  (includes "sd_extra_networks/thumb" (src i) ||
   includes "thumbnail" (src i) ||
   in_preview i ||
   card_image i).

Definition findThumbnailImages (c : Card) : list Img :=
  List.filter is_thumbnail (images c).

(** [getPlaceholderDataURL()] *)
Definition getPlaceholderDataURL : string :=
  "data:image/svg+xml;base64,PHN2ZyB3aWR0aD0iMjAwIiBoZWlnaHQ9IjIwMCIgeG1sbnM9Imh0dHA6Ly93d3cudzMub3JnLzIwMDAvc3ZnIj48cmVjdCB3aWR0aD0iMTAwJSIgaGVpZ2h0PSIxMDAlIiBmaWxsPSIjZjVmNWY1Ii8+PHRleHQgeD0iNTAlIiB5PSI1MCUiIGZvbnQtZmFtaWx5PSJBcmlhbCIgZm9udC1zaXplPSIxMiIgZmlsbD0iIzk5OSIgdGV4dC1hbmNob3I9Im1pZGRsZSIgZHk9Ii4zZW0iPkxvYWRpbmcuLi48L3RleHQ+PC9zdmc+".

(** [prepareThumbnailForLazyLoading(img, card, index)] *)
Definition prepareThumbnailForLazyLoading (c : Card) (index : nat) (i : Img)
  : Img :=
  let i := if truthy_str (originalSrc i) then i
           else set_originalSrc (Some (src i)) i in
  let i := set_lazyId (Some (name_or_unnamed c +:+ "-" +:+ pretty index)) i in
  let i := set_src getPlaceholderDataURL i in
  let i := set_opacity "0.6" i in
  let i := set_filter_ "blur(1px)" i in
  let i := set_transition "all 0.3s ease-in-out" i in
  set_lazyLoading true i.

(** [thumbnailImages.forEach((img, index) => prepare...(img, card, index))]
    seen on the list of all images of the card: the thumbnails among them
    are prepared and numbered, the others are left alone. *)
Fixpoint prepare_thumbnails (c : Card) (index : nat) (imgs : list Img)
  : list Img :=
  match imgs with
  | [] => []
  | i :: rest =>
      if is_thumbnail i
      then prepareThumbnailForLazyLoading c index i
             :: prepare_thumbnails c (S index) rest
      else i :: prepare_thumbnails c index rest
  end.

(** [addLoadingIndicator(card)] and [removeLoadingIndicator(card)] *)
Definition addLoadingIndicator (card : nat) (st : Loader) : Loader :=
  if indicator (card_of st card) then st
  else update_card card (λ c, set_indicator true (set_position "relative" c)) st.

Definition removeLoadingIndicator (card : nat) (st : Loader) : Loader :=
  if indicator (card_of st card)
  then update_card card (set_indicator false) st
  else st.

(** How a call ends: with a value, or with an exception. *)
Inductive Completion (A : Type) :=
| Returned (a : A)
| Thrown.
Arguments Returned {A} a.
Arguments Thrown {A}.

(** [processCard(card)]. [this.observer.observe] is a TypeError while the
    observer is null. *)
Definition processCard (card : nat) (st : Loader) : Completion bool * Loader :=
  if bool_decide (card ∈ observedCards st) then (Returned false, st)
  else
    let thumbnailImages := findThumbnailImages (card_of st card) in
    if (length thumbnailImages =? 0)%nat then (Returned false, st)
    else
      let st := set_observedCards (Set_add card (observedCards st)) st in
      let st := update_card card
                  (λ c, set_images (prepare_thumbnails c 0 (images c)) c) st in
      let st := addLoadingIndicator card st in
      match observer st with
      | Some targets =>
          let st := set_observer (Some ({[card]} ∪ targets)) st in
          let st := set_observe_log (observe_log st ++ [card]) st in
          (Returned true, st)
      | None => (Thrown, st)
      end.

(** [scheduleRetry(card)] *)
Definition scheduleRetry (card : nat) (st : Loader) : Loader :=
  let cardName := cardName st card in
  let retryCount := default 0%nat (retryAttempts st !! cardName) in
  if (retryCount <? maxRetries)%nat then
    let st := set_retryAttempts
                (<[cardName := S retryCount]> (retryAttempts st)) st in
    let delay := retryDelay * Z.of_nat (retryCount + 1) in
    let st := setTimeout (RetryLoad card) delay st in
    set_retry_log (retry_log st ++ [(cardName, delay)]) st
  else
    removeLoadingIndicator card st.

(** The images selected by [img[data-lazy-loading="true"]] that have an
    [originalSrc], each with its position in the card. *)
Fixpoint lazy_images (index : nat) (imgs : list Img) : list (nat * string) :=
  match imgs with
  | [] => []
  | i :: rest =>
      match originalSrc i with
      | Some o =>
          if (lazyLoading i && negb (String.eqb o ""))%bool
          then (index, o) :: lazy_images (S index) rest
          else lazy_images (S index) rest
      | None => lazy_images (S index) rest
      end
  end.

(** The outcome of one [loadSingleImage] promise, and the way the [await]
    in the [try] block of [loadCardThumbnails] ends. *)
Inductive Settlement :=
| Fulfilled     (* preloadImg.onload *)
| Rejected.     (* preloadImg.onerror *)

Inductive Awaited :=
| Resolved (results : list Settlement)
| Raised.       (* an exception reaches the [catch] block *)

(** [Promise.allSettled(loadPromises)] is fulfilled whatever each of the
    promises does. *)
Definition Promise_allSettled (results : list Settlement) : Awaited :=
  Resolved results.

(** [loadCardThumbnails(card)] from its entry to the [await]. *)
Definition loadCardThumbnails (card : nat) (st : Loader) : Loader :=
  let cardName := cardName st card in
  if (bool_decide (cardName ∈ loadedImages st)
      || bool_decide (cardName ∈ loadingImages st))%bool
  then st
  else
    let st := set_loadingImages ({[cardName]} ∪ loadingImages st) st in
    let loadPromises := lazy_images 0 (images (card_of st card)) in
    set_awaiting
      (awaiting st ++ [{| s_card := card; s_cardName := cardName;
                          s_promises := loadPromises |}]) st.

(** [preloadImg.onload] inside [loadSingleImage(imgElement, src)]. *)
Definition update_image (index : nat) (f : Img → Img) (c : Card) : Card :=
  set_images (alter f index (images c)) c.

Definition loadSingleImage_onload (card index : nat) (src : string) (st : Loader)
  : Loader :=
  let st := update_card card (update_image index (set_opacity "0")) st in
  setTimeout (SwapImage card index src) 150 st.

(** The closure of that timer. *)
Definition loadSingleImage_swap (card index : nat) (src0 : string) (st : Loader)
  : Loader :=
  update_card card
    (update_image index
       (λ i, set_lazyLoading false
               (set_filter_ "none" (set_opacity "1" (set_src src0 i))))) st.

(** The promises of a suspended call settle, one after the other. *)
Fixpoint settle (card : nat) (promises : list (nat * string))
    (results : list Settlement) (st : Loader) : Loader :=
  match promises, results with
  | (index, src) :: promises', Fulfilled :: results' =>
      settle card promises' results' (loadSingleImage_onload card index src st)
  | _ :: promises', Rejected :: results' =>
      settle card promises' results' st
  | _, _ => st
  end.

(** [loadCardThumbnails(card)] from the [await] to its end: the rest of the
    [try] block, or the [catch] block, and then the [finally] block. *)
Definition loadCardThumbnails_resume (call : Suspended) (a : Awaited)
    (st : Loader) : Loader :=
  let st :=
    match a with
    | Resolved _ =>
        let st := set_loadedImages ({[s_cardName call]} ∪ loadedImages st) st in
        removeLoadingIndicator (s_card call) st
    | Raised => scheduleRetry (s_card call) st
    end in
  set_loadingImages (loadingImages st ∖ {[s_cardName call]}) st.

(** [handleIntersection(entries)]: an entry is its target and its
    [isIntersecting]. *)
Definition unobserve (card : nat) (st : Loader) : Loader :=
  match observer st with
  | Some targets => set_observer (Some (targets ∖ {[card]})) st
  | None => st
  end.

Definition handleIntersection (entries : list (nat * bool)) (st : Loader)
  : Loader :=
  foldl (λ (st : Loader) (entry : nat * bool),
           if snd entry
           then unobserve (fst entry) (loadCardThumbnails (fst entry) st)
           else st) st entries.

(** [forceLoadAllVisible()]; [in_viewport] holds the cards whose rectangle
    meets the window. *)
Definition forceLoadAllVisible (in_viewport : gset nat) (st : Loader)
  : Loader :=
  foldl (λ (st : Loader) (card : nat),
           if bool_decide (card ∈ in_viewport)
           then loadCardThumbnails card st else st) st (observedCards st).

(** *** The event loop

    What the browser and the page can do to the loader: call [processCard]
    (from a scan), deliver intersection entries, call the forced load,
    settle the image loads of a suspended [loadCardThumbnails], fire a
    pending timer. No call inside the [try] block of [loadCardThumbnails]
    raises an exception when an image fails to load; [TryBlockRaised]
    stands for any other exception that a host call may raise in the block
    before [this.loadedImages.add(cardName)]. An exception raised after
    that statement, by [removeLoadingIndicator], would leave the name in
    [loadedImages]; it is not among the events. An event that is not
    enabled leaves the loader as it is. *)
Inductive Event :=
| ProcessCard (card : nat)
| Intersection (entries : list (nat * bool))
| ForceLoadAllVisible (in_viewport : gset nat)
| ThumbnailsSettled (card : nat) (results : list Settlement)
| TryBlockRaised (card : nat)
| TimerFired (k : nat).

(** Take the suspended call of a card out of the calls that are waiting. *)
Fixpoint resume_call (card : nat) (calls : list Suspended)
  : option (Suspended * list Suspended) :=
  match calls with
  | [] => None
  | call :: calls' =>
      if bool_decide (s_card call = card) then Some (call, calls')
      else (λ r : Suspended * list Suspended, (fst r, call :: snd r))
             <$> resume_call card calls'
  end.

Definition run_timer (f : Timer) (st : Loader) : Loader :=
  match f with
  | RetryLoad card => loadCardThumbnails card st
  | SwapImage card index src0 => loadSingleImage_swap card index src0 st
  end.

Definition step (st : Loader) (e : Event) : Loader :=
  match e with
  | ProcessCard card => snd (processCard card st)
  | Intersection entries => handleIntersection entries st
  | ForceLoadAllVisible in_viewport => forceLoadAllVisible in_viewport st
  | ThumbnailsSettled card results =>
      match resume_call card (awaiting st) with
      | Some (call, calls) =>
          if (length results =? length (s_promises call))%nat
          then loadCardThumbnails_resume call (Promise_allSettled results)
                 (settle card (s_promises call) results (set_awaiting calls st))
          else st
      | None => st
      end
  | TryBlockRaised card =>
      match resume_call card (awaiting st) with
      | Some (call, calls) =>
          loadCardThumbnails_resume call Raised (set_awaiting calls st)
      | None => st
      end
  | TimerFired k =>
      match timers st !! k with
      | Some (_, f) => run_timer f (set_timers (delete k (timers st)) st)
      | None => st
      end
  end.

Definition run (st : Loader) (es : list Event) : Loader :=
  foldl step st es.



(** The part of the loader that only [processCard] and [scheduleRetry]
    write: the tracked cards, the retry counts and the retries set. *)
Definition registry (st : Loader)
  : list nat * gmap string nat * list (string * Z) :=
  (observedCards st, retryAttempts st, retry_log st).

(** The delay that linear backoff gives to the retry number [n]. *)
Definition backoff (n : nat) : Z := retryDelay * Z.of_nat n.

(** [this.retryAttempts.get(cardName) || 0] *)
Definition retry_count (name : string) (st : Loader) : nat :=
  default 0%nat (retryAttempts st !! name).







(** *** The data of the scenarios *)

Definition scenario_image (address : string) : Img :=
  {| src := address; originalSrc := None; lazyId := None;
     lazyLoading := false; in_preview := false; card_image := false;
     opacity := ""; filter_ := ""; transition := "" |}.

Definition scenario_card (name : option string) (addresses : list string)
  : Card :=
  {| data_name := name; images := scenario_image <$> addresses;
     indicator := false; position := "" |}.

(** Cards 0 and 1 carry the same [data-name], cards 2 and 3 carry none. *)
Definition scenario_page : gmap nat Card :=
  {[ 0%nat := scenario_card (Some "model-a")
                ["http://host/sd_extra_networks/thumb?filename=a.png"];
     1%nat := scenario_card (Some "model-a")
                ["http://host/sd_extra_networks/thumb?filename=a2.png"];
     2%nat := scenario_card None
                ["http://host/sd_extra_networks/thumb?filename=b.png"];
     3%nat := scenario_card None
                ["http://host/sd_extra_networks/thumb?filename=c.png"] ]}.

(** The loader after the constructor and the creation of the observer. *)
Definition scenario_loader : Loader :=
  create_observer (constructed scenario_page).

(** *** The loader object as a whole

    The scan of the page, the reset, the set-up and the tear-down, and the
    handler of the mutation observer. What these read from the document at
    the time they run is given to them: [allCards], the result of
    [document.querySelectorAll('.extra-network-cards .card')], and
    [rendered], the cards whose bounding rectangle has a width and a height
    above zero. *)

(** The closures of the timers that scan the page again. *)
Inductive ScanTimer :=
| Rescan            (* set by processAllCards when it found no card *)
| MutationRescan.   (* set by the mutation handler *)

(** [config.mutationDebounce] *)
Definition mutationDebounce : Z := 1000.

Record Controller := {
  core : Loader;  (* the sets, the observer and the cards, as above *)
  isProcessing : bool;
  isInitialized : bool;
  mutationTimeout : option nat;  (* the id of the last timer of the mutation handler *)
  scan_timers : list (nat * (Z * ScanTimer));  (* pending timers: id, delay, closure *)
  next_timer_id : nat;  (* the id that the next [setTimeout] returns *)
  mutation_observers : nat;  (* MutationObservers created so far *)
  styles_injected : bool  (* the style element of the loader is in the document *)
}.

Definition set_core (v : Loader) (c : Controller) : Controller :=
  {| core := v; isProcessing := isProcessing c; isInitialized :=
     isInitialized c; mutationTimeout := mutationTimeout c; scan_timers :=
     scan_timers c; next_timer_id := next_timer_id c; mutation_observers :=
     mutation_observers c; styles_injected := styles_injected c |}.
Definition set_isProcessing (v : bool) (c : Controller) : Controller :=
  {| core := core c; isProcessing := v; isInitialized := isInitialized c;
     mutationTimeout := mutationTimeout c; scan_timers := scan_timers c;
     next_timer_id := next_timer_id c; mutation_observers :=
     mutation_observers c; styles_injected := styles_injected c |}.
Definition set_isInitialized (v : bool) (c : Controller) : Controller :=
  {| core := core c; isProcessing := isProcessing c; isInitialized := v;
     mutationTimeout := mutationTimeout c; scan_timers := scan_timers c;
     next_timer_id := next_timer_id c; mutation_observers :=
     mutation_observers c; styles_injected := styles_injected c |}.
Definition set_mutationTimeout (v : option nat) (c : Controller) : Controller :=
  {| core := core c; isProcessing := isProcessing c; isInitialized :=
     isInitialized c; mutationTimeout := v; scan_timers := scan_timers c;
     next_timer_id := next_timer_id c; mutation_observers :=
     mutation_observers c; styles_injected := styles_injected c |}.
Definition set_scan_timers (v : list (nat * (Z * ScanTimer))) (c : Controller) : Controller :=
  {| core := core c; isProcessing := isProcessing c; isInitialized :=
     isInitialized c; mutationTimeout := mutationTimeout c; scan_timers := v;
     next_timer_id := next_timer_id c; mutation_observers :=
     mutation_observers c; styles_injected := styles_injected c |}.
Definition set_next_timer_id (v : nat) (c : Controller) : Controller :=
  {| core := core c; isProcessing := isProcessing c; isInitialized :=
     isInitialized c; mutationTimeout := mutationTimeout c; scan_timers :=
     scan_timers c; next_timer_id := v; mutation_observers :=
     mutation_observers c; styles_injected := styles_injected c |}.
Definition set_mutation_observers (v : nat) (c : Controller) : Controller :=
  {| core := core c; isProcessing := isProcessing c; isInitialized :=
     isInitialized c; mutationTimeout := mutationTimeout c; scan_timers :=
     scan_timers c; next_timer_id := next_timer_id c; mutation_observers :=
     v; styles_injected := styles_injected c |}.
Definition set_styles_injected (v : bool) (c : Controller) : Controller :=
  {| core := core c; isProcessing := isProcessing c; isInitialized :=
     isInitialized c; mutationTimeout := mutationTimeout c; scan_timers :=
     scan_timers c; next_timer_id := next_timer_id c; mutation_observers :=
     mutation_observers c; styles_injected := v |}.

(** [new IntelligentThumbnailLoader()] on a page. *)
Definition new_controller (cards : gmap nat Card) : Controller :=
  {| core := constructed cards; isProcessing := false;
     isInitialized := false; mutationTimeout := None; scan_timers := [];
     next_timer_id := 0; mutation_observers := 0; styles_injected := false |}.

(** [setTimeout(f, delay)], which returns the id of the timer, and
    [clearTimeout(id)]. *)
Definition scan_setTimeout (f : ScanTimer) (delay : Z) (c : Controller)
  : nat * Controller :=
  (next_timer_id c,
   set_next_timer_id (S (next_timer_id c))
     (set_scan_timers (scan_timers c ++ [(next_timer_id c, (delay, f))]) c)).

Definition clearTimeout (id : option nat) (c : Controller) : Controller :=
  match id with
  | Some n =>
      set_scan_timers
        (List.filter (λ t : nat * (Z * ScanTimer), negb (fst t =? n)%nat)
           (scan_timers c)) c
  | None => c
  end.

(** [newVisibleCards.forEach(card => { if (this.processCard(card)) ... })];
    an exception of [processCard] ends the loop. *)
Fixpoint process_cards (cards : list nat) (st : Loader)
  : Completion unit * Loader :=
  match cards with
  | [] => (Returned (), st)
  | card :: rest =>
      match processCard card st with
      | (Returned _, st') => process_cards rest st'
      | (Thrown, st') => (Thrown, st')
      end
  end.

(** [processAllCards()] *)
Definition processAllCards (allCards : list nat) (rendered : gset nat)
    (c : Controller) : Completion unit * Controller :=
  if isProcessing c then (Returned (), c)
  else
    let c := set_isProcessing true c in
    if (length allCards =? 0)%nat then
      let c := set_isProcessing false c in
      (Returned (), snd (scan_setTimeout Rescan 1000 c))
    else
      let newVisibleCards :=
        List.filter
          (λ card : nat,
             bool_decide (card ∈ rendered)
             && negb (bool_decide (card ∈ observedCards (core c))))
          allCards in
      match process_cards newVisibleCards (core c) with
      | (Returned _, st) => (Returned (), set_isProcessing false (set_core st c))
      | (Thrown, st) => (Thrown, set_core st c)
      end.

(** [reinitialize()] *)
Definition reinitialize (allCards : list nat) (rendered : gset nat)
    (c : Controller) : Completion unit * Controller :=
  let c := set_isProcessing false c in
  let st := set_observedCards [] (core c) in
  let st := set_loadedImages ∅ st in
  let st := set_loadingImages ∅ st in
  let st := set_retryAttempts ∅ st in
  processAllCards allCards rendered (set_core st c).

(** [destroy()]; [observer.disconnect()] empties the targets of the
    observer. *)
Definition destroy (c : Controller) : Controller :=
  let c := match observer (core c) with
           | Some _ => set_core (set_observer (Some ∅) (core c)) c
           | None => c
           end in
  let c := clearTimeout (mutationTimeout c) c in
  set_isInitialized false c.

(** [initialize()] *)
Definition initialize (allCards : list nat) (rendered : gset nat)
    (c : Controller) : Completion unit * Controller :=
  if isInitialized c then (Returned (), c)
  else
    let c := set_core (create_observer (core c)) c in
    match processAllCards allCards rendered c with
    | (Returned _, c) =>
        let c := set_mutation_observers (S (mutation_observers c)) c in
        let c := set_styles_injected true c in
        (Returned (), set_isInitialized true c)
    | (Thrown, c) => (Thrown, c)
    end.

(** The mutation records that the handler looks at. *)
Inductive MutationType :=
| ChildList
| Attributes
| CharacterData.

Record Node := {
  nodeType : Z;                        (* 1 for an element *)
  class_card : bool;                   (* classList contains 'card' *)
  contains_card : bool;                (* querySelector('.card') is not null *)
  class_extra_network_cards : bool     (* classList contains 'extra-network-cards' *)
}.

Record MutationRecord := {
  mutation_type : MutationType;
  addedNodes : list Node
}.

(** The filter of the mutation handler. *)
Definition is_card_addition (node : Node) : bool :=
  (nodeType node =? 1)
  && (class_card node || contains_card node || class_extra_network_cards node).

Definition is_relevant (mutation : MutationRecord) : bool :=
  match mutation_type mutation with
  | ChildList =>
      if (length (addedNodes mutation) =? 0)%nat then false
      else existsb is_card_addition (addedNodes mutation)
  | _ => false
  end.

(** The callback of the [MutationObserver]. *)
Definition mutation_handler (mutations : list MutationRecord) (c : Controller)
  : Controller :=
  let relevantMutations := List.filter is_relevant mutations in
  if (length relevantMutations =? 0)%nat then c
  else
    let c := clearTimeout (mutationTimeout c) c in
    let (id, c) := scan_setTimeout MutationRescan mutationDebounce c in
    set_mutationTimeout (Some id) c.

(** A timer of the scans fires: both closures call [processAllCards]. *)
Fixpoint take_timer (id : nat) (ts : list (nat * (Z * ScanTimer)))
  : option (list (nat * (Z * ScanTimer))) :=
  match ts with
  | [] => None
  | t :: ts' =>
      if (fst t =? id)%nat then Some ts'
      else (λ rest, t :: rest) <$> take_timer id ts'
  end.

Definition fire_scan_timer (id : nat) (allCards : list nat)
    (rendered : gset nat) (c : Controller) : Controller :=
  match take_timer id (scan_timers c) with
  | Some ts => snd (processAllCards allCards rendered (set_scan_timers ts c))
  | None => c
  end.

(** What can happen to the loader object. *)
Inductive ControllerEvent :=
| LoaderEvent (e : Event)
| Initialize (allCards : list nat) (rendered : gset nat)
| Destroy
| Reinitialize (allCards : list nat) (rendered : gset nat)
| MutationsObserved (mutations : list MutationRecord)
| ScanTimerFired (id : nat) (allCards : list nat) (rendered : gset nat).

Definition controller_step (c : Controller) (e : ControllerEvent)
  : Controller :=
  match e with
  | LoaderEvent e => set_core (step (core c) e) c
  | Initialize allCards rendered => snd (initialize allCards rendered c)
  | Destroy => destroy c
  | Reinitialize allCards rendered => snd (reinitialize allCards rendered c)
  | MutationsObserved mutations => mutation_handler mutations c
  | ScanTimerFired id allCards rendered =>
      fire_scan_timer id allCards rendered c
  end.

Definition controller_run (c : Controller) (es : list ControllerEvent)
  : Controller :=
  foldl controller_step c es.

Definition is_mutation_rescan (t : nat * (Z * ScanTimer)) : bool :=
  match snd (snd t) with
  | MutationRescan => true
  | Rescan => false
  end.

(** *** Loads in flight *)

(** The part of the loader that the loads of thumbnails write. *)
Definition flight (st : Loader) : gset string * gset string * list Suspended :=
  (loadedImages st, loadingImages st, awaiting st).

(** The names of the cards whose call of [loadCardThumbnails] is waiting. *)
Definition awaited_names (st : Loader) : list string :=
  s_cardName <$> awaiting st.

(** At most one call is waiting per name, [loadingImages] holds exactly the
    names of the waiting calls, and no name is loaded and loading at the
    same time. *)
Definition single_flight (st : Loader) : Prop :=
  NoDup (awaited_names st) ∧
  (∀ name : string, name ∈ loadingImages st ↔ name ∈ awaited_names st) ∧
  (∀ name : string, name ∈ loadedImages st → name ∉ loadingImages st).

(** A name whose thumbnails are loaded or being loaded. *)
Definition known (name : string) (st : Loader) : Prop :=
  name ∈ loadedImages st ∨ name ∈ loadingImages st.

(** The targets of the entries that intersect. *)
Definition intersecting (entries : list (nat * bool)) : list nat :=
  fst <$> List.filter snd entries.

(** *** The images of a card through a load *)

(** The address that [loadCardThumbnails] hands to [loadSingleImage] for an
    image, if it selects the image. *)
Definition selected (i : Img) : option string :=
  match originalSrc i with
  | Some o => if (lazyLoading i && negb (String.eqb o ""))%bool
              then Some o else None
  | None => None
  end.

(** What [preloadImg.onload] does to the image at once, and what its timer
    does 150 ms later. *)
Definition dim (i : Img) : Img := set_opacity "0" i.

Definition reveal (src0 : string) (i : Img) : Img :=
  set_lazyLoading false (set_filter_ "none" (set_opacity "1" (set_src src0 i))).

(** The images of a card after a change was made for each promise, in the
    order of the promises. *)
Definition alter_each (f : string → Img → Img) (promises : list (nat * string))
    (imgs : list Img) : list Img :=
  foldl (λ (l : list Img) (p : nat * string), alter (f (snd p)) (fst p) l)
    imgs promises.

(** An image as the page delivers it: the loader has not touched it. *)
Definition untouched (i : Img) : Prop :=
  originalSrc i = None ∧ lazyLoading i = false.

(** The timers that the fulfilled promises of a card set. *)
Definition swap_timers (card : nat) (promises : list (nat * string))
  : list (Z * Timer) :=
  (λ p : nat * string, (150, SwapImage card (fst p) (snd p))) <$> promises.

(** *** The timers of the mutation handler *)

(** Every pending timer of the mutation handler is the one whose id is in
    [mutationTimeout]; ids are handed out once. *)
Definition debounced (c : Controller) : Prop :=
  (∀ t : nat * (Z * ScanTimer),
     t ∈ scan_timers c → is_mutation_rescan t = true →
     mutationTimeout c = Some (fst t)) ∧
  (∀ t : nat * (Z * ScanTimer),
     t ∈ scan_timers c → (fst t < next_timer_id c)%nat) ∧
  NoDup (fst <$> scan_timers c).

(** The pending timers of the mutation handler. *)
Definition mutation_rescans (c : Controller) : list (nat * (Z * ScanTimer)) :=
  List.filter is_mutation_rescan (scan_timers c).

(** *** A card that is prepared again *)

(** A thumbnail that [findThumbnailImages] finds by the place of the image
    in the card, whatever its address is. *)
Definition found_by_place (i : Img) : bool :=
  is_thumbnail i && (in_preview i || card_image i).

(** What the preparation records of the address of an image. *)
Definition keeps_address (before after : Img) : Prop :=
  originalSrc after = if is_thumbnail before then Some (src before) else None.

(** *** Load attempts *)

(** The call of [loadCardThumbnails] for a card that gets past the guard in
    the state [st], as it waits at the [await]. *)
Definition waiting_call (st : Loader) (card : nat) : Suspended :=
  {| s_card := card; s_cardName := cardName st card;
     s_promises := lazy_images 0 (images (card_of st card)) |}.







(** The cards of a forced load: the tracked cards that are in the
    viewport. *)
Definition visible_cards (in_viewport : gset nat) (st : Loader) : list nat :=
  List.filter (λ card : nat, bool_decide (card ∈ in_viewport))
    (observedCards st).

(** The call of [reinitialize()] among the events of the loader object. *)
Definition is_reset (e : ControllerEvent) : bool :=
  match e with
  | Reinitialize _ _ => true
  | _ => false
  end.

(** No name is loaded and loading at the same time. *)
Definition loaded_apart (st : Loader) : Prop :=
  ∀ name : string, name ∈ loadedImages st → name ∉ loadingImages st.

End ThumbnailLoader.

(** * Properties *)

Import Js Progressbar.

(** ** Numbers *)

Lemma lt_true (a b : Q) : lt a b = true ↔ (a < b)%Q.
Proof.
  unfold lt. rewrite negb_true_iff, <- not_true_iff_false, Qle_bool_iff.
  split; [apply Qnot_le_lt | apply Qlt_not_le].
Qed.

Lemma lt_false (a b : Q) : lt a b = false ↔ (b <= a)%Q.
Proof.
  unfold lt. rewrite negb_false_iff. apply Qle_bool_iff.
Qed.

Lemma gt_true (a b : Q) : gt a b = true ↔ (b < a)%Q.
Proof. apply lt_true. Qed.

Lemma gt_false (a b : Q) : gt a b = false ↔ (a <= b)%Q.
Proof. apply lt_false. Qed.

(** Case analysis on a comparison of the code. *)
Ltac case_lt a b :=
  let E := fresh "E" in
  destruct (lt a b) eqn:E;
  [apply lt_true in E | apply lt_false in E].

(** ** [pad2] and [formatTime] *)

Lemma append_assoc (s1 s2 s3 : string) :
  (s1 +:+ s2) +:+ s3 = s1 +:+ (s2 +:+ s3).
Proof.
  induction s1 as [|c s1 IH]; [reflexivity |].
  change (String c ((s1 +:+ s2) +:+ s3) = String c (s1 +:+ (s2 +:+ s3))).
  now rewrite IH.
Qed.

Lemma pad2_zero_padded (n : Z) : to_string (pad2 n) = zero_padded n.
Proof. unfold pad2, zero_padded. destruct (n <? 10); reflexivity. Qed.

Lemma pad2_two_digits (n : Z) :
  0 <= n < 100 → to_string (pad2 n) = two_digits n.
Proof.
  intros Hn.
  assert (Hall : forallb
            (λ k, String.eqb (to_string (pad2 (Z.of_nat k)))
                             (two_digits (Z.of_nat k)))
            (seq 0 100) = true) by (vm_compute; reflexivity).
  rewrite forallb_forall in Hall.
  specialize (Hall (Z.to_nat n)).
  rewrite Z2Nat.id in Hall by lia.
  apply String.eqb_eq, Hall, in_seq. lia.
Qed.

Lemma formatTime_hours (secs : Q) :
  (3600 < secs)%Q →
  formatTime secs =
    String.concat ":" [zero_padded (Qfloor (secs / 60 / 60));
                       two_digits (Qfloor (secs / 60) mod 60);
                       two_digits (Qfloor secs mod 60)].
Proof.
  intros H. unfold formatTime.
  apply gt_true in H. rewrite H. cbn [to_string concat String.concat].
  rewrite pad2_zero_padded.
  rewrite !pad2_two_digits
    by (pose proof (Z.mod_pos_bound (Qfloor secs) 60);
        pose proof (Z.mod_pos_bound (Qfloor (secs / 60)) 60); lia).
  rewrite !append_assoc. reflexivity.
Qed.

Lemma formatTime_minutes (secs : Q) :
  (60 < secs <= 3600)%Q →
  formatTime secs =
    String.concat ":" [two_digits (Qfloor (secs / 60));
                       two_digits (Qfloor secs mod 60)].
Proof.
  intros [Hlo Hhi]. unfold formatTime.
  apply gt_false in Hhi. apply gt_true in Hlo as Hlo'. rewrite Hhi, Hlo'.
  cbn [to_string concat String.concat].
  assert (0 <= Qfloor (secs / 60) <= 60) as Hm.
  { apply gt_false in Hhi. split.
    - change 0 with (Qfloor 0). apply Qfloor_resp_le.
      apply Qle_shift_div_l; [reflexivity |].
      apply Qlt_le_weak, Qlt_trans with (y := 60%Q); [reflexivity | assumption].
    - change 60 with (Qfloor 60). apply Qfloor_resp_le.
      apply Qle_shift_div_r; [reflexivity | assumption]. }
  rewrite !pad2_two_digits
    by (pose proof (Z.mod_pos_bound (Qfloor secs) 60); lia).
  rewrite !append_assoc. reflexivity.
Qed.

Lemma formatTime_seconds (secs : Q) :
  (secs <= 60)%Q → formatTime secs = pretty (Qfloor secs) +:+ "s".
Proof.
  intros H. unfold formatTime.
  assert (gt secs 3600 = false) as ->.
  { apply gt_false, Qle_trans with (y := 60%Q); [assumption | discriminate]. }
  apply gt_false in H. rewrite H. reflexivity.
Qed.

(** C4, as the specification states it, fails: the leading field goes through
    [pad2] like the others, so 3661 seconds are shown as "01:01:01" and not
    as "1:01:01", and 90 seconds as "01:30" and not as "1:30". *)
Lemma formatTime_leading_field_is_padded :
  formatTime 3661 = "01:01:01" ∧ formatTime 3661 ≠ "1:01:01" ∧
  formatTime 90 = "01:30" ∧ formatTime 90 ≠ "1:30".
Proof. repeat split; (reflexivity || discriminate). Qed.

(** C4, amended: above 3600 seconds [formatTime] shows hours, minutes and
    seconds separated by colons, the hours padded with a zero to at least
    two digits, minutes and seconds as exactly two digits; above 60 seconds
    and up to 3600 it shows minutes and seconds, each as exactly two
    digits; otherwise the whole seconds followed by "s". So 3661 gives
    "01:01:01", 90 gives "01:30" and 45 gives "45s". *)
Theorem formatTime_fields :
  (∀ secs : Q,
     ((3600 < secs)%Q →
      formatTime secs =
        String.concat ":" [zero_padded (Qfloor (secs / 60 / 60));
                           two_digits (Qfloor (secs / 60) mod 60);
                           two_digits (Qfloor secs mod 60)]) ∧
     ((60 < secs <= 3600)%Q →
      formatTime secs =
        String.concat ":" [two_digits (Qfloor (secs / 60));
                           two_digits (Qfloor secs mod 60)]) ∧
     ((secs <= 60)%Q → formatTime secs = pretty (Qfloor secs) +:+ "s")) ∧
  formatTime 3661 = "01:01:01" ∧
  formatTime 90 = "01:30" ∧
  formatTime 45 = "45s".
Proof.
  split; [| repeat split].
  intros secs. split; [| split].
  - apply formatTime_hours.
  - apply formatTime_minutes.
  - apply formatTime_seconds.
Qed.

Lemma formatTime_fields_witness :
  (3600 < 360000)%Q ∧ formatTime 360000 = "100:00:00" ∧
  (60 < 3600 <= 3600)%Q ∧ formatTime 3600 = "60:00" ∧
  (60 <= 60)%Q ∧ formatTime 60 = "60s".
Proof.
  pose proof (proj1 formatTime_fields) as H.
  split; [reflexivity |].
  split; [rewrite (proj1 (H 360000%Q)); reflexivity |].
  split; [split; [reflexivity | discriminate] |].
  split; [rewrite (proj1 (proj2 (H 3600%Q)));
          [reflexivity | split; [reflexivity | discriminate]] |].
  split; [discriminate |].
  rewrite (proj2 (proj2 (H 60%Q))); [reflexivity | discriminate].
Defined.

(** ** [getSmartRefreshRate] *)

Lemma getSmartRefreshRate_inactive (p : Q) :
  getSmartRefreshRate p false = 1000.
Proof. reflexivity. Qed.

Lemma getSmartRefreshRate_active (p : Q) :
  getSmartRefreshRate p true =
    if lt p (5 # 100) then 1000
    else if lt p (2 # 10) then 800
    else if lt p (7 # 10) then 400
    else if lt p (95 # 100) then 250
    else 200.
Proof. reflexivity. Qed.

Lemma Qlt_le_absurd (a b c : Q) : (a < b)%Q → (c <= a)%Q → (b <= c)%Q → False.
Proof.
  intros H1 H2 H3. apply (Qlt_irrefl a).
  eapply Qlt_le_trans; [exact H1 |]. eapply Qle_trans; eassumption.
Qed.

Lemma getSmartRefreshRate_antitone (p q : Q) :
  (p <= q)%Q → getSmartRefreshRate q true <= getSmartRefreshRate p true.
Proof.
  intros Hpq. rewrite !getSmartRefreshRate_active.
  case_lt p (5 # 100); case_lt p (2 # 10); case_lt p (7 # 10);
    case_lt p (95 # 100);
    case_lt q (5 # 100); case_lt q (2 # 10); case_lt q (7 # 10);
    case_lt q (95 # 100); try lia;
    exfalso;
    first [ eapply (Qlt_le_absurd q (5 # 100) p); eassumption
          | eapply (Qlt_le_absurd q (2 # 10) p); eassumption
          | eapply (Qlt_le_absurd q (7 # 10) p); eassumption
          | eapply (Qlt_le_absurd q (95 # 100) p); eassumption ].
Qed.

(** C5: for a progress value [p] in [0,1], the delay is 1000 when the task
    is not active or [p < 0.05], 800 for [0.05 <= p < 0.2], 400 for
    [0.2 <= p < 0.7], 250 for [0.7 <= p < 0.95] and 200 for [0.95 <= p];
    for an active task the delay does not increase when the progress
    increases, and it is 200, the least delay, from 0.95 on. *)
Theorem getSmartRefreshRate_table (p q : Q) (a : bool) :
  (0 <= p <= 1)%Q → (0 <= q <= 1)%Q →
  (a = false ∨ (p < 5 # 100)%Q → getSmartRefreshRate p a = 1000) ∧
  (a = true → (5 # 100 <= p < 2 # 10)%Q → getSmartRefreshRate p a = 800) ∧
  (a = true → (2 # 10 <= p < 7 # 10)%Q → getSmartRefreshRate p a = 400) ∧
  (a = true → (7 # 10 <= p < 95 # 100)%Q → getSmartRefreshRate p a = 250) ∧
  (a = true → (95 # 100 <= p)%Q → getSmartRefreshRate p a = 200) ∧
  ((p <= q)%Q → getSmartRefreshRate q true <= getSmartRefreshRate p true) ∧
  200 <= getSmartRefreshRate q a.
Proof.
  intros _ _.
  assert (Hchain : ∀ x y z : Q, (x <= y)%Q → (y < z)%Q → (z <= x)%Q → False).
  { intros x y z H1 H2 H3. apply (Qlt_irrefl y).
    eapply Qlt_le_trans; [exact H2 |]. eapply Qle_trans; eassumption. }
  repeat split.
  - intros [-> | H]; [reflexivity |].
    unfold getSmartRefreshRate. apply lt_true in H. rewrite H.
    now rewrite orb_true_r.
  - intros -> [H1 H2]. rewrite getSmartRefreshRate_active.
    apply lt_false in H1. apply lt_true in H2. now rewrite H1, H2.
  - intros -> [H1 H2]. rewrite getSmartRefreshRate_active.
    case_lt p (5 # 100);
      [exfalso; apply (Hchain (2 # 10) p (5 # 100)); auto; discriminate |].
    apply lt_false in H1. apply lt_true in H2. now rewrite H1, H2.
  - intros -> [H1 H2]. rewrite getSmartRefreshRate_active.
    case_lt p (5 # 100);
      [exfalso; apply (Hchain (7 # 10) p (5 # 100)); auto; discriminate |].
    case_lt p (2 # 10);
      [exfalso; apply (Hchain (7 # 10) p (2 # 10)); auto; discriminate |].
    apply lt_false in H1. apply lt_true in H2. now rewrite H1, H2.
  - intros -> H1. rewrite getSmartRefreshRate_active.
    case_lt p (5 # 100);
      [exfalso; apply (Hchain (95 # 100) p (5 # 100)); auto; discriminate |].
    case_lt p (2 # 10);
      [exfalso; apply (Hchain (95 # 100) p (2 # 10)); auto; discriminate |].
    case_lt p (7 # 10);
      [exfalso; apply (Hchain (95 # 100) p (7 # 10)); auto; discriminate |].
    apply lt_false in H1. now rewrite H1.
  - apply getSmartRefreshRate_antitone.
  - unfold getSmartRefreshRate.
    destruct (negb a || lt q (5 # 100))%bool, (lt q (2 # 10)),
      (lt q (7 # 10)), (lt q (95 # 100)); lia.
Qed.

Lemma getSmartRefreshRate_table_witness :
  getSmartRefreshRate (1 # 2) true = 400 ∧
  getSmartRefreshRate (96 # 100) true <= getSmartRefreshRate (1 # 2) true.
Proof.
  assert (H : (0 <= 1 # 2 <= 1)%Q) by (split; discriminate).
  assert (H' : (0 <= 96 # 100 <= 1)%Q) by (split; discriminate).
  pose proof (getSmartRefreshRate_table (1 # 2) (96 # 100) true H H')
    as (_ & _ & H400 & _ & _ & Hmono & _).
  split.
  - apply H400; [reflexivity | split; [discriminate | reflexivity]].
  - apply Hmono. discriminate.
Defined.

(** ** The poll session *)

Section SessionFacts.

Variable cfg : Config.

(** [removeProgressBar] leaves the session terminated, sets no timer and
    sends no request. *)
Lemma setTitle_fields (t : string) (s : Session) :
  wasEverActive (setTitle cfg t s) = wasEverActive s ∧
  divProgress (setTitle cfg t s) = divProgress s ∧
  livePreview (setTitle cfg t s) = livePreview s ∧
  timers (setTitle cfg t s) = timers s ∧
  requests (setTitle cfg t s) = requests s ∧
  atEnd_calls (setTitle cfg t s) = atEnd_calls s ∧
  divInner (setTitle cfg t s) = divInner s.
Proof. unfold setTitle. case_match; repeat split. Qed.

Lemma removeProgressBar_terminated (s : Session) :
  terminated (removeProgressBar cfg s) = true.
Proof.
  unfold terminated, removeProgressBar.
  destruct (divProgress s) eqn:E; cbn [negb]; [| now rewrite E].
  reflexivity.
Qed.

Lemma removeProgressBar_fields (s : Session) :
  wasEverActive (removeProgressBar cfg s) = wasEverActive s ∧
  livePreview (removeProgressBar cfg s) = livePreview s ∧
  timers (removeProgressBar cfg s) = timers s ∧
  requests (removeProgressBar cfg s) = requests s.
Proof.
  unfold removeProgressBar.
  destruct (divProgress s); cbn [negb]; [| repeat split].
  pose proof (setTitle_fields "" s) as (? & ? & ? & ? & ? & ? & ?).
  case_match; cbn; repeat split; assumption.
Qed.

(** The first time [removeProgressBar] runs it unmounts the bar, restores
    the title and calls [atEnd] once; later calls do nothing. *)
Lemma removeProgressBar_cleanup (s : Session) :
  divProgress s = true →
  progressbar_mounted (removeProgressBar cfg s) = false ∧
  title (removeProgressBar cfg s) = originalAppTitle cfg ∧
  atEnd_calls (removeProgressBar cfg s) = S (atEnd_calls s).
Proof.
  intros H. unfold removeProgressBar. rewrite H. cbn [negb].
  pose proof (setTitle_fields "" s) as (? & ? & ? & ? & ? & ? & ?).
  assert (title (setTitle cfg "" s) = originalAppTitle cfg) as Ht.
  { unfold setTitle. rewrite andb_false_r.
    destruct (String.eqb (title s) (originalAppTitle cfg)) eqn:E;
      cbn [negb]; [now apply String.eqb_eq in E | reflexivity]. }
  case_match; cbn; repeat split; congruence.
Qed.

Lemma removeProgressBar_idle (s : Session) :
  divProgress s = false → removeProgressBar cfg s = s.
Proof. intros H. unfold removeProgressBar. now rewrite H. Qed.

End SessionFacts.

Section ProgressHandler.

Variable cfg : Config.

Lemma show_progress_fields (res : Response) (s : Session) :
  wasEverActive (show_progress cfg res s) = wasEverActive s ∧
  divProgress (show_progress cfg res s) = divProgress s ∧
  livePreview (show_progress cfg res s) = livePreview s ∧
  timers (show_progress cfg res s) = timers s ∧
  requests (show_progress cfg res s) = requests s ∧
  atEnd_calls (show_progress cfg res s) = atEnd_calls s.
Proof.
  unfold show_progress. cbn.
  match goal with |- context [setTitle cfg ?t ?s0] =>
    pose proof (setTitle_fields cfg t s0) as (? & ? & ? & ? & ? & ? & ?) end.
  repeat split; assumption.
Qed.

(** The handler never clears the flag: it is set by an active response and
    kept by every other one. *)
Lemma onProgressResponse_wasEverActive (res : Response) (now : Z) (s : Session) :
  wasEverActive (snd (onProgressResponse cfg res now s)) =
    (wasEverActive s || (active res && negb (completed res)))%bool.
Proof.
  unfold onProgressResponse.
  pose proof (show_progress_fields res s) as (Hw & _).
  destruct (completed res).
  { cbn [snd]. rewrite (proj1 (removeProgressBar_fields cfg s)).
    now rewrite andb_false_r, orb_false_r. }
  remember (show_progress cfg res s) as s1 eqn:Es1. rewrite <- Hw. clear Es1 Hw.
  destruct (active res); cbn [negb andb].
  - rewrite andb_false_r. cbn [negb andb]. destruct (onProgress cfg); cbn;
      now rewrite orb_true_r.
  - rewrite orb_false_r.
    repeat case_match; cbn [snd];
      rewrite ?(proj1 (removeProgressBar_fields cfg _)); cbn; congruence.
Qed.

(** The three ways in which the handler ends the session, and the one in
    which it goes on. *)
Lemma onProgressResponse_completed (res : Response) (now : Z) (s : Session) :
  completed res = true →
  onProgressResponse cfg res now s = (ExitCompleted, removeProgressBar cfg s).
Proof. intros H. unfold onProgressResponse. now rewrite H. Qed.

Lemma onProgressResponse_inactive (res : Response) (now : Z) (s : Session) :
  completed res = false → active res = false → wasEverActive s = true →
  onProgressResponse cfg res now s =
    (ExitInactive, removeProgressBar cfg (show_progress cfg res s)).
Proof.
  intros Hc Ha Hw. unfold onProgressResponse. rewrite Hc, Ha. cbn [negb andb].
  now rewrite (proj1 (show_progress_fields res s)), Hw.
Qed.

Lemma onProgressResponse_timeout (res : Response) (now : Z) (s : Session) :
  completed res = false → active res = false → queued res = false →
  wasEverActive s = false →
  (inactivityTimeout cfg < inject_Z (now - dateStart cfg) / 1000)%Q →
  onProgressResponse cfg res now s =
    (ExitTimeout, removeProgressBar cfg (show_progress cfg res s)).
Proof.
  intros Hc Ha Hq Hw Ht. unfold onProgressResponse.
  rewrite Hc, Ha, Hq. cbn [negb andb].
  rewrite (proj1 (show_progress_fields res s)), Hw.
  apply gt_true in Ht. now rewrite Ht.
Qed.

End ProgressHandler.

Section SessionTraces.

Variable cfg : Config.

Lemma onLivePreviewResponse_fields (res : Response) (s : Session) :
  wasEverActive (onLivePreviewResponse cfg res s) = wasEverActive s ∧
  divProgress (onLivePreviewResponse cfg res s) = divProgress s ∧
  livePreview (onLivePreviewResponse cfg res s) = livePreview s.
Proof.
  unfold onLivePreviewResponse, new_preview_image, setTimeout.
  repeat case_match; repeat split.
Qed.

Lemma img_onload_fields (img : nat) (s : Session) :
  wasEverActive (img_onload img s) = wasEverActive s ∧
  divProgress (img_onload img s) = divProgress s.
Proof.
  unfold img_onload, setTimeout. repeat case_match; repeat split.
Qed.

Lemma run_callback_fields (f : Callback) (s : Session) :
  wasEverActive (run_callback f s) = wasEverActive s ∧
  divProgress (run_callback f s) = divProgress s.
Proof.
  destruct f; cbn; repeat case_match; repeat split.
Qed.

(** The flag [wasEverActive] is monotonic: no event clears it. *)
Lemma step_wasEverActive (s : Session) (e : Event) :
  wasEverActive s = true → wasEverActive (step cfg s e) = true.
Proof.
  intros H. destruct e as [res now| |res| |img|k]; cbn [step].
  - destruct (answer _ _); [| assumption].
    rewrite onProgressResponse_wasEverActive. cbn. now rewrite H.
  - destruct (answer _ _); [| assumption]. unfold onProgressError.
    now rewrite (proj1 (removeProgressBar_fields cfg _)).
  - destruct (answer _ _); [| assumption].
    now rewrite (proj1 (onLivePreviewResponse_fields _ _)).
  - destruct (answer _ _); [| assumption]. unfold onLivePreviewError.
    now rewrite (proj1 (removeProgressBar_fields cfg _)).
  - case_match; [| assumption].
    now rewrite (proj1 (img_onload_fields _ _)).
  - destruct (timers s !! k) as [[d f]|]; [| assumption].
    now rewrite (proj1 (run_callback_fields _ _)).
Qed.

Lemma run_wasEverActive (es : list Event) (s : Session) :
  wasEverActive s = true → wasEverActive (run cfg s es) = true.
Proof.
  revert s. induction es as [|e es IH]; intros s H; [assumption |].
  apply IH, step_wasEverActive, H.
Qed.

(** It is set by nothing but an active response of the progress loop. *)
Lemma step_never_active (s : Session) (e : Event) :
  reports_active e = false → wasEverActive s = false →
  wasEverActive (step cfg s e) = false.
Proof.
  intros He H. destruct e as [res now| |res| |img|k]; cbn [step].
  - destruct (answer _ _); [| assumption].
    rewrite onProgressResponse_wasEverActive. cbn in *. now rewrite H, He.
  - destruct (answer _ _); [| assumption]. unfold onProgressError.
    now rewrite (proj1 (removeProgressBar_fields cfg _)).
  - destruct (answer _ _); [| assumption].
    now rewrite (proj1 (onLivePreviewResponse_fields _ _)).
  - destruct (answer _ _); [| assumption]. unfold onLivePreviewError.
    now rewrite (proj1 (removeProgressBar_fields cfg _)).
  - case_match; [| assumption].
    now rewrite (proj1 (img_onload_fields _ _)).
  - destruct (timers s !! k) as [[d f]|]; [| assumption].
    now rewrite (proj1 (run_callback_fields _ _)).
Qed.

Lemma run_never_active (es : list Event) (s : Session) :
  Forall (λ e, reports_active e = false) es → wasEverActive s = false →
  wasEverActive (run cfg s es) = false.
Proof.
  intros Hes. revert s. induction Hes as [|e es He _ IH]; intros s H;
    [assumption |].
  apply IH, step_never_active; assumption.
Qed.

(** Once [divProgress] is null it stays null. *)
Lemma step_terminated (s : Session) (e : Event) :
  terminated s = true → terminated (step cfg s e) = true.
Proof.
  unfold terminated. rewrite !negb_true_iff. intros H.
  assert (Hrm : ∀ s', divProgress s' = false →
                      divProgress (removeProgressBar cfg s') = false).
  { intros s' H'. now rewrite removeProgressBar_idle. }
  destruct e as [res now| |res| |img|k]; cbn [step].
  - destruct (answer _ _); [| assumption].
    unfold onProgressResponse.
    pose proof (show_progress_fields cfg res (set_requests l s)) as (_ & Hd & _).
    change (divProgress (set_requests l s)) with (divProgress s) in Hd.
    rewrite H in Hd.
    remember (show_progress cfg res (set_requests l s)) as s1 eqn:Es1.
    clear Es1.
    repeat case_match; cbn [snd]; try (apply Hrm; cbn; assumption);
      cbn; assumption.
  - destruct (answer _ _); [| assumption]. now apply Hrm.
  - destruct (answer _ _); [| assumption].
    now rewrite (proj1 (proj2 (onLivePreviewResponse_fields _ _))).
  - destruct (answer _ _); [| assumption]. now apply Hrm.
  - case_match; [| assumption].
    now rewrite (proj2 (img_onload_fields _ _)).
  - destruct (timers s !! k) as [[d f]|]; [| assumption].
    now rewrite (proj2 (run_callback_fields _ _)).
Qed.

End SessionTraces.

(** C1: when a response of the progress loop has [active] false and
    [completed] not set, and the flag [wasEverActive] is set (which is the
    case as soon as an earlier response of the session was active, whatever
    happened in between), the handler ends through the drop-from-active
    return: it runs [removeProgressBar], which leaves the session
    terminated (unmounting the bar and calling [atEnd] if that was not done
    yet), and it sets no timer and sends no request. *)
Theorem drop_from_active_terminates
    (cfg : Config) (s : Session) (res : Response) (now : Z) :
  completed res = false → active res = false →
  (wasEverActive s = true ∨
   ∃ s0 res1 now1 es,
     completed res1 = false ∧ active res1 = true ∧
     s = run cfg (snd (onProgressResponse cfg res1 now1 s0)) es) →
  fst (onProgressResponse cfg res now s) = ExitInactive ∧
  snd (onProgressResponse cfg res now s)
    = removeProgressBar cfg (show_progress cfg res s) ∧
  terminated (snd (onProgressResponse cfg res now s)) = true ∧
  timers (snd (onProgressResponse cfg res now s)) = timers s ∧
  requests (snd (onProgressResponse cfg res now s)) = requests s ∧
  (divProgress s = true →
   progressbar_mounted (snd (onProgressResponse cfg res now s)) = false ∧
   atEnd_calls (snd (onProgressResponse cfg res now s)) = S (atEnd_calls s)).
Proof.
  intros Hc Ha Hflag.
  assert (Hw : wasEverActive s = true).
  { destruct Hflag as [H | (s0 & res1 & now1 & es & Hc1 & Ha1 & ->)];
      [assumption |].
    apply run_wasEverActive. rewrite onProgressResponse_wasEverActive.
    rewrite Hc1, Ha1. apply orb_true_r. }
  rewrite (onProgressResponse_inactive cfg res now s Hc Ha Hw). cbn [fst snd].
  pose proof (show_progress_fields cfg res s) as (_ & Hd & _ & Ht & Hr & He).
  pose proof (removeProgressBar_fields cfg (show_progress cfg res s))
    as (_ & _ & Ht' & Hr').
  split; [reflexivity |]. split; [reflexivity |].
  split; [apply removeProgressBar_terminated |].
  split; [congruence |]. split; [congruence |].
  intros Hdiv. rewrite <- Hd in Hdiv.
  pose proof (removeProgressBar_cleanup cfg _ Hdiv) as (Hm & _ & Hend).
  split; congruence.
Qed.

Lemma drop_from_active_terminates_witness :
  terminated
    (snd (onProgressResponse (scenario_config false)
            (scenario_response false false None None) 2000
            (run (scenario_config false)
               (snd (onProgressResponse (scenario_config false)
                       (scenario_response false true (Some (1 # 2)) None) 1000
                       (scenario_session false)))
               [TimerFired 0%nat]))) = true.
Proof.
  apply (drop_from_active_terminates (scenario_config false)
           (run (scenario_config false)
              (snd (onProgressResponse (scenario_config false)
                      (scenario_response false true (Some (1 # 2)) None) 1000
                      (scenario_session false)))
              [TimerFired 0%nat])
           (scenario_response false false None None) 2000).
  - reflexivity.
  - reflexivity.
  - right.
    exists (scenario_session false),
           (scenario_response false true (Some (1 # 2)) None), 1000,
           [TimerFired 0%nat].
    repeat split; reflexivity.
Defined.

(** C6, as the specification states it, fails: a response that signals
    [completed] is handled by the first test of the handler, also when it
    comes 41 seconds after the start of a session with a timeout of 40
    seconds in which no response was ever active or queued. *)
Lemma completed_after_timeout_exits_as_completed :
  inactivityTimeout (scenario_config false) = 40%Q ∧
  wasEverActive (scenario_session false) = false ∧
  active (scenario_response true false None None) = false ∧
  queued (scenario_response true false None None) = false ∧
  (inactivityTimeout (scenario_config false)
   < inject_Z (41000 - dateStart (scenario_config false)) / 1000)%Q ∧
  fst (onProgressResponse (scenario_config false)
         (scenario_response true false None None) 41000
         (scenario_session false)) = ExitCompleted ∧
  fst (onProgressResponse (scenario_config false)
         (scenario_response true false None None) 41000
         (scenario_session false)) ≠ ExitTimeout.
Proof. repeat split; (reflexivity || discriminate). Qed.

(** C6, amended: when no response of the session was ever active, and a
    response that is neither completed, nor active, nor queued is handled
    more than [inactivityTimeout] seconds after the start of the session,
    the handler ends through the inactivity-timeout return (not through the
    completion return): it runs [removeProgressBar], which leaves the
    session terminated, and it sets no timer and sends no request. *)
Theorem inactivity_timeout_terminates
    (cfg : Config) (s : Session) (res : Response) (now : Z) :
  completed res = false → active res = false → queued res = false →
  (wasEverActive s = false ∨
   ∃ title0 es,
     Forall (λ e, reports_active e = false) es ∧
     s = run cfg (requestProgress cfg title0) es) →
  (inactivityTimeout cfg < inject_Z (now - dateStart cfg) / 1000)%Q →
  fst (onProgressResponse cfg res now s) = ExitTimeout ∧
  snd (onProgressResponse cfg res now s)
    = removeProgressBar cfg (show_progress cfg res s) ∧
  terminated (snd (onProgressResponse cfg res now s)) = true ∧
  timers (snd (onProgressResponse cfg res now s)) = timers s ∧
  requests (snd (onProgressResponse cfg res now s)) = requests s.
Proof.
  intros Hc Ha Hq Hflag Hlate.
  assert (Hw : wasEverActive s = false).
  { destruct Hflag as [H | (title0 & es & Hes & ->)]; [assumption |].
    apply run_never_active; [assumption |].
    unfold requestProgress. now destruct (gallery cfg). }
  rewrite (onProgressResponse_timeout cfg res now s Hc Ha Hq Hw Hlate).
  cbn [fst snd].
  pose proof (show_progress_fields cfg res s) as (_ & _ & _ & Ht & Hr & _).
  pose proof (removeProgressBar_fields cfg (show_progress cfg res s))
    as (_ & _ & Ht' & Hr').
  repeat split.
  - apply removeProgressBar_terminated.
  - congruence.
  - congruence.
Qed.

Lemma inactivity_timeout_terminates_witness :
  fst (onProgressResponse (scenario_config false)
         (scenario_response false false None None) 41000
         (run (scenario_config false)
            (requestProgress (scenario_config false) "Stable Diffusion")
            [ProgressResponse (scenario_response false false None None) 20000;
             TimerFired 0%nat])) = ExitTimeout.
Proof.
  apply (inactivity_timeout_terminates (scenario_config false)
           (run (scenario_config false)
              (requestProgress (scenario_config false) "Stable Diffusion")
              [ProgressResponse (scenario_response false false None None) 20000;
               TimerFired 0%nat])
           (scenario_response false false None None) 41000).
  - reflexivity.
  - reflexivity.
  - reflexivity.
  - right. exists "Stable Diffusion",
      [ProgressResponse (scenario_response false false None None) 20000;
       TimerFired 0%nat].
    split; [| reflexivity].
    repeat constructor.
  - reflexivity.
Defined.

(** The live-preview loop stops once the session is terminated: its handler
    returns at once. *)
Lemma onLivePreviewResponse_after_termination
    (cfg : Config) (res : Response) (s : Session) :
  terminated s = true → onLivePreviewResponse cfg res s = s.
Proof.
  unfold terminated, onLivePreviewResponse. intros H. now rewrite H.
Qed.

(** C7, on the code: the progress loop does not look at [divProgress]. In a
    session with a gallery, the request of the live-preview loop fails, so
    that [removeProgressBar] runs and [atEnd] is called; the answer to the
    request of the progress loop, for an active task at 50%, then sets the
    title again and schedules the next poll of the progress loop, 400 ms
    later, and that timer sends a new request. *)
Theorem progress_loop_polls_after_termination :
  terminated (run (scenario_config true) (scenario_session true)
                [LivePreviewError]) = true ∧
  atEnd_calls (run (scenario_config true) (scenario_session true)
                 [LivePreviewError]) = 1%nat ∧
  scheduled_polls (run (scenario_config true) (scenario_session true)
                     [LivePreviewError]) = [] ∧
  scheduled_polls
    (run (scenario_config true) (scenario_session true)
       [LivePreviewError;
        ProgressResponse (scenario_response false true (Some (1 # 2)) None) 1000])
    = [(400, CallFunProgress)] ∧
  title
    (run (scenario_config true) (scenario_session true)
       [LivePreviewError;
        ProgressResponse (scenario_response false true (Some (1 # 2)) None) 1000])
    = "[50%] Stable Diffusion" ∧
  requests
    (run (scenario_config true) (scenario_session true)
       [LivePreviewError;
        ProgressResponse (scenario_response false true (Some (1 # 2)) None) 1000;
        TimerFired 0%nat])
    = [ReqProgress].
Proof. repeat split; reflexivity. Qed.

(** ** The preview images *)

Lemma last_two_length (l : list nat) : (length (last_two l) <= 2)%nat.
Proof. unfold last_two. rewrite length_drop. lia. Qed.

Lemma last_two_snoc (l : list nat) (x : nat) :
  last_two (l ++ [x]) =
    (if (length (last_two l) =? 2)%nat then tail (last_two l) else last_two l)
    ++ [x].
Proof.
  unfold last_two. rewrite length_app, length_drop. cbn [length].
  destruct (decide (length l < 2)%nat) as [Hlt | Hge].
  - replace (length l + 1 - 2)%nat with 0%nat by lia.
    replace (length l - 2)%nat with 0%nat by lia.
    rewrite !drop_0, Nat.sub_0_r.
    destruct (Nat.eqb_spec (length l) 2); [lia | reflexivity].
  - replace (length l - (length l - 2))%nat with 2%nat by lia.
    cbn [Nat.eqb].
    replace (length l + 1 - 2)%nat with (S (length l - 2)) by lia.
    rewrite drop_app_le by lia. f_equal.
    replace (S (length l - 2)) with (length l - 2 + 1)%nat by lia.
    rewrite <- drop_drop. now destruct (drop (length l - 2) l).
Qed.

Lemma filter_other_fresh (x : nat) (l : list nat) :
  x ∉ l → filter (λ y, y ≠ x) l = l.
Proof.
  induction l as [|a l IH]; intros H; [reflexivity |].
  apply not_elem_of_cons in H as [Hne Hl].
  rewrite filter_cons_True by congruence. f_equal. apply IH, Hl.
Qed.

Lemma appendChild_fresh (x : nat) (children : list nat) :
  x ∉ children → appendChild x children = children ++ [x].
Proof. intros H. unfold appendChild. now rewrite filter_other_fresh. Qed.

Lemma filter_fade_app (l k : list (Z * Callback)) :
  List.filter is_fade l = [] →
  List.filter is_fade (l ++ k) = List.filter is_fade k.
Proof. intros H. now rewrite List.filter_app, H. Qed.

Lemma img_onload_children (img : nat) (s : Session) :
  livePreview (img_onload img s)
    = Some (appendChild img (preview_images s)).
Proof.
  unfold img_onload, preview_images, setTimeout.
  destruct (livePreview s) as [cs|] eqn:E; cbn -[appendChild Nat.ltb];
    rewrite ?E; cbn [from_option id];
    match goal with |- context [appendChild img ?c] =>
      generalize (appendChild img c) end;
    intros l; (destruct (2 <? length l)%nat; [destruct l |]); reflexivity.
Qed.

Lemma img_onload_fades (img : nat) (s : Session) :
  List.filter is_fade (timers s) = [] →
  List.filter is_fade (timers (img_onload img s)) =
    (10, FadeIn img) ::
    (if (2 <? length (appendChild img (preview_images s)))%nat
     then match appendChild img (preview_images s) with
          | oldImg :: _ => [(300, RemoveOld oldImg)]
          | [] => []
          end
     else []).
Proof.
  intros H. unfold img_onload, preview_images, setTimeout.
  destruct (livePreview s) as [cs|] eqn:E; cbn -[appendChild Nat.ltb];
    rewrite ?E; cbn [from_option id];
    match goal with |- context [appendChild img ?c] =>
      generalize (appendChild img c) end;
    intros l; (destruct (2 <? length l)%nat; [destruct l |]);
    cbn [timers set_timers set_livePreview set_image_opacity
         set_preview_mounted];
    rewrite <- ?app_assoc, filter_fade_app by assumption; reflexivity.
Qed.

Lemma filter_fade_poll (l : list (Z * Callback)) :
  List.filter is_fade (List.filter is_poll l) = [].
Proof.
  induction l as [|t l IH]; [reflexivity |].
  cbn [List.filter]. destruct (is_poll t) eqn:E; [| assumption].
  cbn [List.filter]. unfold is_fade at 1. now rewrite E.
Qed.

(** One image loads in a session that holds at most two distinct preview
    images and has no fade pending: it is appended; if that makes three, the
    first child is the one whose removal is scheduled; after the timers
    have fired the two newest remain. *)
Lemma image_shown_round (img : nat) (s : Session) :
  (length (preview_images s) <= 2)%nat →
  NoDup (preview_images s ++ [img]) →
  List.filter is_fade (timers s) = [] →
  preview_images (img_onload img s) = preview_images s ++ [img] ∧
  List.filter is_fade (timers (img_onload img s)) =
    (10, FadeIn img) ::
    match preview_images s with
    | [oldImg; _] => [(300, RemoveOld oldImg)]
    | _ => []
    end ∧
  preview_images (fire_fades (img_onload img s)) =
    (if (length (preview_images s) =? 2)%nat
     then tail (preview_images s) else preview_images s) ++ [img] ∧
  List.filter is_fade (timers (fire_fades (img_onload img s))) = [].
Proof.
  intros Hlen Hnd Hfade.
  assert (Hfresh : img ∉ preview_images s).
  { apply NoDup_app in Hnd as (_ & Hdisj & _). intros Hin.
    apply (Hdisj img Hin). now left. }
  pose proof (img_onload_children img s) as Hc.
  pose proof (img_onload_fades img s Hfade) as Hf.
  rewrite appendChild_fresh in Hc, Hf by assumption.
  assert (Hpre : ∀ s', preview_images s' = default [] (livePreview s'))
    by reflexivity.
  unfold fire_fades. rewrite Hf, (Hpre (img_onload img s)), Hc.
  cbn [from_option id].
  remember (img_onload img s) as s1 eqn:Es1. clear Es1.
  remember (preview_images s) as cs eqn:Ecs. clear Ecs Hfade Hf.
  destruct cs as [|a [|b [|c cs]]]; cbn [length] in Hlen; try lia;
    cbn [app length Nat.ltb Nat.leb Nat.eqb tail foldl List.filter snd
         run_callback];
    (split; [reflexivity |]); (split; [reflexivity |]).
  - split; [| apply filter_fade_poll].
    rewrite Hpre. cbn. now rewrite Hc.
  - split; [| apply filter_fade_poll].
    rewrite Hpre. cbn. now rewrite Hc.
  - assert (a ≠ b ∧ a ≠ img) as [Hab Hai].
    { apply NoDup_cons in Hnd as [Hna _]. split; intros ->; apply Hna;
        cbn; set_solver. }
    rewrite Hpre. cbn. rewrite Hc.
    rewrite bool_decide_eq_true_2 by set_solver.
    cbn [livePreview set_livePreview timers]. split.
    + cbn [from_option id]. f_equal. unfold removeChild. cbn [app].
      rewrite filter_cons_False by (intros H; now apply H).
      rewrite !filter_cons_True by congruence. reflexivity.
    + apply filter_fade_poll.
Qed.

Lemma NoDup_last_two_snoc (l : list nat) (x : nat) :
  NoDup (l ++ [x]) → NoDup (last_two l ++ [x]).
Proof.
  intros H. eapply sublist_NoDup; [exact H |].
  apply sublist_app; [apply sublist_drop | reflexivity].
Qed.

Lemma show_images_snoc (s : Session) (shown : list nat) (img : nat) :
  show_images s (shown ++ [img])
    = fire_fades (img_onload img (show_images s shown)).
Proof. unfold show_images. now rewrite foldl_snoc. Qed.

(** While the images come one after the other and their timers fire in
    between, the preview div holds the two newest of them. *)
Lemma show_images_last_two (s : Session) (shown : list nat) :
  livePreview s = None → List.filter is_fade (timers s) = [] →
  NoDup shown →
  preview_images (show_images s shown) = last_two shown ∧
  List.filter is_fade (timers (show_images s shown)) = [].
Proof.
  intros Hnone Hfade. induction shown as [|img shown IH] using rev_ind;
    intros Hnd.
  - split; [| assumption]. unfold preview_images. cbn. now rewrite Hnone.
  - destruct IH as [IHc IHf]; [now apply NoDup_app in Hnd as (? & _ & _) |].
    rewrite show_images_snoc.
    pose proof (last_two_length shown) as Hlen.
    pose proof (NoDup_last_two_snoc _ _ Hnd) as Hnd'.
    rewrite <- IHc in Hlen, Hnd'.
    destruct (image_shown_round img _ Hlen Hnd' IHf) as (_ & _ & Hc & Hf).
    split; [| assumption].
    rewrite Hc, IHc. symmetry. apply last_two_snoc.
Qed.

(** C8, as the specification states it, fails: when the third preview image has
    loaded, the preview div holds three images; the first is only faded,
    and the timer that removes it is pending, 300 ms ahead. *)
Lemma third_preview_makes_three :
  preview_images
    (run (scenario_config true) (scenario_session true) three_previews)
    = [0; 1; 2]%nat ∧
  (2 < length (preview_images
                 (run (scenario_config true) (scenario_session true)
                    three_previews)))%nat ∧
  timers (run (scenario_config true) (scenario_session true) three_previews)
    = [(400, CallFunLivePreview (Some 1)); (10, FadeIn 2%nat);
       (300, RemoveOld 0%nat)].
Proof. repeat split; (reflexivity || (vm_compute; lia)). Qed.

(** C8, amended: in a session whose preview images load one after the
    other, each after the timers of the ones before it have fired, an image
    that loads is appended to the two newest images shown before it, so
    that the preview div then holds at most 3 images; when it holds 3, the
    oldest of them, its first child, is the one that is faded and whose
    removal is scheduled 300 ms later; once the timers have fired, the div
    holds the two newest images, so at most 2. *)
Theorem preview_keeps_two_after_fade
    (s : Session) (shown : list nat) (img : nat) :
  livePreview s = None → List.filter is_fade (timers s) = [] →
  NoDup (shown ++ [img]) →
  preview_images (img_onload img (show_images s shown))
    = last_two shown ++ [img] ∧
  (length (preview_images (img_onload img (show_images s shown))) <= 3)%nat ∧
  List.filter is_fade (timers (img_onload img (show_images s shown))) =
    (10, FadeIn img) ::
    match last_two shown with
    | [oldImg; _] => [(300, RemoveOld oldImg)]
    | _ => []
    end ∧
  preview_images (show_images s (shown ++ [img])) = last_two (shown ++ [img]) ∧
  (length (preview_images (show_images s (shown ++ [img]))) <= 2)%nat.
Proof.
  intros Hnone Hfade Hnd.
  destruct (show_images_last_two s shown Hnone Hfade) as [Hc Hf];
    [now apply NoDup_app in Hnd as (? & _ & _) |].
  pose proof (last_two_length shown) as Hlen.
  pose proof (NoDup_last_two_snoc _ _ Hnd) as Hnd'.
  rewrite <- Hc in Hlen, Hnd'.
  destruct (image_shown_round img _ Hlen Hnd' Hf) as (H1 & H2 & _ & _).
  destruct (show_images_last_two s (shown ++ [img]) Hnone Hfade Hnd)
    as [H3 _].
  rewrite Hc in H1, H2, Hlen.
  split; [assumption |]. split; [rewrite H1, length_app; cbn; lia |].
  split; [assumption |]. split; [assumption |].
  rewrite H3. apply last_two_length.
Qed.

Lemma preview_keeps_two_after_fade_witness :
  preview_images
    (img_onload 2 (show_images (scenario_session true) [0; 1]%nat))
    = [0; 1; 2]%nat ∧
  preview_images (show_images (scenario_session true) [0; 1; 2]%nat)
    = [1; 2]%nat.
Proof.
  assert (Hnd : NoDup ([0; 1] ++ [2])%nat).
  { compute_done. }
  pose proof (preview_keeps_two_after_fade (scenario_session true)
                [0; 1]%nat 2%nat eq_refl eq_refl Hnd)
    as (H1 & _ & _ & H2 & _).
  split; [exact H1 | exact H2].
Defined.

(** * The thumbnail loader *)

Import ThumbnailLoader.

(** ** What each operation leaves alone *)

Lemma update_card_fields (card : nat) (f : Card → Card) (st : Loader) :
  registry (update_card card f st) = registry st ∧
  loadedImages (update_card card f st) = loadedImages st ∧
  loadingImages (update_card card f st) = loadingImages st ∧
  ThumbnailLoader.timers (update_card card f st) = ThumbnailLoader.timers st ∧
  observer (update_card card f st) = observer st ∧
  observe_log (update_card card f st) = observe_log st.
Proof. repeat split. Qed.

Lemma removeLoadingIndicator_fields (card : nat) (st : Loader) :
  registry (removeLoadingIndicator card st) = registry st ∧
  loadedImages (removeLoadingIndicator card st) = loadedImages st ∧
  loadingImages (removeLoadingIndicator card st) = loadingImages st ∧
  ThumbnailLoader.timers (removeLoadingIndicator card st)
    = ThumbnailLoader.timers st ∧
  observer (removeLoadingIndicator card st) = observer st ∧
  observe_log (removeLoadingIndicator card st) = observe_log st.
Proof.
  unfold removeLoadingIndicator. case_match; repeat split.
Qed.

Lemma removeLoadingIndicator_removes (card : nat) (st : Loader) :
  indicator (card_of (removeLoadingIndicator card st) card) = false.
Proof.
  unfold removeLoadingIndicator.
  destruct (indicator (card_of st card)) eqn:E; [| assumption].
  unfold card_of, update_card in *. cbn [page set_page].
  rewrite lookup_alter_eq.
  destruct (page st !! card); [reflexivity | discriminate].
Qed.

Lemma loadCardThumbnails_registry (card : nat) (st : Loader) :
  registry (loadCardThumbnails card st) = registry st.
Proof. unfold loadCardThumbnails. case_match; reflexivity. Qed.

Lemma unobserve_registry (card : nat) (st : Loader) :
  registry (unobserve card st) = registry st.
Proof. unfold unobserve. case_match; reflexivity. Qed.

Lemma handleIntersection_registry (entries : list (nat * bool)) (st : Loader) :
  registry (handleIntersection entries st) = registry st.
Proof.
  unfold handleIntersection. revert st.
  induction entries as [|[card b] entries IH]; intros st; [reflexivity |].
  cbn [foldl]. rewrite IH. destruct b; cbn [fst snd]; [| reflexivity].
  now rewrite unobserve_registry, loadCardThumbnails_registry.
Qed.

Lemma forceLoad_registry (in_viewport : gset nat) (cards : list nat)
    (st : Loader) :
  registry
    (foldl (λ (st : Loader) (card : nat),
              if bool_decide (card ∈ in_viewport)
              then loadCardThumbnails card st else st) st cards)
    = registry st.
Proof.
  revert st. induction cards as [|card cards IH]; intros st; [reflexivity |].
  cbn [foldl]. rewrite IH. case_match; [| reflexivity].
  apply loadCardThumbnails_registry.
Qed.

Lemma settle_registry (card : nat) (promises : list (nat * string))
    (results : list Settlement) (st : Loader) :
  registry (settle card promises results st) = registry st.
Proof.
  revert results st.
  induction promises as [|[index src0] promises IH]; intros results st;
    [reflexivity |].
  destruct results as [|[|] results]; cbn [settle]; [reflexivity | |];
    now rewrite IH.
Qed.


(** ** The retry bookkeeping *)



(** [scheduleRetry] below the maximum: the count of the name goes up by
    one and a timer is set, with the delay of that retry number. *)
Lemma scheduleRetry_below (card : nat) (st : Loader) :
  (retry_count (cardName st card) st < maxRetries)%nat →
  retryAttempts (scheduleRetry card st)
    = <[cardName st card := S (retry_count (cardName st card) st)]>
        (retryAttempts st) ∧
  ThumbnailLoader.timers (scheduleRetry card st)
    = ThumbnailLoader.timers st
        ++ [(backoff (S (retry_count (cardName st card) st)), RetryLoad card)] ∧
  retry_log (scheduleRetry card st)
    = retry_log st
        ++ [(cardName st card, backoff (S (retry_count (cardName st card) st)))] ∧
  page (scheduleRetry card st) = page st.
Proof.
  intros H. unfold scheduleRetry. fold (retry_count (cardName st card) st).
  apply Nat.ltb_lt in H. rewrite H. cbn.
  rewrite Nat.add_1_r. repeat split.
Qed.







(** *** Load attempts made by retry timers *)














Lemma filter_filter_and {A : Type} (p q : A → bool) (l : list A) :
  List.filter p (List.filter q l) = List.filter (λ x, q x && p x)%bool l.
Proof.
  induction l as [|x l IH]; [reflexivity |].
  cbn [List.filter]. destruct (q x); cbn [List.filter andb];
    [destruct (p x) |]; now rewrite IH.
Qed.


Lemma filter_delete_length {A : Type} (p : A → bool) (l : list A)
    (k : nat) (x : A) :
  l !! k = Some x →
  (length (List.filter p (delete k l)) + (if p x then 1 else 0)
   = length (List.filter p l))%nat.
Proof.
  revert k. induction l as [|y l IH]; intros k Hk; [discriminate |].
  destruct k as [|k]; cbn in Hk.
  - injection Hk as ->. change (delete 0%nat (x :: l)) with l.
    cbn [List.filter]. destruct (p x); cbn [length]; lia.
  - change (delete (S k) (y :: l)) with (y :: delete k l).
    specialize (IH k Hk). cbn [List.filter].
    destruct (p y); cbn [length]; lia.
Qed.



(** *** Loads started for a list of cards *)

Lemma fmap_pointwise {A B : Type} (f g : A → B) (l : list A) :
  (∀ x : A, f x = g x) → f <$> l = g <$> l.
Proof.
  intros H. induction l as [|x l IH]; [reflexivity |].
  cbn. now rewrite H, IH.
Qed.

Lemma waiting_call_page (st st' : Loader) (card : nat) :
  page st' = page st →
  cardName st' card = cardName st card ∧
  waiting_call st' card = waiting_call st card.
Proof.
  intros H. unfold waiting_call, cardName, card_of. now rewrite H.
Qed.

Lemma flight_known (st st' : Loader) (name : string) :
  flight st' = flight st → known name st' ↔ known name st.
Proof.
  unfold flight, known. intros H. injection H as Hl Hg _.
  now rewrite Hl, Hg.
Qed.

(** A call of [loadCardThumbnails] returns at the guard, or it reaches the
    [await] with the name of the card marked as loading. *)
Lemma loadCardThumbnails_cases (card : nat) (st : Loader) :
  (known (cardName st card) st ∧ loadCardThumbnails card st = st) ∨
  (¬ known (cardName st card) st ∧
   loadCardThumbnails card st
   = set_awaiting (awaiting st ++ [waiting_call st card])
       (set_loadingImages ({[cardName st card]} ∪ loadingImages st) st)).
Proof.
  unfold known, loadCardThumbnails.
  destruct (decide (cardName st card ∈ loadedImages st)) as [Hl | Hl].
  { left. split; [now left |]. now rewrite bool_decide_eq_true_2. }
  destruct (decide (cardName st card ∈ loadingImages st)) as [Hg | Hg].
  { left. split; [now right |].
    rewrite (bool_decide_eq_true_2 _ Hg). now rewrite orb_true_r. }
  right. split; [intros [H | H]; contradiction |].
  now rewrite (bool_decide_eq_false_2 _ Hl), (bool_decide_eq_false_2 _ Hg).
Qed.

Section Loads.

(** What is done for a card after the call of [loadCardThumbnails]; it
    touches neither the loads in flight nor the cards. *)
Variable post : nat → Loader → Loader.
Hypothesis post_flight : ∀ (card : nat) (st : Loader),
  flight (post card st) = flight st.
Hypothesis post_page : ∀ (card : nat) (st : Loader),
  page (post card st) = page st.

(** [loadCardThumbnails] called on a list of cards, one after the other:
    the calls that reach the [await] are those of the cards [new]. A name
    that was loaded or loading gets no call; any other name of a card of
    the list gets exactly one call, whatever the number of cards of the
    list that carry it. *)
Lemma load_each_spec (cards : list nat) (st : Loader) :
  ∃ new : list nat,
    awaiting (foldl (λ st card, post card (loadCardThumbnails card st)) st cards)
    = awaiting st ++ (waiting_call st <$> new) ∧
    (∀ name : string,
       name ∈ loadingImages
                (foldl (λ st card, post card (loadCardThumbnails card st))
                   st cards)
       ↔ name ∈ loadingImages st ∨ name ∈ cardName st <$> new) ∧
    loadedImages (foldl (λ st card, post card (loadCardThumbnails card st))
                    st cards)
    = loadedImages st ∧
    page (foldl (λ st card, post card (loadCardThumbnails card st)) st cards)
    = page st ∧
    NoDup (cardName st <$> new) ∧
    (∀ card : nat,
       card ∈ new → card ∈ cards ∧ ¬ known (cardName st card) st) ∧
    (∀ card : nat,
       card ∈ cards → ¬ known (cardName st card) st →
       cardName st card ∈ cardName st <$> new).
Proof.
  revert st. induction cards as [|card rest IH]; intros st.
  { exists []. cbn [foldl fmap list_fmap]. rewrite app_nil_r.
    split; [reflexivity |]. split.
    { intros name. split; [now left |].
      intros [H | H]; [exact H | now apply elem_of_nil in H]. }
    split; [reflexivity |]. split; [reflexivity |].
    split; [constructor |]. split.
    - intros card H. now apply elem_of_nil in H.
    - intros card H. now apply elem_of_nil in H. }
  cbn [foldl].
  set (st1 := post card (loadCardThumbnails card st)).
  destruct (IH st1)
    as (new1 & Ha & Hg & Hl & Hp & Hnd & Hmem & Hcov).
  destruct (loadCardThumbnails_cases card st) as [[Hk Heq] | [Hk Heq]].
  - (* the call returns at the guard *)
    assert (Hf1 : flight st1 = flight st)
      by (subst st1; now rewrite post_flight, Heq).
    assert (Hp1 : page st1 = page st)
      by (subst st1; now rewrite post_page, Heq).
    assert (Hname : ∀ c : nat, cardName st1 c = cardName st c)
      by (intros c; apply (waiting_call_page st st1 c Hp1)).
    assert (Hcall : ∀ c : nat, waiting_call st1 c = waiting_call st c)
      by (intros c; apply (waiting_call_page st st1 c Hp1)).
    rewrite (fmap_pointwise _ _ new1 Hname) in Hg, Hnd, Hcov.
    rewrite (fmap_pointwise _ _ new1 Hcall) in Ha.
    unfold flight in Hf1. injection Hf1 as Hl1 Hg1 Ha1.
    exists new1. split; [now rewrite Ha, Ha1 |]. split.
    { intros name. now rewrite Hg, Hg1. }
    split; [now rewrite Hl, Hl1 |]. split; [now rewrite Hp, Hp1 |].
    split; [exact Hnd |]. split.
    + intros c Hc. destruct (Hmem c Hc) as [Hin Hn]. rewrite Hname in Hn.
      split; [now apply elem_of_cons; right |].
      intros H. apply Hn. unfold known in *. now rewrite Hl1, Hg1.
    + intros c Hc Hn. apply elem_of_cons in Hc as [-> | Hc]; [contradiction |].
      rewrite <- (Hname c). apply Hcov; [exact Hc |].
      rewrite Hname. intros H. apply Hn. unfold known in *.
      now rewrite <- Hl1, <- Hg1.
  - (* the call reaches the await *)
    assert (Hst1 : awaiting st1 = awaiting st ++ [waiting_call st card] ∧
                   loadingImages st1 = {[cardName st card]} ∪ loadingImages st ∧
                   loadedImages st1 = loadedImages st).
    { pose proof (post_flight card (loadCardThumbnails card st)) as Hf.
      fold st1 in Hf. rewrite Heq in Hf. unfold flight in Hf.
      injection Hf as H1 H2 H3. now repeat split. }
    destruct Hst1 as (Ha1 & Hg1 & Hl1).
    assert (Hp1 : page st1 = page st)
      by (subst st1; now rewrite post_page, Heq).
    assert (Hname : ∀ c : nat, cardName st1 c = cardName st c)
      by (intros c; apply (waiting_call_page st st1 c Hp1)).
    assert (Hcall : ∀ c : nat, waiting_call st1 c = waiting_call st c)
      by (intros c; apply (waiting_call_page st st1 c Hp1)).
    rewrite (fmap_pointwise _ _ new1 Hname) in Hg, Hnd, Hcov.
    rewrite (fmap_pointwise _ _ new1 Hcall) in Ha.
    assert (Hk1 : ∀ name : string,
              known name st1 ↔ known name st ∨ name = cardName st card).
    { intros name. unfold known. rewrite Hl1, Hg1, elem_of_union,
        elem_of_singleton. tauto. }
    exists (card :: new1). cbn [fmap list_fmap].
    split; [now rewrite Ha, Ha1, <- app_assoc |]. split.
    { intros name. rewrite Hg, Hg1, elem_of_union, elem_of_singleton,
        elem_of_cons. tauto. }
    split; [now rewrite Hl, Hl1 |]. split; [now rewrite Hp, Hp1 |].
    split.
    { apply NoDup_cons. split; [| exact Hnd].
      intros Hin. apply list_elem_of_fmap in Hin as (c & Hc & Hin).
      destruct (Hmem c Hin) as [_ Hn]. apply Hn. rewrite Hname.
      apply Hk1. now right. }
    split.
    + intros c Hc. apply elem_of_cons in Hc as [-> | Hc].
      * split; [now apply elem_of_cons; left | exact Hk].
      * destruct (Hmem c Hc) as [Hin Hn]. rewrite Hname in Hn.
        split; [now apply elem_of_cons; right |].
        intros H. apply Hn, Hk1. now left.
    + intros c Hc Hn.
      destruct (decide (cardName st c = cardName st card)) as [He | Hne].
      { apply elem_of_cons. now left. }
      apply elem_of_cons. right.
      apply elem_of_cons in Hc as [-> | Hc]; [done |].
      rewrite <- (Hname c). apply Hcov; [exact Hc |].
      rewrite Hname. intros H. apply Hk1 in H as [H | H]; contradiction.
Qed.

End Loads.

Lemma unobserve_keeps (card : nat) (st : Loader) :
  flight (unobserve card st) = flight st ∧
  page (unobserve card st) = page st.
Proof. unfold unobserve. now case_match. Qed.

Lemma handleIntersection_fold (entries : list (nat * bool)) (st : Loader) :
  handleIntersection entries st
  = foldl (λ st card, unobserve card (loadCardThumbnails card st)) st
      (intersecting entries).
Proof.
  unfold handleIntersection, intersecting. revert st.
  induction entries as [|[card b] entries IH]; intros st; [reflexivity |].
  cbn [foldl List.filter fst snd]. destruct b; cbn [fmap list_fmap foldl fst];
    apply IH.
Qed.

Lemma forceLoadAllVisible_fold (in_viewport : gset nat) (st : Loader) :
  forceLoadAllVisible in_viewport st
  = foldl (λ st card, (λ (_ : nat) (st : Loader), st) card
                        (loadCardThumbnails card st)) st
      (visible_cards in_viewport st).
Proof.
  unfold forceLoadAllVisible, visible_cards.
  generalize (observedCards st). intros cards. revert st.
  induction cards as [|card cards IH]; intros st; [reflexivity |].
  cbn [foldl List.filter]. destruct (bool_decide (card ∈ in_viewport));
    cbn [foldl]; apply IH.
Qed.

(** *** The load attempts of a card *)














(** ** Loading the thumbnails of a card *)

(** Whatever the image loads do, the call that waited for them marks the
    card loaded and removes its indicator; it sets no retry. *)
Lemma settled_loads_mark_card_loaded (call : Suspended)
    (results : list Settlement) (st : Loader) :
  s_cardName call ∈
    loadedImages (loadCardThumbnails_resume call (Promise_allSettled results) st) ∧
  indicator
    (card_of (loadCardThumbnails_resume call (Promise_allSettled results) st)
       (s_card call)) = false ∧
  registry (loadCardThumbnails_resume call (Promise_allSettled results) st)
    = registry st ∧
  ThumbnailLoader.timers
    (loadCardThumbnails_resume call (Promise_allSettled results) st)
    = ThumbnailLoader.timers st.
Proof.
  unfold loadCardThumbnails_resume, Promise_allSettled.
  set (st1 := set_loadedImages ({[s_cardName call]} ∪ loadedImages st) st).
  pose proof (removeLoadingIndicator_fields (s_card call) st1)
    as (Hr & Hl & _ & Ht & _).
  repeat split.
  - cbn [loadedImages set_loadingImages]. rewrite Hl. cbn.
    apply elem_of_union. left. now apply elem_of_singleton.
  - apply removeLoadingIndicator_removes.
  - unfold registry in *. cbn [observedCards retryAttempts retry_log
      set_loadingImages]. exact Hr.
  - cbn [ThumbnailLoader.timers set_loadingImages]. exact Ht.
Qed.

(** C2, on the code: card 0 of the scenario page is tracked, enters the
    viewport, and its only image fails to load. [Promise.allSettled] hides
    the failure: the card is marked loaded, its indicator is removed, the
    image keeps the placeholder, [scheduleRetry] is not called (no timer,
    no retry count), and later calls of [loadCardThumbnails] for the card
    return at once, so that the load is never tried again. *)
Theorem failed_loads_mark_card_loaded :
  indicator
    (card_of (ThumbnailLoader.run scenario_loader
                [ProcessCard 0%nat; Intersection [(0%nat, true)]]) 0%nat)
    = true ∧
  s_promises <$>
    awaiting (ThumbnailLoader.run scenario_loader
                [ProcessCard 0%nat; Intersection [(0%nat, true)]])
    = [[(0%nat, "http://host/sd_extra_networks/thumb?filename=a.png")]] ∧
  loadedImages
    (ThumbnailLoader.run scenario_loader
       [ProcessCard 0%nat; Intersection [(0%nat, true)];
        ThumbnailsSettled 0%nat [Rejected]]) = {["model-a"]} ∧
  indicator
    (card_of (ThumbnailLoader.run scenario_loader
                [ProcessCard 0%nat; Intersection [(0%nat, true)];
                 ThumbnailsSettled 0%nat [Rejected]]) 0%nat) = false ∧
  src <$> images
    (card_of (ThumbnailLoader.run scenario_loader
                [ProcessCard 0%nat; Intersection [(0%nat, true)];
                 ThumbnailsSettled 0%nat [Rejected]]) 0%nat)
    = [getPlaceholderDataURL] ∧
  ThumbnailLoader.timers
    (ThumbnailLoader.run scenario_loader
       [ProcessCard 0%nat; Intersection [(0%nat, true)];
        ThumbnailsSettled 0%nat [Rejected]]) = [] ∧
  retryAttempts
    (ThumbnailLoader.run scenario_loader
       [ProcessCard 0%nat; Intersection [(0%nat, true)];
        ThumbnailsSettled 0%nat [Rejected]]) = ∅ ∧
  loadCardThumbnails 0%nat
    (ThumbnailLoader.run scenario_loader
       [ProcessCard 0%nat; Intersection [(0%nat, true)];
        ThumbnailsSettled 0%nat [Rejected]])
  = ThumbnailLoader.run scenario_loader
      [ProcessCard 0%nat; Intersection [(0%nat, true)];
       ThumbnailsSettled 0%nat [Rejected]].
Proof.
  repeat (apply conj; [vm_compute; reflexivity |]). vm_compute; reflexivity.
Qed.

(** ** Registration of a card *)

Lemma registry_observedCards (st st' : Loader) :
  registry st' = registry st → observedCards st' = observedCards st.
Proof. unfold registry. intros Heq. now injection Heq. Qed.

Lemma scheduleRetry_observedCards (card : nat) (st : Loader) :
  observedCards (scheduleRetry card st) = observedCards st.
Proof.
  unfold scheduleRetry. case_match; [reflexivity |].
  apply registry_observedCards, removeLoadingIndicator_fields.
Qed.

Lemma loadCardThumbnails_resume_observedCards (call : Suspended)
    (a : Awaited) (st : Loader) :
  observedCards (loadCardThumbnails_resume call a st) = observedCards st.
Proof.
  unfold loadCardThumbnails_resume. cbn [observedCards set_loadingImages].
  destruct a as [results|].
  - apply (registry_observedCards st).
    now rewrite (proj1 (removeLoadingIndicator_fields _ _)).
  - apply scheduleRetry_observedCards.
Qed.

Lemma processCard_observedCards (card : nat) (st : Loader) :
  observedCards (snd (processCard card st)) = observedCards st ∨
  observedCards (snd (processCard card st)) = observedCards st ++ [card].
Proof.
  unfold processCard, addLoadingIndicator, Set_add.
  repeat case_match; cbn; auto.
Qed.

(** No event takes a card out of the tracked cards. *)
Lemma step_observedCards (st : Loader) (e : Event) (card : nat) :
  card ∈ observedCards st → card ∈ observedCards (ThumbnailLoader.step st e).
Proof.
  intros Hin.
  destruct e as [card'|entries|in_viewport|card' results|card'|k];
    cbn [ThumbnailLoader.step].
  - destruct (processCard_observedCards card' st) as [-> | ->];
      [assumption | apply elem_of_app; now left].
  - now rewrite (registry_observedCards _ _ (handleIntersection_registry _ _)).
  - unfold forceLoadAllVisible.
    now rewrite (registry_observedCards _ _ (forceLoad_registry _ _ _)).
  - destruct (resume_call card' (awaiting st)) as [[call calls]|];
      [| assumption].
    case_match; [| assumption].
    rewrite loadCardThumbnails_resume_observedCards.
    now rewrite (registry_observedCards _ _ (settle_registry _ _ _ _)).
  - destruct (resume_call card' (awaiting st)) as [[call calls]|];
      [| assumption].
    now rewrite loadCardThumbnails_resume_observedCards.
  - destruct (ThumbnailLoader.timers st !! k) as [[d f]|]; [| assumption].
    destruct f as [card' | card' index src0]; cbn [run_timer].
    + now rewrite (registry_observedCards _ _ (loadCardThumbnails_registry _ _)).
    + assumption.
Qed.

Lemma run_observedCards (es : list Event) (st : Loader) (card : nat) :
  card ∈ observedCards st → card ∈ observedCards (ThumbnailLoader.run st es).
Proof.
  revert st. induction es as [|e es IH]; intros st Hin; [assumption |].
  apply IH, step_observedCards, Hin.
Qed.

Lemma processCard_tracked (card : nat) (st : Loader) :
  card ∈ observedCards st → processCard card st = (Returned false, st).
Proof.
  intros Hin. unfold processCard. now rewrite bool_decide_eq_true_2.
Qed.

(** C9: a call of [processCard] that returns true has found the card
    untracked; it adds the card, and nothing else, to [observedCards] and
    calls [observer.observe] once, on the card. From then on, and whatever
    happens to the loader in between, a call of [processCard] on the same
    card returns false and changes nothing. *)
Theorem processCard_idempotent
    (st st1 : Loader) (card : nat) (es : list Event) :
  processCard card st = (Returned true, st1) →
  (card ∉ observedCards st) ∧
  observedCards st1 = observedCards st ++ [card] ∧
  length (observedCards st1) = S (length (observedCards st)) ∧
  observe_log st1 = observe_log st ++ [card] ∧
  (∃ targets : gset nat,
     observer st = Some targets ∧ observer st1 = Some ({[card]} ∪ targets)) ∧
  processCard card st1 = (Returned false, st1) ∧
  processCard card (ThumbnailLoader.run st1 es)
    = (Returned false, ThumbnailLoader.run st1 es).
Proof.
  intros H.
  assert (Hfirst : (card ∉ observedCards st) ∧
                   observedCards st1 = observedCards st ++ [card] ∧
                   observe_log st1 = observe_log st ++ [card] ∧
                   ∃ targets : gset nat,
                     observer st = Some targets ∧
                     observer st1 = Some ({[card]} ∪ targets)).
  { unfold processCard, addLoadingIndicator, Set_add in H.
    destruct (bool_decide (card ∈ observedCards st)) eqn:Hin;
      [discriminate |].
    apply bool_decide_eq_false in Hin.
    destruct (length (findThumbnailImages (card_of st card)) =? 0)%nat;
      [discriminate |].
    cbn in H.
    destruct (indicator _) in H; cbn in H;
      destruct (observer st) as [targets|] eqn:Hobs; try discriminate;
      injection H as <-; cbn; eauto 10. }
  destruct Hfirst as (Hnew & Hcards & Hlog & Hobs).
  assert (Hin : card ∈ observedCards st1).
  { rewrite Hcards. apply elem_of_app. right.
    now apply list_elem_of_singleton. }
  split; [assumption |]. split; [assumption |].
  split; [rewrite Hcards, length_app; cbn; lia |].
  split; [assumption |]. split; [assumption |].
  split; [now apply processCard_tracked |].
  apply processCard_tracked, run_observedCards, Hin.
Qed.

Lemma processCard_idempotent_witness :
  processCard 0%nat
    (ThumbnailLoader.run (snd (processCard 0%nat scenario_loader))
       [Intersection [(0%nat, true)]; ThumbnailsSettled 0%nat [Fulfilled]])
  = (Returned false,
     ThumbnailLoader.run (snd (processCard 0%nat scenario_loader))
       [Intersection [(0%nat, true)]; ThumbnailsSettled 0%nat [Fulfilled]]).
Proof.
  apply (processCard_idempotent scenario_loader
           (snd (processCard 0%nat scenario_loader)) 0%nat
           [Intersection [(0%nat, true)]; ThumbnailsSettled 0%nat [Fulfilled]]).
  reflexivity.
Defined.

(** ** The key of the load state *)

Lemma cardName_unnamed (st : Loader) (card : nat) :
  data_name (card_of st card) = None → cardName st card = "unnamed".
Proof. unfold cardName, name_or_unnamed. now intros ->. Qed.

Lemma loadCardThumbnails_known (card : nat) (st : Loader) :
  cardName st card ∈ loadedImages st ∨ cardName st card ∈ loadingImages st →
  loadCardThumbnails card st = st.
Proof.
  intros H. unfold loadCardThumbnails.
  destruct H as [H | H]; rewrite (bool_decide_eq_true_2 _ H);
    [reflexivity | now rewrite orb_true_r].
Qed.

Lemma loadCardThumbnails_starts (card : nat) (st : Loader) :
  cardName st card ∉ loadedImages st → cardName st card ∉ loadingImages st →
  loadingImages (loadCardThumbnails card st)
    = {[cardName st card]} ∪ loadingImages st ∧
  loadedImages (loadCardThumbnails card st) = loadedImages st ∧
  page (loadCardThumbnails card st) = page st.
Proof.
  intros H1 H2. unfold loadCardThumbnails.
  rewrite (bool_decide_eq_false_2 _ H1), (bool_decide_eq_false_2 _ H2).
  repeat split.
Qed.

(** C10: the load state, the loading state and the retry count are kept
    under the name of the card, not under the element. A card without
    [data-name] has the key "unnamed". For two distinct cards with the
    same name: once the name is in [loadedImages] or in [loadingImages], a
    call of [loadCardThumbnails] on the other card returns at once and
    changes nothing (no image is loaded, the indicator stays); this is the
    case as soon as [loadCardThumbnails] has started on the first card;
    and a retry set for the first card counts for the other one. *)
Theorem load_state_keyed_by_name (st : Loader) (card other : nat) :
  card ≠ other → cardName st card = cardName st other →
  (data_name (card_of st card) = None → cardName st card = "unnamed") ∧
  (cardName st card ∈ loadedImages st ∨ cardName st card ∈ loadingImages st →
   loadCardThumbnails other st = st) ∧
  loadCardThumbnails other (loadCardThumbnails card st)
    = loadCardThumbnails card st ∧
  ((retry_count (cardName st card) st < maxRetries)%nat →
   retry_count (cardName st other) (scheduleRetry card st)
     = S (retry_count (cardName st other) st)).
Proof.
  intros Hne Hname. split; [apply cardName_unnamed |].
  split; [rewrite Hname; apply loadCardThumbnails_known |].
  split.
  - destruct (decide (cardName st card ∈ loadedImages st)) as [Hl | Hl].
    { rewrite (loadCardThumbnails_known card st) by now left.
      apply loadCardThumbnails_known. rewrite <- Hname. now left. }
    destruct (decide (cardName st card ∈ loadingImages st)) as [Hg | Hg].
    { rewrite (loadCardThumbnails_known card st) by now right.
      apply loadCardThumbnails_known. rewrite <- Hname. now right. }
    destruct (loadCardThumbnails_starts card st Hl Hg) as (Hg' & _ & Hp).
    apply loadCardThumbnails_known. right.
    unfold cardName, card_of. rewrite Hp, Hg'.
    fold (card_of st other). fold (cardName st other). rewrite <- Hname.
    apply elem_of_union. left. now apply elem_of_singleton.
  - intros Hlt. destruct (scheduleRetry_below card st Hlt) as (Ha & _).
    rewrite <- Hname. unfold retry_count. rewrite Ha.
    now rewrite lookup_insert_eq.
Qed.

Lemma load_state_keyed_by_name_witness :
  loadCardThumbnails 1%nat
    (ThumbnailLoader.run scenario_loader
       [ProcessCard 0%nat; ProcessCard 1%nat; Intersection [(0%nat, true)]])
  = ThumbnailLoader.run scenario_loader
      [ProcessCard 0%nat; ProcessCard 1%nat; Intersection [(0%nat, true)]] ∧
  cardName scenario_loader 2%nat = "unnamed" ∧
  cardName scenario_loader 3%nat = "unnamed".
Proof.
  assert (H01 : 0%nat ≠ 1%nat) by discriminate.
  assert (H23 : 2%nat ≠ 3%nat) by discriminate.
  split.
  - apply (proj1 (proj2 (load_state_keyed_by_name
             (ThumbnailLoader.run scenario_loader
                [ProcessCard 0%nat; ProcessCard 1%nat;
                 Intersection [(0%nat, true)]])
             0%nat 1%nat H01 eq_refl))).
    right. vm_compute. reflexivity.
  - pose proof (load_state_keyed_by_name scenario_loader 2%nat 3%nat
                  H23 eq_refl) as (Hname & _).
    split; [apply Hname; reflexivity |].
    change (cardName scenario_loader 3%nat)
      with (cardName scenario_loader 2%nat).
    apply Hname. reflexivity.
Defined.

(** * Further properties of the progress reporter *)

(** ** The cleanup runs once *)

Lemma no_cleanup_refl (s : Session) : no_cleanup s s.
Proof. repeat split; auto. Qed.

Lemma no_cleanup_trans (s1 s2 s3 : Session) :
  no_cleanup s1 s2 → no_cleanup s2 s3 → no_cleanup s1 s3.
Proof.
  intros (H1 & H2 & H3 & H4) (K1 & K2 & K3 & K4).
  split; [congruence |]. split; [congruence |]. split; [congruence |]. auto.
Qed.

Lemma setTitle_no_cleanup (cfg : Config) (t : string) (s : Session) :
  no_cleanup s (setTitle cfg t s).
Proof. unfold setTitle. case_match; repeat split; auto. Qed.

Lemma show_progress_no_cleanup (cfg : Config) (res : Response) (s : Session) :
  no_cleanup s (show_progress cfg res s).
Proof.
  unfold show_progress.
  eapply no_cleanup_trans; [| repeat split; auto].
  eapply no_cleanup_trans; [| apply setTitle_no_cleanup].
  repeat split; auto.
Qed.

Lemma img_onload_no_cleanup (img : nat) (s : Session) :
  no_cleanup s (img_onload img s).
Proof.
  unfold img_onload, Progressbar.setTimeout.
  destruct (livePreview s) as [cs|]; cbn -[appendChild Nat.ltb];
    match goal with |- context [appendChild img ?c] =>
      generalize (appendChild img c) end;
    intros kids; (destruct (2 <? length kids)%nat; [destruct kids |]);
    repeat split; auto.
Qed.

Lemma run_callback_no_cleanup (f : Callback) (s : Session) :
  no_cleanup s (run_callback f s).
Proof. destruct f; cbn; repeat case_match; repeat split; auto. Qed.

(** Every event either leaves the cleanup alone or ends with a call of
    [removeProgressBar]. *)
Lemma step_cleanup_shape (cfg : Config) (s : Session) (e : Progressbar.Event) :
  ∃ s' : Session,
    no_cleanup s s' ∧
    (Progressbar.step cfg s e = removeProgressBar cfg s' ∨
     Progressbar.step cfg s e = s').
Proof.
  destruct e as [res now| |res| |img|k]; cbn [Progressbar.step].
  - destruct (answer _ _) as [rs|]; [| exists s; split; [apply no_cleanup_refl | now right]].
    unfold onProgressResponse. destruct (completed res).
    { exists (set_requests rs s). split; [repeat split; auto | now left]. }
    set (s1 := show_progress cfg res (set_requests rs s)).
    assert (H1 : no_cleanup s s1).
    { eapply no_cleanup_trans; [| apply show_progress_no_cleanup].
      repeat split; auto. }
    set (s2 := if active res then set_wasEverActive true s1 else s1).
    assert (H2 : no_cleanup s s2).
    { eapply no_cleanup_trans; [exact H1 |]. subst s2.
      destruct (active res); repeat split; auto. }
    destruct (negb (active res) && wasEverActive s2)%bool;
      [exists s2; split; [exact H2 | now left] |].
    destruct (_ && _ && _)%bool;
      [exists s2; split; [exact H2 | now left] |].
    eexists. split; [| right; reflexivity].
    eapply no_cleanup_trans; [exact H2 |].
    unfold Progressbar.setTimeout. destruct (onProgress cfg);
      repeat split; auto.
  - destruct (answer _ _) as [rs|]; [| exists s; split; [apply no_cleanup_refl | now right]].
    exists (set_requests rs s). split; [repeat split; auto | now left].
  - destruct (answer _ _) as [rs|]; [| exists s; split; [apply no_cleanup_refl | now right]].
    eexists. split; [| right; reflexivity].
    unfold onLivePreviewResponse, new_preview_image, Progressbar.setTimeout.
    repeat case_match; repeat split; auto.
  - destruct (answer _ _) as [rs|]; [| exists s; split; [apply no_cleanup_refl | now right]].
    exists (set_requests rs s). split; [repeat split; auto | now left].
  - case_match; [| exists s; split; [apply no_cleanup_refl | now right]].
    eexists. split; [| right; reflexivity].
    eapply no_cleanup_trans; [| apply img_onload_no_cleanup].
    repeat split; auto.
  - destruct (Progressbar.timers s !! k) as [[d f]|];
      [| exists s; split; [apply no_cleanup_refl | now right]].
    eexists. split; [| right; reflexivity].
    eapply no_cleanup_trans; [| apply run_callback_no_cleanup].
    repeat split; auto.
Qed.

Lemma no_cleanup_once (s s' : Session) :
  no_cleanup s s' → cleaned_up_once s → cleaned_up_once s'.
Proof.
  intros (H1 & H2 & H3 & _) [J1 J2]. unfold cleaned_up_once.
  rewrite H1, H2, H3. now split.
Qed.

Lemma removeProgressBar_once (cfg : Config) (s : Session) :
  cleaned_up_once s → cleaned_up_once (removeProgressBar cfg s).
Proof.
  intros [J1 J2]. destruct (divProgress s) eqn:Hd.
  - destruct (removeProgressBar_cleanup cfg s Hd) as (Hm & _ & He).
    pose proof (removeProgressBar_terminated cfg s) as Ht.
    unfold terminated in Ht. apply negb_true_iff in Ht.
    unfold cleaned_up_once. rewrite Hm, He, Ht, J2. now split.
  - rewrite removeProgressBar_idle by assumption.
    unfold cleaned_up_once. rewrite Hd. now split.
Qed.

Lemma step_cleaned_up_once (cfg : Config) (s : Session) (e : Progressbar.Event) :
  cleaned_up_once s → cleaned_up_once (Progressbar.step cfg s e).
Proof.
  intros J. destruct (step_cleanup_shape cfg s e) as (s' & Hno & [-> | ->]).
  - apply removeProgressBar_once. now apply (no_cleanup_once s).
  - now apply (no_cleanup_once s).
Qed.

(** X1: in every session, whatever the events, the completion callback
    [atEnd] has been called exactly once when the session is terminated and
    not at all before, and the bar is in the document exactly until then. *)
Theorem atEnd_called_exactly_once
    (cfg : Config) (title0 : string) (es : list Progressbar.Event) :
  atEnd_calls (Progressbar.run cfg (requestProgress cfg title0) es)
    = (if terminated (Progressbar.run cfg (requestProgress cfg title0) es)
       then 1 else 0)%nat ∧
  progressbar_mounted (Progressbar.run cfg (requestProgress cfg title0) es)
    = negb (terminated (Progressbar.run cfg (requestProgress cfg title0) es)).
Proof.
  assert (J : cleaned_up_once
                (Progressbar.run cfg (requestProgress cfg title0) es)).
  { unfold Progressbar.run.
    assert (J0 : cleaned_up_once (requestProgress cfg title0))
      by (unfold requestProgress; destruct (gallery cfg); now split).
    revert J0. generalize (requestProgress cfg title0).
    induction es as [|e es IH]; intros s J0; [exact J0 |].
    apply IH, step_cleaned_up_once, J0. }
  destruct J as [J1 J2]. unfold terminated.
  rewrite J1, J2, negb_involutive.
  now destruct (divProgress _).
Qed.

(** X2: the cleanup takes the preview div out of the gallery if it exists
    at that time; but an image that finishes loading after the cleanup,
    when no preview div exists yet, creates the div and puts it into the
    gallery, where it stays whatever happens afterwards. *)
Theorem late_preview_stays_in_gallery
    (cfg : Config) (s : Session) (img : nat) (es : list Progressbar.Event) :
  (divProgress s = true → gallery cfg = true → is_Some (livePreview s) →
   preview_mounted (removeProgressBar cfg s) = false) ∧
  (terminated s = true → livePreview s = None → img ∈ images_loading s →
   terminated
     (Progressbar.run cfg (Progressbar.step cfg s (ImageLoaded img)) es) = true ∧
   preview_mounted
     (Progressbar.run cfg (Progressbar.step cfg s (ImageLoaded img)) es) = true).
Proof.
  split.
  - intros Hd Hg Hl. unfold removeProgressBar. rewrite Hd, Hg. cbn [negb andb].
    pose proof (setTitle_fields cfg "" s) as (_ & _ & Hlp & _).
    cbn [livePreview set_progressbar_mounted]. rewrite Hlp.
    now rewrite bool_decide_eq_true_2.
  - intros Ht Hnone Himg.
    set (s1 := Progressbar.step cfg s (ImageLoaded img)).
    assert (H1 : terminated s1 = true ∧ preview_mounted s1 = true).
    { split; [now apply step_terminated |].
      subst s1. cbn [Progressbar.step].
      rewrite bool_decide_eq_true_2 by assumption.
      unfold img_onload, Progressbar.setTimeout.
      cbn [livePreview set_images_loading]. rewrite Hnone.
      cbn -[appendChild Nat.ltb].
      match goal with |- context [appendChild img ?c] =>
        generalize (appendChild img c) end.
      intros kids. now (destruct (2 <? length kids)%nat; [destruct kids |]). }
    clearbody s1. revert s1 H1.
    induction es as [|e es IH]; intros s1 [Ht1 Hp1]; [now split |].
    apply IH. split; [now apply step_terminated |].
    destruct (step_cleanup_shape cfg s1 e) as (s' & (Hd & _ & _ & Hp) & [-> | ->]).
    + rewrite removeProgressBar_idle; [now apply Hp |].
      unfold terminated in Ht1. apply negb_true_iff in Ht1. congruence.
    + now apply Hp.
Qed.

Lemma late_preview_stays_in_gallery_witness :
  preview_mounted
    (Progressbar.run (scenario_config true)
       (Progressbar.step (scenario_config true)
          (Progressbar.run (scenario_config true) (scenario_session true)
             [LivePreviewResponse
                (scenario_response false true (Some (1 # 2)) (Some "preview-a"));
              ProgressResponse (scenario_response true false None None) 1000])
          (ImageLoaded 0))
       [Progressbar.TimerFired 0%nat]) = true.
Proof.
  apply (late_preview_stays_in_gallery (scenario_config true)
           (Progressbar.run (scenario_config true) (scenario_session true)
              [LivePreviewResponse
                 (scenario_response false true (Some (1 # 2)) (Some "preview-a"));
               ProgressResponse (scenario_response true false None None) 1000])
           0%nat [Progressbar.TimerFired 0%nat]).
  - reflexivity.
  - reflexivity.
  - vm_compute. apply list_elem_of_singleton. reflexivity.
Defined.

(** ** The cycles of the two loops *)

Lemma answer_counts (kind other : Request → bool) (rs rs' : list Request) :
  (∀ r : Request, kind r = true → other r = false) →
  answer kind rs = Some rs' →
  length (List.filter kind rs) = S (length (List.filter kind rs')) ∧
  length (List.filter other rs') = length (List.filter other rs).
Proof.
  intros Hko. revert rs'.
  induction rs as [|r rs IH]; intros rs' H; [discriminate |].
  cbn [answer] in H. destruct (kind r) eqn:Hk.
  - injection H as <-. cbn [List.filter]. rewrite Hk, (Hko r Hk). now split.
  - destruct (answer kind rs) as [rest|]; [| discriminate].
    injection H as <-. destruct (IH rest eq_refl) as [IH1 IH2].
    cbn [List.filter]. rewrite Hk.
    destruct (other r); cbn [length]; split; lia.
Qed.

Lemma progress_not_preview (r : Request) :
  is_progress_request r = true → is_preview_request r = false.
Proof. unfold is_preview_request. now intros ->. Qed.

Lemma preview_not_progress (r : Request) :
  is_preview_request r = true → is_progress_request r = false.
Proof. unfold is_preview_request. now destruct (is_progress_request r). Qed.

(** The timers that the handlers of the two loops set. *)
Lemma onProgressResponse_timers
    (cfg : Config) (res : Response) (now : Z) (s : Session) :
  requests (snd (onProgressResponse cfg res now s)) = requests s ∧
  (Progressbar.timers (snd (onProgressResponse cfg res now s))
     = Progressbar.timers s ∨
   Progressbar.timers (snd (onProgressResponse cfg res now s))
     = Progressbar.timers s
       ++ [(getSmartRefreshRate (num_or (progress res) 0) (active res),
            CallFunProgress)]).
Proof.
  unfold onProgressResponse.
  pose proof (removeProgressBar_fields cfg s) as (_ & _ & Ht0 & Hr0).
  destruct (completed res); [cbn [snd]; split; [exact Hr0 | now left] |].
  pose proof (show_progress_fields cfg res s) as (_ & _ & _ & Ht & Hr & _).
  remember (show_progress cfg res s) as s1 eqn:Es1. clear Es1.
  set (s2 := if active res then set_wasEverActive true s1 else s1).
  assert (H2 : Progressbar.timers s2 = Progressbar.timers s
               ∧ requests s2 = requests s)
    by (subst s2; destruct (active res); now split).
  destruct H2 as [Ht2 Hr2].
  pose proof (removeProgressBar_fields cfg s2) as (_ & _ & Ht3 & Hr3).
  destruct (negb (active res) && wasEverActive s2)%bool;
    [cbn [snd]; split; [congruence | left; congruence] |].
  destruct (_ && _ && _)%bool;
    [cbn [snd]; split; [congruence | left; congruence] |].
  cbn [snd]. unfold Progressbar.setTimeout.
  destruct (onProgress cfg); cbn; rewrite Ht2, ?Hr2; split; auto.
Qed.

Lemma onLivePreviewResponse_timers
    (cfg : Config) (res : Response) (s : Session) :
  requests (onLivePreviewResponse cfg res s) = requests s ∧
  (Progressbar.timers (onLivePreviewResponse cfg res s) = Progressbar.timers s ∨
   Progressbar.timers (onLivePreviewResponse cfg res s)
     = Progressbar.timers s
       ++ [(getSmartRefreshRate (num_or (progress res) 0) (active res),
            CallFunLivePreview (id_live_preview res))]).
Proof.
  unfold onLivePreviewResponse, new_preview_image, Progressbar.setTimeout.
  repeat case_match; cbn; split; auto.
Qed.

Lemma img_onload_timers (img : nat) (s : Session) :
  requests (img_onload img s) = requests s ∧
  ∃ fades : list (Z * Callback),
    Progressbar.timers (img_onload img s) = Progressbar.timers s ++ fades ∧
    List.filter is_poll fades = [].
Proof.
  unfold img_onload, Progressbar.setTimeout.
  destruct (livePreview s) as [cs|]; cbn -[appendChild Nat.ltb];
    match goal with |- context [appendChild img ?c] =>
      generalize (appendChild img c) end;
    intros kids; (destruct (2 <? length kids)%nat; [destruct kids |]);
    cbn; (split; [reflexivity |]);
    rewrite <- ?app_assoc; eexists; (split; [reflexivity |]); reflexivity.
Qed.

Lemma poll_kinds (t : Z * Callback) :
  is_progress_poll t = (is_poll t && is_progress_poll t)%bool ∧
  is_preview_poll t = (is_poll t && is_preview_poll t)%bool.
Proof.
  unfold is_progress_poll, is_preview_poll, is_poll.
  now destruct (snd t).
Qed.

Lemma filter_no_poll (p : Z * Callback → bool) (l : list (Z * Callback)) :
  (∀ t, p t = (is_poll t && p t)%bool) →
  List.filter is_poll l = [] → List.filter p l = [].
Proof.
  intros Hp H. rewrite (List.filter_ext _ _ Hp), <- filter_filter_and.
  now rewrite H.
Qed.

(** No event adds a cycle to a loop: a response or a failure takes the
    request of its loop away and sets at most the timer of the next poll of
    that loop; a poll timer that fires is replaced by its request. *)
Lemma step_cycles (cfg : Config) (s : Session) (e : Progressbar.Event) :
  (progress_cycles (Progressbar.step cfg s e) <= progress_cycles s)%nat ∧
  (preview_cycles (Progressbar.step cfg s e) <= preview_cycles s)%nat.
Proof.
  unfold progress_cycles, preview_cycles.
  destruct e as [res now| |res| |img|k]; cbn [Progressbar.step].
  - destruct (answer _ _) as [rs|] eqn:Ha; [| lia].
    destruct (answer_counts _ _ _ _ progress_not_preview Ha) as [H1 H2].
    destruct (onProgressResponse_timers cfg res now (set_requests rs s))
      as [Hr [Ht | Ht]]; rewrite Hr, Ht; cbn [requests set_requests
        Progressbar.timers Progressbar.set_timers]; rewrite ?List.filter_app, ?length_app;
      cbn [List.filter is_progress_poll is_preview_poll snd length]; lia.
  - destruct (answer _ _) as [rs|] eqn:Ha; [| lia].
    destruct (answer_counts _ _ _ _ progress_not_preview Ha) as [H1 H2].
    unfold onProgressError.
    destruct (removeProgressBar_fields cfg (set_requests rs s))
      as (_ & _ & -> & ->). cbn [requests set_requests Progressbar.timers]. lia.
  - destruct (answer _ _) as [rs|] eqn:Ha; [| lia].
    destruct (answer_counts _ _ _ _ preview_not_progress Ha) as [H1 H2].
    destruct (onLivePreviewResponse_timers cfg res (set_requests rs s))
      as [Hr [Ht | Ht]]; rewrite Hr, Ht; cbn [requests set_requests
        Progressbar.timers Progressbar.set_timers]; rewrite ?List.filter_app, ?length_app;
      cbn [List.filter is_progress_poll is_preview_poll snd length]; lia.
  - destruct (answer _ _) as [rs|] eqn:Ha; [| lia].
    destruct (answer_counts _ _ _ _ preview_not_progress Ha) as [H1 H2].
    unfold onLivePreviewError.
    destruct (removeProgressBar_fields cfg (set_requests rs s))
      as (_ & _ & -> & ->). cbn [requests set_requests Progressbar.timers]. lia.
  - case_match; [| lia].
    destruct (img_onload_timers img
                (set_images_loading
                   (filter (λ y : nat, y ≠ img) (images_loading s)) s))
      as (Hr & fades & Ht & Hf).
    rewrite Hr, Ht. cbn [requests set_images_loading Progressbar.timers].
    rewrite !List.filter_app, !length_app.
    rewrite (filter_no_poll is_progress_poll fades
               (λ t, proj1 (poll_kinds t)) Hf).
    rewrite (filter_no_poll is_preview_poll fades
               (λ t, proj2 (poll_kinds t)) Hf).
    cbn [length]. lia.
  - destruct (Progressbar.timers s !! k) as [[d f]|] eqn:Hk; [| lia].
    pose proof (filter_delete_length is_progress_poll _ _ _ Hk) as H1.
    pose proof (filter_delete_length is_preview_poll _ _ _ Hk) as H2.
    destruct f as [|id|img|img]; cbn [run_callback funProgress funLivePreview
      request requests set_requests Progressbar.timers Progressbar.set_timers
      set_image_opacity];
      cbn [is_progress_poll is_preview_poll snd] in H1, H2;
      rewrite ?List.filter_app, ?length_app;
      cbn [List.filter is_progress_request is_preview_request negb length];
      try lia.
    destruct (livePreview _); [case_match |]; cbn [requests set_livePreview
      Progressbar.timers Progressbar.set_timers]; lia.
Qed.

(** X3: in every session, whatever the events, each loop has at most one
    cycle under way (a request in flight or the timer of its next poll
    pending), the live-preview loop none at all without a gallery; and a
    loop that has no cycle under way never starts one again. *)
Theorem one_cycle_per_loop
    (cfg : Config) (title0 : string) (es es' : list Progressbar.Event) :
  (progress_cycles (Progressbar.run cfg (requestProgress cfg title0) es)
   <= 1)%nat ∧
  (preview_cycles (Progressbar.run cfg (requestProgress cfg title0) es)
   <= (if gallery cfg then 1 else 0))%nat ∧
  (progress_cycles (Progressbar.run cfg (requestProgress cfg title0) es)
   = 0%nat →
   progress_cycles
     (Progressbar.run cfg
        (Progressbar.run cfg (requestProgress cfg title0) es) es') = 0%nat) ∧
  (preview_cycles (Progressbar.run cfg (requestProgress cfg title0) es)
   = 0%nat →
   preview_cycles
     (Progressbar.run cfg
        (Progressbar.run cfg (requestProgress cfg title0) es) es') = 0%nat).
Proof.
  assert (Hrun : ∀ (l : list Progressbar.Event) (s : Session),
            (progress_cycles (Progressbar.run cfg s l) <= progress_cycles s)%nat ∧
            (preview_cycles (Progressbar.run cfg s l) <= preview_cycles s)%nat).
  { induction l as [|e l IH]; intros s; [split; reflexivity |].
    destruct (step_cycles cfg s e) as [H1 H2].
    destruct (IH (Progressbar.step cfg s e)) as [H3 H4].
    split; [exact (Nat.le_trans _ _ _ H3 H1) | exact (Nat.le_trans _ _ _ H4 H2)]. }
  destruct (Hrun es (requestProgress cfg title0)) as [H1 H2].
  destruct (Hrun es' (Progressbar.run cfg (requestProgress cfg title0) es))
    as [H3 H4].
  assert (H0 : progress_cycles (requestProgress cfg title0) = 1%nat ∧
               preview_cycles (requestProgress cfg title0)
               = (if gallery cfg then 1 else 0)%nat)
    by (unfold requestProgress; destruct (gallery cfg); now split).
  destruct H0 as [H01 H02]. rewrite H01 in H1. rewrite H02 in H2.
  split; [exact H1 |]. split; [exact H2 |]. split; intros Hz; lia.
Qed.

Lemma one_cycle_per_loop_witness :
  progress_cycles
    (Progressbar.run (scenario_config true)
       (Progressbar.run (scenario_config true)
          (requestProgress (scenario_config true) "Stable Diffusion")
          [ProgressResponse (scenario_response true false None None) 1000])
       [LivePreviewResponse
          (scenario_response false true (Some (1 # 2)) None);
        Progressbar.TimerFired 0%nat]) = 0%nat.
Proof.
  apply (proj1 (proj2 (proj2
           (one_cycle_per_loop (scenario_config true) "Stable Diffusion"
              [ProgressResponse (scenario_response true false None None) 1000]
              [LivePreviewResponse
                 (scenario_response false true (Some (1 # 2)) None);
               Progressbar.TimerFired 0%nat])))).
  reflexivity.
Defined.

(** ** The delays of the polls *)

Lemma getSmartRefreshRate_bounds (p : Q) (a : bool) :
  200 <= getSmartRefreshRate p a <= 1000.
Proof.
  unfold getSmartRefreshRate.
  destruct (negb a || lt p (5 # 100))%bool, (lt p (2 # 10)),
    (lt p (7 # 10)), (lt p (95 # 100)); lia.
Qed.

Lemma run_callback_timers (f : Callback) (s : Session) :
  Progressbar.timers (run_callback f s) = Progressbar.timers s.
Proof. destruct f; cbn; repeat case_match; reflexivity. Qed.

Lemma filter_nil_false {A : Type} (p : A → bool) (l : list A) :
  List.filter p l = [] → Forall (λ x, p x = false) l.
Proof.
  induction l as [|x l IH]; intros H; [constructor |].
  cbn [List.filter] in H. destruct (p x) eqn:Hp; [discriminate |].
  constructor; auto.
Qed.

Lemma step_poll_delays (cfg : Config) (s : Session) (e : Progressbar.Event) :
  poll_delays_bounded s → poll_delays_bounded (Progressbar.step cfg s e).
Proof.
  unfold poll_delays_bounded. intros H.
  assert (Hrate : ∀ (p : Q) (a : bool) (f : Callback),
            Forall (λ t : Z * Callback, is_poll t = true → 200 <= fst t <= 1000)
              (Progressbar.timers s ++ [(getSmartRefreshRate p a, f)])).
  { intros p a f. apply Forall_app. split; [exact H |].
    constructor; [| constructor]. intros _. apply getSmartRefreshRate_bounds. }
  destruct e as [res now| |res| |img|k]; cbn [Progressbar.step].
  - destruct (answer _ _) as [rs|]; [| exact H].
    destruct (onProgressResponse_timers cfg res now (set_requests rs s))
      as [_ [-> | ->]]; [exact H | apply Hrate].
  - destruct (answer _ _) as [rs|]; [| exact H]. unfold onProgressError.
    now destruct (removeProgressBar_fields cfg (set_requests rs s))
      as (_ & _ & -> & _).
  - destruct (answer _ _) as [rs|]; [| exact H].
    destruct (onLivePreviewResponse_timers cfg res (set_requests rs s))
      as [_ [-> | ->]]; [exact H | apply Hrate].
  - destruct (answer _ _) as [rs|]; [| exact H]. unfold onLivePreviewError.
    now destruct (removeProgressBar_fields cfg (set_requests rs s))
      as (_ & _ & -> & _).
  - case_match; [| exact H].
    destruct (img_onload_timers img
                (set_images_loading
                   (filter (λ y : nat, y ≠ img) (images_loading s)) s))
      as (_ & fades & -> & Hf).
    apply Forall_app. split; [exact H |].
    eapply Forall_impl; [apply (filter_nil_false _ _ Hf) |].
    intros t Ht Ht'. congruence.
  - destruct (Progressbar.timers s !! k) as [[d f]|]; [| exact H].
    rewrite run_callback_timers. cbn [Progressbar.timers Progressbar.set_timers].
    now apply Forall_delete.
Qed.

(** X4: in every session, whatever the events, every pending timer of a
    poll, of either loop, has a delay between 200 ms and 1000 ms. *)
Theorem poll_delays_between_200_and_1000
    (cfg : Config) (title0 : string) (es : list Progressbar.Event)
    (delay : Z) (f : Callback) :
  (delay, f)
    ∈ Progressbar.timers (Progressbar.run cfg (requestProgress cfg title0) es) →
  is_poll (delay, f) = true →
  200 <= delay <= 1000.
Proof.
  assert (J : poll_delays_bounded
                (Progressbar.run cfg (requestProgress cfg title0) es)).
  { unfold Progressbar.run.
    assert (J0 : poll_delays_bounded (requestProgress cfg title0))
      by (unfold requestProgress; destruct (gallery cfg); constructor).
    revert J0. generalize (requestProgress cfg title0).
    induction es as [|e es IH]; intros s J0; [exact J0 |].
    apply IH, step_poll_delays, J0. }
  intros Hin Hpoll. unfold poll_delays_bounded in J.
  rewrite Forall_forall in J. exact (J _ Hin Hpoll).
Qed.

Lemma poll_delays_between_200_and_1000_witness : 200 <= 400 <= 1000.
Proof.
  apply (poll_delays_between_200_and_1000 (scenario_config false)
           "Stable Diffusion"
           [ProgressResponse (scenario_response false true (Some (1 # 2)) None)
              1000]
           400 CallFunProgress).
  - vm_compute. apply list_elem_of_singleton. reflexivity.
  - reflexivity.
Defined.

(** ** Requests that fail *)

(** X5: when a request is finished ([readyState] 4) with a status other
    than 200, or with a body that does not parse, the session is
    terminated, whichever loop sent the request, and the loop sets no timer
    and sends no request; before the request is finished nothing
    happens. *)
Theorem failed_request_terminates_session
    (cfg : Config) (r : Request) (x : Xhr) (now : Z) (s : Session) :
  (readyState x ≠ 4 → onreadystatechange cfg r x now s = s) ∧
  (readyState x = 4 → status x ≠ 200 ∨ body x = None →
   onreadystatechange cfg r x now s = removeProgressBar cfg s ∧
   terminated (onreadystatechange cfg r x now s) = true ∧
   Progressbar.timers (onreadystatechange cfg r x now s)
     = Progressbar.timers s ∧
   requests (onreadystatechange cfg r x now s) = requests s).
Proof.
  unfold onreadystatechange. split.
  - intros H. apply Z.eqb_neq in H. now rewrite H.
  - intros H4 Hfail. rewrite H4. cbn [Z.eqb Pos.eqb].
    assert (Herr : (if status x =? 200
                    then match body x with
                         | Some js => handler cfg r js now s
                         | None => errorHandler cfg r s
                         end
                    else errorHandler cfg r s) = removeProgressBar cfg s).
    { destruct Hfail as [Hs | Hb].
      - apply Z.eqb_neq in Hs. rewrite Hs. now destruct r.
      - rewrite Hb. destruct (status x =? 200); now destruct r. }
    rewrite Herr.
    pose proof (removeProgressBar_fields cfg s) as (_ & _ & Ht & Hr).
    split; [reflexivity |].
    split; [apply removeProgressBar_terminated |]. now split.
Qed.

Lemma failed_request_terminates_session_witness :
  terminated
    (onreadystatechange (scenario_config true) (ReqLivePreview (Some 0))
       {| readyState := 4; status := 500; body := None |} 1000
       (scenario_session true)) = true.
Proof.
  apply (proj2 (failed_request_terminates_session (scenario_config true)
                  (ReqLivePreview (Some 0))
                  {| readyState := 4; status := 500; body := None |} 1000
                  (scenario_session true))).
  - reflexivity.
  - left. discriminate.
Defined.

(** ** Reading a time back from its text *)

Lemma digit_value_char (d : N) :
  (d < 10)%N → digit_value (pretty_N_char d) = Some (Z.of_N d).
Proof.
  intros Hd.
  assert (d = 0 ∨ d = 1 ∨ d = 2 ∨ d = 3 ∨ d = 4 ∨ d = 5 ∨ d = 6 ∨ d = 7
          ∨ d = 8 ∨ d = 9)%N as H by lia.
  repeat (destruct H as [-> | H]; [reflexivity |]). now subst.
Qed.

Lemma pretty_N_go_append (x : N) (s rest : string) :
  pretty_N_go x s +:+ rest = pretty_N_go x (s +:+ rest).
Proof.
  revert s. induction (N.lt_wf_0 x) as [x _ IH]. intros s.
  destruct (decide (x = 0)%N) as [-> | Hx]; [now rewrite !pretty_N_go_0 |].
  rewrite (pretty_N_go_step x s), (pretty_N_go_step x (s +:+ rest)) by lia.
  rewrite IH by (apply N.div_lt; lia). reflexivity.
Qed.

(** Reading goes through the digits of a number and adds them to the
    field. *)
Lemma read_time_digits (x : N) :
  ∃ k : nat, ∀ (total field : Z) (rest : string),
    read_time total field (pretty_N_go x rest)
    = read_time total (field * 10 ^ Z.of_nat k + Z.of_N x) rest.
Proof.
  induction (N.lt_wf_0 x) as [x _ IH].
  destruct (decide (x = 0)%N) as [-> | Hx].
  { exists 0%nat. intros total field rest. rewrite pretty_N_go_0.
    f_equal. cbn. lia. }
  destruct (IH (x `div` 10)%N) as [k Hk]; [apply N.div_lt; lia |].
  exists (S k). intros total field rest.
  rewrite pretty_N_go_step by lia. rewrite Hk. cbn [read_time].
  rewrite digit_value_char by (apply N.mod_lt; lia).
  f_equal. rewrite Nat2Z.inj_succ, Z.pow_succ_r by lia.
  rewrite N2Z.inj_div, N2Z.inj_mod.
  pose proof (Z.div_mod (Z.of_N x) 10). lia.
Qed.

Lemma read_time_pretty (n : Z) (total : Z) (rest : string) :
  0 <= n →
  read_time total 0 (pretty n +:+ rest) = read_time total n rest.
Proof.
  intros Hn. destruct n as [|p|p]; [reflexivity | | lia].
  change (pretty (Z.pos p)) with (pretty_N_go (N.pos p) "").
  rewrite pretty_N_go_append.
  destruct (read_time_digits (N.pos p)) as [k Hk].
  change ("" +:+ rest) with rest. rewrite Hk. reflexivity.
Qed.

Lemma read_time_pad2 (n : Z) (total : Z) (rest : string) :
  0 <= n →
  read_time total 0 (to_string (pad2 n) +:+ rest) = read_time total n rest.
Proof.
  intros Hn. rewrite pad2_zero_padded. unfold zero_padded.
  destruct (n <? 10); [| now apply read_time_pretty].
  rewrite append_assoc.
  change ("0" +:+ (pretty n +:+ rest)) with (String "0" (pretty n +:+ rest)).
  cbn [read_time]. change (digit_value "0") with (Some 0).
  cbn [Z.mul Z.add]. now apply read_time_pretty.
Qed.

Lemma append_empty_r (s : string) : s +:+ "" = s.
Proof.
  induction s as [|c s IH]; [reflexivity |].
  change (String c (s +:+ "") = String c s). now rewrite IH.
Qed.

Lemma Qfloor_div_pos (q : Q) (n : positive) :
  Qfloor (q / inject_Z (Z.pos n)) = Qfloor q / Z.pos n.
Proof.
  destruct q as [a b]. unfold Qdiv, Qinv, Qmult, inject_Z, Qfloor.
  cbn [Qnum Qden]. rewrite Z.mul_1_r, Pos2Z.inj_mul.
  now rewrite Z.div_div by lia.
Qed.

(** X6: the text that [formatTime] gives for a time that is not negative
    and below [2^53] seconds, the range in which the code computes the
    quotients of the time without rounding, reads back as the whole seconds
    of that time, in each of its three forms: nothing but the fraction of a
    second is lost. *)
Theorem formatTime_reads_back (secs : Q) :
  (0 <= secs)%Q → (secs < inject_Z exact_below)%Q →
  seconds_shown (formatTime secs) = Some (Qfloor secs).
Proof.
  intros Hpos Hexact.
  assert (HF : 0 <= Qfloor secs)
    by (change 0 with (Qfloor 0); now apply Qfloor_resp_le).
  assert (H60 : Qfloor (secs / 60) = Qfloor secs / 60)
    by apply (Qfloor_div_pos secs 60).
  assert (H3600 : Qfloor (secs / 60 / 60) = Qfloor secs / 60 / 60).
  { rewrite <- H60. apply (Qfloor_div_pos (secs / 60) 60). }
  pose proof (Z.div_pos (Qfloor secs) 60 HF eq_refl) as Hm.
  pose proof (Z.div_pos (Qfloor secs / 60) 60 Hm eq_refl) as Hh.
  pose proof (Z.mod_pos_bound (Qfloor secs) 60 eq_refl) as Hs.
  pose proof (Z.mod_pos_bound (Qfloor secs / 60) 60 eq_refl) as Hmm.
  pose proof (Z.div_mod (Qfloor secs) 60) as Hd1.
  pose proof (Z.div_mod (Qfloor secs / 60) 60) as Hd2.
  assert (Hcolon : ∀ (total field : Z) (rest : string),
            read_time total field (":" +:+ rest)
            = read_time ((total + field) * 60) 0 rest) by reflexivity.
  assert (Hfield : ∀ (n total : Z) (rest : string), 0 <= n →
            read_time total 0 (to_string (pad2 n) +:+ rest)
            = read_time total n rest)
    by (intros; now apply read_time_pad2).
  assert (Hlast : ∀ n total : Z, 0 <= n →
            read_time total 0 (to_string (pad2 n)) = Some (total + n)).
  { intros n total Hn. rewrite <- (append_empty_r (to_string (pad2 n))).
    now rewrite Hfield. }
  unfold seconds_shown, formatTime.
  destruct (gt secs 3600); [| destruct (gt secs 60)];
    cbn [to_string concat]; rewrite ?H60, ?H3600.
  - rewrite !append_assoc.
    rewrite (Hfield _ _ _ Hh), Hcolon, (Hfield _ _ _ (proj1 Hmm)), Hcolon.
    rewrite (Hlast _ _ (proj1 Hs)). f_equal. lia.
  - rewrite !append_assoc.
    rewrite (Hfield _ _ _ Hm), Hcolon, (Hlast _ _ (proj1 Hs)). f_equal. lia.
  - rewrite read_time_pretty by lia. reflexivity.
Qed.

Lemma formatTime_reads_back_witness :
  seconds_shown (formatTime (7261 # 2)) = Some 3630.
Proof.
  apply (formatTime_reads_back (7261 # 2)); [discriminate | reflexivity].
Defined.

(** * Further properties of the thumbnail loader *)

(** ** One load per name *)

Lemma single_flight_flight (st st' : Loader) :
  flight st' = flight st → single_flight st → single_flight st'.
Proof.
  unfold flight, single_flight, awaited_names. intros Heq.
  injection Heq as Hl Hg Ha. now rewrite Hl, Hg, Ha.
Qed.

Lemma processCard_flight (card : nat) (st : Loader) :
  flight (snd (processCard card st)) = flight st.
Proof.
  unfold processCard, addLoadingIndicator. repeat case_match; reflexivity.
Qed.

Lemma removeLoadingIndicator_flight (card : nat) (st : Loader) :
  flight (removeLoadingIndicator card st) = flight st.
Proof. unfold removeLoadingIndicator. case_match; reflexivity. Qed.

Lemma scheduleRetry_flight (card : nat) (st : Loader) :
  flight (scheduleRetry card st) = flight st.
Proof.
  unfold scheduleRetry. case_match; [reflexivity |].
  apply removeLoadingIndicator_flight.
Qed.

Lemma settle_flight (card : nat) (promises : list (nat * string))
    (results : list Settlement) (st : Loader) :
  flight (settle card promises results st) = flight st.
Proof.
  revert results st.
  induction promises as [|[index src0] promises IH]; intros results st;
    [reflexivity |].
  destruct results as [|[|] results]; cbn [settle]; [reflexivity | |];
    now rewrite IH.
Qed.

Lemma unobserve_flight (card : nat) (st : Loader) :
  flight (unobserve card st) = flight st.
Proof. unfold unobserve. case_match; reflexivity. Qed.

Lemma loadCardThumbnails_single_flight (card : nat) (st : Loader) :
  single_flight st → single_flight (loadCardThumbnails card st).
Proof.
  intros (Hnd & Hiff & Hdisj). unfold loadCardThumbnails.
  destruct (bool_decide (cardName st card ∈ loadedImages st)) eqn:Hl;
    [exact (conj Hnd (conj Hiff Hdisj)) |].
  destruct (bool_decide (cardName st card ∈ loadingImages st)) eqn:Hg;
    [exact (conj Hnd (conj Hiff Hdisj)) |].
  apply bool_decide_eq_false in Hl, Hg. cbn [orb].
  unfold single_flight, awaited_names.
  cbn [awaiting set_awaiting loadingImages set_loadingImages loadedImages].
  rewrite fmap_app. cbn [fmap list_fmap s_cardName].
  split; [| split].
  - apply NoDup_app. split; [exact Hnd |]. split; [| apply NoDup_singleton].
    intros name Hin ->%list_elem_of_singleton. now apply Hg, Hiff.
  - intros name. rewrite elem_of_union, elem_of_singleton, elem_of_app,
      list_elem_of_singleton, Hiff. tauto.
  - intros name Hin. rewrite elem_of_union, elem_of_singleton.
    intros [-> | H]; [contradiction | now apply (Hdisj name)].
Qed.

Lemma resume_call_names (card : nat) (calls rest : list Suspended)
    (call : Suspended) :
  resume_call card calls = Some (call, rest) →
  s_card call = card ∧
  s_cardName <$> calls ≡ₚ s_cardName call :: (s_cardName <$> rest).
Proof.
  revert rest. induction calls as [|c calls IH]; intros rest H;
    [discriminate |].
  cbn [resume_call] in H. case_bool_decide as Hc.
  - injection H as <- <-. now split.
  - destruct (resume_call card calls) as [[call' rest']|]; [| discriminate].
    injection H as <- <-. destruct (IH rest' eq_refl) as [H1 H2].
    split; [exact H1 |]. cbn [fmap list_fmap fst snd].
    rewrite H2. apply Permutation_swap.
Qed.

Lemma loadCardThumbnails_resume_single_flight (card : nat) (call : Suspended)
    (calls : list Suspended) (a : Awaited) (st st1 : Loader) :
  single_flight st →
  resume_call card (awaiting st) = Some (call, calls) →
  flight st1 = flight (set_awaiting calls st) →
  single_flight (loadCardThumbnails_resume call a st1).
Proof.
  intros (Hnd & Hiff & Hdisj) Hcall Hflight.
  destruct (resume_call_names _ _ _ _ Hcall) as [_ Hperm].
  unfold awaited_names in *. rewrite Hperm in Hnd.
  apply NoDup_cons in Hnd as [Hfresh Hnd'].
  assert (Hin : ∀ name, name ∈ loadingImages st ↔
                        name = s_cardName call ∨ name ∈ s_cardName <$> calls).
  { intros name. rewrite Hiff, Hperm. apply elem_of_cons. }
  unfold flight in Hflight. cbn in Hflight. injection Hflight as Hl Hg Ha.
  set (st2 := match a with
              | Resolved _ =>
                  removeLoadingIndicator (s_card call)
                    (set_loadedImages ({[s_cardName call]} ∪ loadedImages st1) st1)
              | Raised => scheduleRetry (s_card call) st1
              end).
  assert (H2 : awaiting st2 = calls ∧ loadingImages st2 = loadingImages st ∧
               ∀ name, name ∈ loadedImages st2 →
                       name = s_cardName call ∨ name ∈ loadedImages st).
  { subst st2. destruct a as [results|].
    - pose proof (removeLoadingIndicator_flight (s_card call)
        (set_loadedImages ({[s_cardName call]} ∪ loadedImages st1) st1)) as Hf.
      unfold flight in Hf. cbn in Hf. injection Hf as Hl2 Hg2 Ha2.
      rewrite Ha2, Hg2, Hl2, Ha, Hg, Hl. split; [reflexivity |].
      split; [reflexivity |]. intros name.
      rewrite elem_of_union, elem_of_singleton. tauto.
    - pose proof (scheduleRetry_flight (s_card call) st1) as Hf.
      unfold flight in Hf. injection Hf as Hl2 Hg2 Ha2.
      rewrite Ha2, Hg2, Hl2, Ha, Hg, Hl. split; [reflexivity |].
      split; [reflexivity |]. tauto. }
  destruct H2 as (Ha2 & Hg2 & Hl2).
  unfold loadCardThumbnails_resume. fold st2.
  unfold single_flight, awaited_names.
  cbn [awaiting loadingImages loadedImages set_loadingImages].
  rewrite Ha2, Hg2. split; [exact Hnd' |]. split.
  - intros name. rewrite elem_of_difference, elem_of_singleton, Hin.
    split; [tauto |]. intros H. split; [tauto |]. intros ->. contradiction.
  - intros name Hname. rewrite elem_of_difference, elem_of_singleton.
    intros [Hg' Hne]. destruct (Hl2 name Hname) as [-> | H]; [congruence |].
    now apply (Hdisj name).
Qed.

Lemma step_single_flight (st : Loader) (e : Event) :
  single_flight st → single_flight (ThumbnailLoader.step st e).
Proof.
  intros Hinv.
  destruct e as [card|entries|in_viewport|card results|card|k];
    cbn [ThumbnailLoader.step].
  - eapply single_flight_flight; [apply processCard_flight | exact Hinv].
  - unfold handleIntersection. revert st Hinv.
    induction entries as [|[card b] entries IH]; intros st Hinv;
      [exact Hinv |].
    cbn [foldl]. apply IH. destruct b; cbn [fst snd]; [| exact Hinv].
    eapply single_flight_flight; [apply unobserve_flight |].
    now apply loadCardThumbnails_single_flight.
  - unfold forceLoadAllVisible. generalize (observedCards st).
    intros cards. revert st Hinv.
    induction cards as [|card cards IH]; intros st Hinv; [exact Hinv |].
    cbn [foldl]. apply IH. case_match; [| exact Hinv].
    now apply loadCardThumbnails_single_flight.
  - destruct (resume_call card (awaiting st)) as [[call calls]|] eqn:Hcall;
      [| exact Hinv].
    case_match; [| exact Hinv].
    eapply loadCardThumbnails_resume_single_flight; [exact Hinv | exact Hcall |].
    apply settle_flight.
  - destruct (resume_call card (awaiting st)) as [[call calls]|] eqn:Hcall;
      [| exact Hinv].
    eapply loadCardThumbnails_resume_single_flight;
      [exact Hinv | exact Hcall | reflexivity].
  - destruct (ThumbnailLoader.timers st !! k) as [[d f]|]; [| exact Hinv].
    destruct f as [card | card index src0]; cbn [run_timer].
    + apply loadCardThumbnails_single_flight.
      eapply single_flight_flight; [| exact Hinv]. reflexivity.
    + eapply single_flight_flight; [| exact Hinv]. reflexivity.
Qed.

Lemma run_single_flight (es : list Event) (st : Loader) :
  single_flight st → single_flight (ThumbnailLoader.run st es).
Proof.
  revert st. induction es as [|e es IH]; intros st Hinv; [exact Hinv |].
  apply IH, step_single_flight, Hinv.
Qed.

Lemma constructed_single_flight (cards : gmap nat Card) :
  single_flight (create_observer (constructed cards)).
Proof.
  split; [apply NoDup_nil_2 |]. split.
  - intros name. cbn. split; intros H; [set_solver | inversion H].
  - intros name H. cbn in H. set_solver.
Qed.

(** X7: whatever happens to a loader, at most one call of
    [loadCardThumbnails] is waiting for images per card name,
    [loadingImages] holds exactly the names of the waiting calls, and no
    name is in [loadedImages] and in [loadingImages] at the same time. *)
Theorem one_load_in_flight_per_name
    (cards : gmap nat Card) (es : list Event) (name : string) :
  NoDup (awaited_names
           (ThumbnailLoader.run (create_observer (constructed cards)) es)) ∧
  (name ∈ loadingImages
            (ThumbnailLoader.run (create_observer (constructed cards)) es)
   ↔ name ∈ awaited_names
              (ThumbnailLoader.run (create_observer (constructed cards)) es)) ∧
  (name ∈ loadedImages
            (ThumbnailLoader.run (create_observer (constructed cards)) es) →
   name ∉ loadingImages
            (ThumbnailLoader.run (create_observer (constructed cards)) es)).
Proof.
  destruct (run_single_flight es _ (constructed_single_flight cards))
    as (H1 & H2 & H3).
  split; [exact H1 |]. split; [apply H2 | apply H3].
Qed.

Lemma one_load_in_flight_per_name_witness :
  NoDup (awaited_names
           (ThumbnailLoader.run (create_observer (constructed scenario_page))
              [ProcessCard 0%nat; Intersection [(0%nat, true)];
               ProcessCard 1%nat; Intersection [(1%nat, true)];
               ProcessCard 2%nat; Intersection [(2%nat, true)]])).
Proof.
  apply (one_load_in_flight_per_name scenario_page
           [ProcessCard 0%nat; Intersection [(0%nat, true)];
            ProcessCard 1%nat; Intersection [(1%nat, true)];
            ProcessCard 2%nat; Intersection [(2%nat, true)]] "model-a").
Defined.

(** ** Loaded names along the events of the loads *)

Lemma flight_loaded (st st' : Loader) :
  flight st' = flight st → loadedImages st' = loadedImages st.
Proof. unfold flight. intros Heq. now injection Heq. Qed.

Lemma loadCardThumbnails_loaded (card : nat) (st : Loader) :
  loadedImages (loadCardThumbnails card st) = loadedImages st.
Proof. unfold loadCardThumbnails. case_match; reflexivity. Qed.

Lemma loadCardThumbnails_resume_loaded (call : Suspended) (a : Awaited)
    (st : Loader) (name : string) :
  name ∈ loadedImages st →
  name ∈ loadedImages (loadCardThumbnails_resume call a st).
Proof.
  intros H. unfold loadCardThumbnails_resume.
  cbn [loadedImages set_loadingImages]. destruct a as [results|].
  - rewrite (flight_loaded _ _ (removeLoadingIndicator_flight _ _)).
    cbn [loadedImages set_loadedImages]. apply elem_of_union. now right.
  - now rewrite (flight_loaded _ _ (scheduleRetry_flight _ _)).
Qed.

Lemma step_loaded (st : Loader) (e : Event) (name : string) :
  name ∈ loadedImages st → name ∈ loadedImages (ThumbnailLoader.step st e).
Proof.
  intros H.
  destruct e as [card|entries|in_viewport|card results|card|k];
    cbn [ThumbnailLoader.step].
  - now rewrite (flight_loaded _ _ (processCard_flight _ _)).
  - unfold handleIntersection. revert st H.
    induction entries as [|[card b] entries IH]; intros st H; [exact H |].
    cbn [foldl]. apply IH. destruct b; cbn [fst snd]; [| exact H].
    rewrite (flight_loaded _ _ (unobserve_flight _ _)).
    now rewrite loadCardThumbnails_loaded.
  - unfold forceLoadAllVisible. generalize (observedCards st).
    intros cards. revert st H.
    induction cards as [|card cards IH]; intros st H; [exact H |].
    cbn [foldl]. apply IH. case_match; [| exact H].
    now rewrite loadCardThumbnails_loaded.
  - destruct (resume_call card (awaiting st)) as [[call calls]|];
      [| exact H].
    case_match; [| exact H].
    apply loadCardThumbnails_resume_loaded.
    now rewrite (flight_loaded _ _ (settle_flight _ _ _ _)).
  - destruct (resume_call card (awaiting st)) as [[call calls]|];
      [| exact H].
    now apply loadCardThumbnails_resume_loaded.
  - destruct (ThumbnailLoader.timers st !! k) as [[d f]|]; [| exact H].
    destruct f as [card | card index src0]; cbn [run_timer].
    + now rewrite loadCardThumbnails_loaded.
    + exact H.
Qed.

(** ** What starts a load *)

Lemma loadCardThumbnails_page (card : nat) (st : Loader) :
  page (loadCardThumbnails card st) = page st ∧
  observer (loadCardThumbnails card st) = observer st.
Proof. unfold loadCardThumbnails. case_match; now split. Qed.

Lemma loadCardThumbnails_knows (card : nat) (st : Loader) :
  known (cardName st card) (loadCardThumbnails card st).
Proof.
  unfold known, loadCardThumbnails.
  destruct (bool_decide (cardName st card ∈ loadedImages st)) eqn:Hl;
    [apply bool_decide_eq_true in Hl; now left |].
  destruct (bool_decide (cardName st card ∈ loadingImages st)) eqn:Hg;
    [apply bool_decide_eq_true in Hg; now right |].
  right. cbn. apply elem_of_union. left. now apply elem_of_singleton.
Qed.

Lemma loadCardThumbnails_known_mono (card : nat) (st : Loader) (name : string) :
  known name st → known name (loadCardThumbnails card st).
Proof.
  unfold known, loadCardThumbnails. intros H. case_match; [exact H |].
  cbn. destruct H as [H | H]; [now left |].
  right. apply elem_of_union. now right.
Qed.

Lemma cardName_page (st st' : Loader) (card : nat) :
  page st' = page st → cardName st' card = cardName st card.
Proof. unfold cardName, card_of. now intros ->. Qed.

Lemma unobserve_known (card : nat) (st : Loader) (name : string) :
  known name st → known name (unobserve card st).
Proof. unfold known, unobserve. now case_match. Qed.

Lemma unobserve_page (card : nat) (st : Loader) :
  page (unobserve card st) = page st.
Proof. unfold unobserve. now case_match. Qed.

Lemma handleIntersection_spec (entries : list (nat * bool)) (st : Loader) :
  page (handleIntersection entries st) = page st ∧
  observer (handleIntersection entries st)
    = (λ targets : gset nat, targets ∖ list_to_set (intersecting entries))
        <$> observer st ∧
  (∀ name : string, known name st →
                    known name (handleIntersection entries st)) ∧
  (∀ card : nat, card ∈ intersecting entries →
                 known (cardName st card) (handleIntersection entries st)).
Proof.
  unfold handleIntersection, intersecting. revert st.
  induction entries as [|[card b] entries IH]; intros st.
  - cbn. split; [reflexivity |]. split.
    + destruct (observer st) as [targets|]; cbn; [| reflexivity].
      f_equal. now rewrite difference_empty_L.
    + split; [auto |]. intros card H. inversion H.
  - cbn [foldl fst snd List.filter]. destruct b.
    + set (st1 := unobserve card (loadCardThumbnails card st)).
      destruct (IH st1) as (Hp & Ho & Hk & Hc).
      assert (Hp1 : page st1 = page st).
      { subst st1. rewrite unobserve_page.
        apply loadCardThumbnails_page. }
      assert (Hk1 : ∀ name, known name st → known name st1).
      { intros name H. subst st1.
        now apply unobserve_known, loadCardThumbnails_known_mono. }
      assert (Ho1 : observer st1
                    = (λ t : gset nat, t ∖ {[card]}) <$> observer st).
      { subst st1. unfold unobserve.
        destruct (loadCardThumbnails_page card st) as [_ Hobs].
        destruct (observer (loadCardThumbnails card st)) as [t|] eqn:E;
          rewrite <- Hobs, ?E; reflexivity. }
      split; [congruence |]. split.
      * rewrite Ho, Ho1.
        destruct (observer st) as [targets|]; cbn; [| reflexivity].
        f_equal. apply difference_difference_l_L.
      * split; [intros name H; now apply Hk, Hk1 |].
        intros card' Hin. cbn [fmap list_fmap fst] in Hin.
        apply elem_of_cons in Hin as [-> | Hin].
        -- apply Hk. subst st1.
           apply unobserve_known, loadCardThumbnails_knows.
        -- rewrite <- (cardName_page st st1 card' Hp1). now apply Hc.
    + apply IH.
Qed.

(** X9: [handleIntersection] calls [loadCardThumbnails] for the card of
    every intersecting entry, in the order of the entries, and takes exactly
    these cards out of the targets of the observer. A load starts (the call
    reaches the [await], with the lazy images of the card as its promises,
    and the name is added to [loadingImages]) only for the cards [new]:
    their names were neither loaded nor loading and differ from one
    another, and every name of an intersecting card that was neither loaded
    nor loading is the name of one of them. So of several intersecting
    cards with one name a single one is loaded, and a card whose name was
    loaded or loading is not loaded; all of them are unobserved. No card of
    the page is changed by the call itself, and entries that do not
    intersect change nothing. *)
Theorem handleIntersection_starts_one_load_per_name
    (entries : list (nat * bool)) (st : Loader) (targets : gset nat) :
  observer st = Some targets →
  ∃ new : list nat,
    awaiting (handleIntersection entries st)
    = awaiting st ++ (waiting_call st <$> new) ∧
    (∀ name : string,
       name ∈ loadingImages (handleIntersection entries st)
       ↔ name ∈ loadingImages st ∨ name ∈ cardName st <$> new) ∧
    loadedImages (handleIntersection entries st) = loadedImages st ∧
    NoDup (cardName st <$> new) ∧
    (∀ card : nat,
       card ∈ new →
       card ∈ intersecting entries ∧ ¬ known (cardName st card) st) ∧
    (∀ card : nat,
       card ∈ intersecting entries → ¬ known (cardName st card) st →
       cardName st card ∈ cardName st <$> new) ∧
    observer (handleIntersection entries st)
    = Some (targets ∖ list_to_set (intersecting entries)) ∧
    page (handleIntersection entries st) = page st ∧
    (intersecting entries = [] → handleIntersection entries st = st).
Proof.
  intros Hobs.
  destruct (handleIntersection_spec entries st) as (_ & Ho & _ & _).
  rewrite Hobs in Ho. cbn in Ho.
  destruct (load_each_spec unobserve
              (λ c s, proj1 (unobserve_keeps c s))
              (λ c s, proj2 (unobserve_keeps c s))
              (intersecting entries) st)
    as (new & Ha & Hg & Hl & Hp & Hnd & Hmem & Hcov).
  rewrite <- handleIntersection_fold in Ha, Hg, Hl, Hp.
  exists new. split; [exact Ha |]. split; [exact Hg |]. split; [exact Hl |].
  split; [exact Hnd |]. split; [exact Hmem |]. split; [exact Hcov |].
  split; [exact Ho |]. split; [exact Hp |].
  intros Hnone. rewrite handleIntersection_fold, Hnone. reflexivity.
Qed.

Lemma handleIntersection_starts_one_load_per_name_witness :
  (∃ new : list nat,
     awaiting
       (handleIntersection [(0%nat, true); (1%nat, true)]
          (ThumbnailLoader.run scenario_loader
             [ProcessCard 0%nat; ProcessCard 1%nat]))
     = [] ++ (waiting_call
                (ThumbnailLoader.run scenario_loader
                   [ProcessCard 0%nat; ProcessCard 1%nat]) <$> new) ∧
     NoDup (cardName
              (ThumbnailLoader.run scenario_loader
                 [ProcessCard 0%nat; ProcessCard 1%nat]) <$> new)) ∧
  s_card <$> awaiting
               (handleIntersection [(0%nat, true); (1%nat, true)]
                  (ThumbnailLoader.run scenario_loader
                     [ProcessCard 0%nat; ProcessCard 1%nat]))
  = [0%nat] ∧
  observer
    (handleIntersection [(0%nat, true); (1%nat, true)]
       (ThumbnailLoader.run scenario_loader
          [ProcessCard 0%nat; ProcessCard 1%nat]))
  = Some ∅.
Proof.
  split.
  - destruct (handleIntersection_starts_one_load_per_name
                [(0%nat, true); (1%nat, true)]
                (ThumbnailLoader.run scenario_loader
                   [ProcessCard 0%nat; ProcessCard 1%nat])
                {[0%nat; 1%nat]})
      as (new & Ha & _ & _ & Hnd & _).
    + vm_compute. reflexivity.
    + exists new. split; [exact Ha | exact Hnd].
  - split; vm_compute; reflexivity.
Defined.

Lemma forceLoad_spec (in_viewport : gset nat) (cards : list nat) (st : Loader) :
  page (foldl (λ (st : Loader) (card : nat),
                 if bool_decide (card ∈ in_viewport)
                 then loadCardThumbnails card st else st) st cards)
    = page st ∧
  observer (foldl (λ (st : Loader) (card : nat),
                     if bool_decide (card ∈ in_viewport)
                     then loadCardThumbnails card st else st) st cards)
    = observer st ∧
  (∀ name : string, known name st →
     known name (foldl (λ (st : Loader) (card : nat),
                          if bool_decide (card ∈ in_viewport)
                          then loadCardThumbnails card st else st) st cards)) ∧
  (∀ card : nat, card ∈ cards → card ∈ in_viewport →
     known (cardName st card)
       (foldl (λ (st : Loader) (card : nat),
                 if bool_decide (card ∈ in_viewport)
                 then loadCardThumbnails card st else st) st cards)).
Proof.
  revert st. induction cards as [|c cards IH]; intros st.
  - cbn. repeat split; auto. intros card H. inversion H.
  - cbn [foldl].
    set (st1 := if bool_decide (c ∈ in_viewport)
                then loadCardThumbnails c st else st).
    destruct (IH st1) as (Hp & Ho & Hk & Hc).
    assert (H1 : page st1 = page st ∧ observer st1 = observer st ∧
                 (∀ name, known name st → known name st1) ∧
                 (c ∈ in_viewport → known (cardName st c) st1)).
    { subst st1. case_bool_decide as Hv.
      - destruct (loadCardThumbnails_page c st) as [Hp1 Ho1].
        repeat split; auto.
        + intros name. apply loadCardThumbnails_known_mono.
        + intros _. apply loadCardThumbnails_knows.
      - repeat split; auto. contradiction. }
    destruct H1 as (Hp1 & Ho1 & Hk1 & Hc1).
    split; [congruence |]. split; [congruence |].
    split; [intros name H; now apply Hk, Hk1 |].
    intros card Hin Hv. apply elem_of_cons in Hin as [-> | Hin].
    + now apply Hk, Hc1.
    + rewrite <- (cardName_page st st1 card Hp1). now apply Hc.
Qed.

(** X10: [forceLoadAllVisible] calls [loadCardThumbnails] for every
    tracked card that is in the viewport. A load starts only for the cards
    [new]: their names were neither loaded nor loading and differ from one
    another, and every name of a tracked card in the viewport that was
    neither loaded nor loading is the name of one of them. So of several
    such cards with one name a single one is loaded, and a card whose name
    was loaded or loading is not loaded. The call changes neither the
    tracked cards nor the targets of the observer, so that the cards stay
    observed, and no card of the page is changed by the call itself. *)
Theorem forceLoadAllVisible_starts_one_load_per_name
    (in_viewport : gset nat) (st : Loader) :
  ∃ new : list nat,
    awaiting (forceLoadAllVisible in_viewport st)
    = awaiting st ++ (waiting_call st <$> new) ∧
    (∀ name : string,
       name ∈ loadingImages (forceLoadAllVisible in_viewport st)
       ↔ name ∈ loadingImages st ∨ name ∈ cardName st <$> new) ∧
    loadedImages (forceLoadAllVisible in_viewport st) = loadedImages st ∧
    NoDup (cardName st <$> new) ∧
    (∀ card : nat,
       card ∈ new →
       card ∈ observedCards st ∧ card ∈ in_viewport ∧
       ¬ known (cardName st card) st) ∧
    (∀ card : nat,
       card ∈ observedCards st → card ∈ in_viewport →
       ¬ known (cardName st card) st →
       cardName st card ∈ cardName st <$> new) ∧
    observedCards (forceLoadAllVisible in_viewport st) = observedCards st ∧
    observer (forceLoadAllVisible in_viewport st) = observer st ∧
    page (forceLoadAllVisible in_viewport st) = page st.
Proof.
  destruct (load_each_spec (λ _ s, s) (λ _ _, eq_refl) (λ _ _, eq_refl)
              (visible_cards in_viewport st) st)
    as (new & Ha & Hg & Hl & Hp & Hnd & Hmem & Hcov).
  rewrite <- forceLoadAllVisible_fold in Ha, Hg, Hl, Hp.
  assert (Hvis : ∀ card : nat,
            card ∈ visible_cards in_viewport st
            ↔ card ∈ observedCards st ∧ card ∈ in_viewport).
  { intros card. unfold visible_cards.
    rewrite list_elem_of_In, filter_In, <- list_elem_of_In,
      bool_decide_eq_true. tauto. }
  exists new. split; [exact Ha |]. split; [exact Hg |]. split; [exact Hl |].
  split; [exact Hnd |]. split.
  { intros card Hin. destruct (Hmem card Hin) as [Hv Hn].
    apply Hvis in Hv as [Ho Hv]. now repeat split. }
  split.
  { intros card Ho Hv Hn. apply Hcov; [| exact Hn]. now apply Hvis. }
  split; [apply registry_observedCards, forceLoad_registry |].
  split; [| exact Hp].
  unfold forceLoadAllVisible.
  now destruct (forceLoad_spec in_viewport (observedCards st) st)
    as (_ & Ho & _).
Qed.

Lemma forceLoadAllVisible_starts_one_load_per_name_witness :
  (∃ new : list nat,
     awaiting
       (forceLoadAllVisible {[0%nat; 1%nat; 2%nat]}
          (ThumbnailLoader.run scenario_loader
             [ProcessCard 0%nat; ProcessCard 1%nat; ProcessCard 2%nat]))
     = [] ++ (waiting_call
                (ThumbnailLoader.run scenario_loader
                   [ProcessCard 0%nat; ProcessCard 1%nat; ProcessCard 2%nat])
              <$> new) ∧
     NoDup (cardName
              (ThumbnailLoader.run scenario_loader
                 [ProcessCard 0%nat; ProcessCard 1%nat; ProcessCard 2%nat])
            <$> new)) ∧
  s_card <$> awaiting
               (forceLoadAllVisible {[0%nat; 1%nat; 2%nat]}
                  (ThumbnailLoader.run scenario_loader
                     [ProcessCard 0%nat; ProcessCard 1%nat; ProcessCard 2%nat]))
  = [0%nat; 2%nat].
Proof.
  split.
  - destruct (forceLoadAllVisible_starts_one_load_per_name
                {[0%nat; 1%nat; 2%nat]}
                (ThumbnailLoader.run scenario_loader
                   [ProcessCard 0%nat; ProcessCard 1%nat; ProcessCard 2%nat]))
      as (new & Ha & _ & _ & Hnd & _).
    exists new. split; [exact Ha | exact Hnd].
  - vm_compute. reflexivity.
Defined.

(** ** From the placeholder back to the image *)

Lemma alter_each_selected (f : string → Img → Img) (L M pre : list Img) :
  length M = length L →
  alter_each f (lazy_images (length pre) L) (pre ++ M)
  = pre ++ zip_with (λ i m, match selected i with
                            | Some s => f s m
                            | None => m
                            end) L M.
Proof.
  revert M pre. induction L as [|i L IH]; intros M pre Hlen.
  - destruct M; [reflexivity | discriminate].
  - destruct M as [|m M]; [discriminate |]. injection Hlen as Hlen.
    assert (Hnext : ∀ m' : Img,
              alter_each f (lazy_images (S (length pre)) L) (pre ++ m' :: M)
              = pre ++ m' :: zip_with (λ i m, match selected i with
                                             | Some s => f s m
                                             | None => m
                                             end) L M).
    { intros m'. specialize (IH M (pre ++ [m']) Hlen).
      rewrite length_app, Nat.add_1_r, <- !app_assoc in IH. exact IH. }
    cbn [lazy_images zip_with]. unfold selected.
    destruct (originalSrc i) as [o|]; [| apply Hnext].
    destruct (lazyLoading i && negb (String.eqb o ""))%bool; [| apply Hnext].
    unfold alter_each. cbn [foldl fst snd].
    assert (Halter : alter (f o) (length pre) (pre ++ m :: M)
                     = pre ++ f o m :: M).
    { rewrite alter_app_r_alt by lia. now rewrite Nat.sub_diag. }
    rewrite Halter. apply Hnext.
Qed.

Lemma prepare_thumbnails_length (c : Card) (index : nat) (imgs : list Img) :
  length (prepare_thumbnails c index imgs) = length imgs.
Proof.
  revert index. induction imgs as [|i imgs IH]; intros index; [reflexivity |].
  cbn [prepare_thumbnails]. destruct (is_thumbnail i); cbn [length];
    now rewrite IH.
Qed.

(** After the preparation, the promises are those of the thumbnails, each
    with the address that the image had. *)
Lemma prepared_selected (c : Card) (index : nat) (i : Img) :
  is_thumbnail i = true → untouched i →
  selected (prepareThumbnailForLazyLoading c index i) = Some (src i).
Proof.
  intros Ht [Ho Hl]. unfold selected, prepareThumbnailForLazyLoading.
  rewrite Ho. cbn.
  unfold is_thumbnail in Ht. apply andb_true_iff in Ht as [Hsrc _].
  now rewrite Hsrc.
Qed.

Lemma untouched_not_selected (i : Img) : untouched i → selected i = None.
Proof. intros [Ho _]. unfold selected. now rewrite Ho. Qed.

Lemma lazy_images_length (c : Card) (index off : nat) (imgs : list Img) :
  Forall untouched imgs →
  length (lazy_images off (prepare_thumbnails c index imgs))
  = length (List.filter is_thumbnail imgs).
Proof.
  intros H. revert index off.
  induction H as [|i imgs Hi _ IH]; intros index off; [reflexivity |].
  cbn [prepare_thumbnails List.filter]. destruct (is_thumbnail i) eqn:Ht.
  - pose proof (prepared_selected c index i Ht Hi) as Hs.
    cbn [lazy_images]. unfold selected in Hs.
    destruct (originalSrc _) as [o|]; [| discriminate].
    destruct (_ && _)%bool; [| discriminate]. cbn [length]. now rewrite IH.
  - pose proof (untouched_not_selected i Hi) as Hs.
    cbn [lazy_images]. unfold selected in Hs.
    destruct (originalSrc i) as [o|]; [| apply IH].
    destruct (_ && _)%bool; [discriminate | apply IH].
Qed.

(** The images of a card after preparation, dimming and revealing: every
    image shows the address it had, and none is marked for lazy loading. *)
Lemma images_restored (c : Card) (imgs : list Img) :
  Forall untouched imgs →
  src <$> alter_each reveal
            (lazy_images 0 (prepare_thumbnails c 0 imgs))
            (alter_each (λ _, dim)
               (lazy_images 0 (prepare_thumbnails c 0 imgs))
               (prepare_thumbnails c 0 imgs))
  = src <$> imgs ∧
  Forall (λ i, lazyLoading i = false)
    (alter_each reveal
       (lazy_images 0 (prepare_thumbnails c 0 imgs))
       (alter_each (λ _, dim)
          (lazy_images 0 (prepare_thumbnails c 0 imgs))
          (prepare_thumbnails c 0 imgs))).
Proof.
  intros H.
  pose proof (alter_each_selected (λ _, dim) (prepare_thumbnails c 0 imgs)
                (prepare_thumbnails c 0 imgs) [] eq_refl) as H1.
  cbn [length app] in H1. rewrite H1.
  match goal with |- context [zip_with ?g ?L ?L] => set (M := zip_with g L L) end.
  assert (HM : length M = length (prepare_thumbnails c 0 imgs)).
  { subst M. rewrite length_zip_with. lia. }
  pose proof (alter_each_selected reveal (prepare_thumbnails c 0 imgs) M []
                HM) as H2.
  cbn [length app] in H2. rewrite H2. subst M. clear H1 H2 HM.
  generalize 0%nat. induction H as [|i imgs Hi _ IH]; intros index;
    [split; [reflexivity | constructor] |].
  cbn [prepare_thumbnails]. destruct (is_thumbnail i) eqn:Ht.
  - cbn [zip_with].
    rewrite (prepared_selected c index i Ht Hi).
    destruct (IH (S index)) as [IH1 IH2].
    split; [cbn; f_equal; exact IH1 | constructor; [reflexivity | exact IH2]].
  - cbn [zip_with]. rewrite (untouched_not_selected i Hi).
    destruct (IH index) as [IH1 IH2].
    split; [cbn; f_equal; exact IH1 | constructor; [apply Hi | exact IH2]].
Qed.

Lemma update_card_lookup (card : nat) (f : Card → Card) (st : Loader) (c : Card) :
  page st !! card = Some c → page (update_card card f st) !! card = Some (f c).
Proof.
  intros H. unfold update_card. cbn [page set_page].
  now rewrite lookup_alter_eq, H.
Qed.

Lemma processCard_prepares (card : nat) (st : Loader) (c0 : Card) :
  page st !! card = Some c0 → card ∉ observedCards st →
  findThumbnailImages c0 ≠ [] → observer st ≠ None →
  ∃ c1 : Card,
    page (snd (processCard card st)) !! card = Some c1 ∧
    images c1 = prepare_thumbnails c0 0 (images c0) ∧
    data_name c1 = data_name c0 ∧
    indicator c1 = true ∧
    timers (snd (processCard card st)) = timers st.
Proof.
  intros Hc Hnew Hth Hobs. unfold processCard.
  rewrite bool_decide_eq_false_2 by exact Hnew.
  assert (Hcard : card_of st card = c0) by (unfold card_of; now rewrite Hc).
  rewrite Hcard.
  destruct (findThumbnailImages c0) as [|t ts] eqn:E; [done |].
  cbn [length Nat.eqb].
  set (st_a := update_card card
                 (λ c, set_images (prepare_thumbnails c 0 (images c)) c)
                 (set_observedCards (Set_add card (observedCards st)) st)).
  assert (Ha : page st_a !! card
               = Some (set_images (prepare_thumbnails c0 0 (images c0)) c0))
    by (subst st_a; exact (update_card_lookup card _ _ c0 Hc)).
  unfold addLoadingIndicator, card_of. rewrite Ha. cbn [from_option id].
  destruct (indicator (set_images _ c0)) eqn:Hi.
  - assert (Ho : observer st_a = observer st) by reflexivity. rewrite Ho.
    destruct (observer st) as [targets|]; [| done]. cbn [snd].
    eexists. split; [exact Ha |]. now repeat split.
  - match goal with |- context [observer ?s] =>
      assert (Ho : observer s = observer st) by reflexivity; rewrite Ho end.
    destruct (observer st) as [targets|]; [| done]. cbn [snd].
    eexists. split.
    + cbn [page set_observe_log set_observer].
      exact (update_card_lookup card _ _ _ Ha).
    + now repeat split.
Qed.

Lemma resume_call_last (card : nat) (calls : list Suspended) (call : Suspended) :
  Forall (λ c, s_card c ≠ card) calls → s_card call = card →
  resume_call card (calls ++ [call]) = Some (call, calls).
Proof.
  intros H Hcall. induction H as [|c calls Hc _ IH]; cbn [app resume_call].
  - now rewrite bool_decide_eq_true_2.
  - rewrite bool_decide_eq_false_2 by exact Hc. now rewrite IH.
Qed.

Lemma settle_fulfilled (card : nat) (promises : list (nat * string))
    (st : Loader) (c : Card) :
  page st !! card = Some c →
  page (settle card promises (replicate (length promises) Fulfilled) st) !! card
  = Some (set_images (alter_each (λ _, dim) promises (images c)) c) ∧
  timers (settle card promises (replicate (length promises) Fulfilled) st)
  = timers st ++ swap_timers card promises.
Proof.
  revert st c.
  induction promises as [|[index src0] promises IH]; intros st c Hc.
  - cbn. rewrite app_nil_r. split; [| reflexivity]. now destruct c.
  - cbn [length replicate settle].
    destruct (IH (loadSingleImage_onload card index src0 st)
                (update_image index (set_opacity "0") c)) as [IH1 IH2].
    { unfold loadSingleImage_onload, setTimeout. cbn [page set_timers].
      exact (update_card_lookup card _ _ c Hc). }
    rewrite IH1, IH2. split; [reflexivity |].
    unfold loadSingleImage_onload, setTimeout. cbn.
    now rewrite <- app_assoc.
Qed.

Lemma fire_swaps (card : nat) (promises : list (nat * string))
    (pre : list (Z * Timer)) (st : Loader) (c : Card) :
  timers st = pre ++ swap_timers card promises →
  page st !! card = Some c →
  page (run st (replicate (length promises) (TimerFired (length pre)))) !! card
  = Some (set_images (alter_each reveal promises (images c)) c) ∧
  timers (run st (replicate (length promises) (TimerFired (length pre)))) = pre ∧
  flight (run st (replicate (length promises) (TimerFired (length pre))))
  = flight st.
Proof.
  revert st c.
  induction promises as [|[index src0] promises IH]; intros st c Ht Hc.
  - cbn in *. rewrite app_nil_r in Ht. repeat split; [| exact Ht].
    rewrite Hc. now destruct c.
  - cbn [length replicate].
    assert (Hstep : step st (TimerFired (length pre))
                    = loadSingleImage_swap card index src0
                        (set_timers (pre ++ swap_timers card promises) st)).
    { unfold step. rewrite Ht. cbn [swap_timers fmap list_fmap fst snd].
      rewrite list_lookup_middle by reflexivity.
      now rewrite delete_middle. }
    change (run st (TimerFired (length pre)
                      :: replicate (length promises) (TimerFired (length pre))))
      with (run (step st (TimerFired (length pre)))
              (replicate (length promises) (TimerFired (length pre)))).
    rewrite Hstep.
    destruct (IH (loadSingleImage_swap card index src0
                    (set_timers (pre ++ swap_timers card promises) st))
                (update_image index (reveal src0) c)) as (IH1 & IH2 & IH3).
    { reflexivity. }
    { unfold loadSingleImage_swap.
      exact (update_card_lookup card _ _ c Hc). }
    rewrite IH1, IH2, IH3. repeat split.
Qed.

Lemma prepare_thumbnails_placeholder (c : Card) (index : nat) (imgs : list Img) :
  Forall2 (λ before after,
             src after = if is_thumbnail before then getPlaceholderDataURL
                         else src before)
    imgs (prepare_thumbnails c index imgs).
Proof.
  revert index. induction imgs as [|i imgs IH]; intros index; [constructor |].
  cbn [prepare_thumbnails]. destruct (is_thumbnail i) eqn:Ht;
    (constructor; [now rewrite Ht | apply IH]).
Qed.

(** X11: a card is registered, comes into view, and all its images load.
    While the card waits, each of its thumbnails shows the placeholder;
    once the timers of the loads have fired, every image of the card shows
    the address it had before, none is marked for lazy loading, the loading
    indicator is gone, the name of the card is loaded, and no timer of the
    load is left. *)
Theorem thumbnails_come_back (st : Loader) (card : nat) (c0 : Card) :
  page st !! card = Some c0 →
  observer st ≠ None →
  card ∉ observedCards st →
  findThumbnailImages c0 ≠ [] →
  Forall untouched (images c0) →
  ¬ known (cardName st card) st →
  Forall (λ call, s_card call ≠ card) (awaiting st) →
  let n := length (findThumbnailImages c0) in
  let waiting := run st [ProcessCard card] in
  let st' := run st ([ProcessCard card; Intersection [(card, true)];
                      ThumbnailsSettled card (replicate n Fulfilled)]
                     ++ replicate n (TimerFired (length (timers st)))) in
  Forall2 (λ before after,
             src after = if is_thumbnail before then getPlaceholderDataURL
                         else src before)
    (images c0) (images (card_of waiting card)) ∧
  src <$> images (card_of st' card) = src <$> images c0 ∧
  Forall (λ i, lazyLoading i = false) (images (card_of st' card)) ∧
  indicator (card_of st' card) = false ∧
  cardName st card ∈ loadedImages st' ∧
  timers st' = timers st.
Proof.
  intros Hc Hobs Hnew Hth Hfresh Hunknown Hcalls n waiting st'.
  destruct (processCard_prepares card st c0 Hc Hnew Hth Hobs)
    as (c1 & H1 & Himg & Hname & Hind & Ht1).
  pose proof (processCard_flight card st) as Hf1.
  set (st1 := snd (processCard card st)) in *.
  unfold flight in Hf1. injection Hf1 as Hl1 Hg1 Ha1.
  assert (Hn1 : cardName st1 card = cardName st card).
  { unfold cardName, card_of. rewrite H1, Hc. cbn [from_option id].
    unfold name_or_unnamed. now rewrite Hname. }
  split.
  { subst waiting. change (run st [ProcessCard card]) with st1.
    unfold card_of. rewrite H1. cbn [from_option id]. rewrite Himg.
    apply prepare_thumbnails_placeholder. }
  set (ps := lazy_images 0 (images c1)).
  set (call := {| s_card := card; s_cardName := cardName st card;
                  s_promises := ps |}).
  assert (Hps : length ps = n).
  { subst ps n. rewrite Himg. now apply lazy_images_length. }
  (* the card comes into view *)
  set (st2 := step st1 (Intersection [(card, true)])).
  assert (H2 : page st2 = page st1 ∧ timers st2 = timers st ∧
               awaiting st2 = awaiting st ++ [call] ∧
               loadedImages st2 = loadedImages st).
  { subst st2. cbn [step handleIntersection foldl fst snd].
    unfold loadCardThumbnails. rewrite Hn1, Hl1, Hg1.
    rewrite bool_decide_eq_false_2 by (intros H; apply Hunknown; now left).
    rewrite bool_decide_eq_false_2 by (intros H; apply Hunknown; now right).
    cbn [orb]. unfold unobserve, card_of.
    cbn [observer set_awaiting set_loadingImages page awaiting].
    rewrite H1. cbn [from_option id]. fold ps. fold call. rewrite Ha1.
    destruct (observer st1); now repeat split. }
  destruct H2 as (Hp2 & Ht2 & Ha2 & Hl2).
  (* the loads succeed *)
  set (st3 := step st2 (ThumbnailsSettled card (replicate n Fulfilled))).
  assert (H3 : page st3 !! card
               = Some (set_indicator false
                         (set_images (alter_each (λ _, dim) ps (images c1)) c1)) ∧
               timers st3 = timers st ++ swap_timers card ps ∧
               cardName st card ∈ loadedImages st3).
  { subst st3. cbn [step]. rewrite Ha2.
    rewrite (resume_call_last card (awaiting st) call Hcalls eq_refl).
    cbn [s_promises call]. rewrite length_replicate, Hps, Nat.eqb_refl.
    rewrite <- Hps.
    destruct (settle_fulfilled card ps (set_awaiting (awaiting st) st2) c1)
      as [Hs1 Hs2].
    { cbn [page set_awaiting]. now rewrite Hp2. }
    set (settled := settle card ps (replicate (length ps) Fulfilled)
                      (set_awaiting (awaiting st) st2)) in *.
    unfold loadCardThumbnails_resume, Promise_allSettled.
    cbn [s_card s_cardName call].
    unfold removeLoadingIndicator, card_of.
    cbn [page set_loadedImages]. rewrite Hs1. cbn [from_option id].
    cbn [indicator set_images]. rewrite Hind.
    cbn [page set_loadingImages timers loadedImages].
    split; [exact (update_card_lookup card _ _ _ Hs1) |].
    split; [cbn; rewrite Hs2; cbn [timers set_awaiting]; now rewrite Ht2 |].
    cbn. apply elem_of_union. left. now apply elem_of_singleton. }
  destruct H3 as (Hp3 & Ht3 & Hl3).
  (* the timers of the loads fire *)
  assert (Hrun : st' = run st3 (replicate (length ps)
                                  (TimerFired (length (timers st))))).
  { subst st'. unfold run. rewrite foldl_app, Hps. reflexivity. }
  destruct (fire_swaps card ps (timers st) st3 _ Ht3 Hp3) as (Hp4 & Ht4 & Hf4).
  rewrite <- Hrun in Hp4, Ht4, Hf4.
  unfold card_of. rewrite Hp4. cbn [from_option id images set_images indicator
                                     set_indicator].
  subst ps. rewrite Himg.
  destruct (images_restored c0 (images c0) Hfresh) as [Hsrc Hlazy].
  split; [exact Hsrc |]. split; [exact Hlazy |].
  split; [apply Hind || reflexivity |].
  split; [| exact Ht4].
  unfold flight in Hf4. injection Hf4 as Hl4 _ _. now rewrite Hl4.
Qed.

Lemma thumbnails_come_back_witness :
  src <$> images
            (card_of
               (ThumbnailLoader.run scenario_loader
                  ([ProcessCard 0%nat; Intersection [(0%nat, true)];
                    ThumbnailsSettled 0%nat [Fulfilled]]
                   ++ [TimerFired 0%nat])) 0%nat)
  = ["http://host/sd_extra_networks/thumb?filename=a.png"].
Proof.
  assert (Hpage : page scenario_loader !! 0%nat
                  = Some (scenario_card (Some "model-a")
                            ["http://host/sd_extra_networks/thumb?filename=a.png"]))
    by (vm_compute; reflexivity).
  assert (Hobs : observer scenario_loader ≠ None) by discriminate.
  assert (Hnew : 0%nat ∉ observedCards scenario_loader)
    by apply not_elem_of_nil.
  assert (Hth : findThumbnailImages
                  (scenario_card (Some "model-a")
                     ["http://host/sd_extra_networks/thumb?filename=a.png"])
                ≠ []) by (vm_compute; discriminate).
  assert (Hfresh : Forall untouched
                     (images (scenario_card (Some "model-a")
                        ["http://host/sd_extra_networks/thumb?filename=a.png"])))
    by (repeat constructor).
  assert (Hunknown : ¬ known (cardName scenario_loader 0%nat) scenario_loader)
    by (intros [H | H]; exact (not_elem_of_empty _ H)).
  assert (Hcalls : Forall (λ call, s_card call ≠ 0%nat)
                     (awaiting scenario_loader)) by constructor.
  exact (proj1 (proj2 (thumbnails_come_back scenario_loader 0%nat _
                         Hpage Hobs Hnew Hth Hfresh Hunknown Hcalls))).
Defined.

(** ** The scan of the page *)

Lemma processCard_skips (card : nat) (st : Loader) :
  (card ∈ observedCards st) ∨ findThumbnailImages (card_of st card) = [] →
  processCard card st = (Returned false, st).
Proof.
  intros [H | H]; unfold processCard.
  - now rewrite bool_decide_eq_true_2.
  - rewrite H. cbn [length Nat.eqb]. now case_match.
Qed.

Lemma processCard_registers (card : nat) (st : Loader) (targets : gset nat) :
  card ∉ observedCards st → findThumbnailImages (card_of st card) ≠ [] →
  observer st = Some targets →
  ∃ st' : Loader,
    processCard card st = (Returned true, st') ∧
    observedCards st' = observedCards st ++ [card] ∧
    observer st' = Some ({[card]} ∪ targets) ∧
    (∀ card' : nat, card' ≠ card → page st' !! card' = page st !! card') ∧
    flight st' = flight st ∧
    timers st' = timers st.
Proof.
  intros Hnew Hth Hobs. unfold processCard.
  rewrite bool_decide_eq_false_2 by exact Hnew.
  destruct (findThumbnailImages (card_of st card)) as [|t ts]; [done |].
  cbn [length Nat.eqb]. unfold Set_add.
  rewrite bool_decide_eq_false_2 by exact Hnew.
  unfold addLoadingIndicator.
  match goal with |- context [if ?b then _ else _] => destruct b end.
  - cbn [observer update_card set_page set_observedCards]. rewrite Hobs.
    eexists. split; [reflexivity |]. cbn.
    repeat split. intros card' Hne. now rewrite lookup_alter_ne.
  - cbn [observer update_card set_page set_observedCards]. rewrite Hobs.
    eexists. split; [reflexivity |]. cbn.
    repeat split. intros card' Hne. now rewrite !lookup_alter_ne.
Qed.

Lemma card_of_page (st st' : Loader) (card : nat) :
  page st' !! card = page st !! card → card_of st' card = card_of st card.
Proof. unfold card_of. now intros ->. Qed.

(** The scan of a list of cards, with an observer in place: it returns, and
    the cards it leaves tracked are those tracked before and those of the
    list in which [findThumbnailImages] finds an image; the new ones among
    them are the targets that it adds to the observer. A card that stays
    untracked is left as it was. *)
Lemma process_cards_spec (cards : list nat) (st : Loader) (targets : gset nat) :
  observer st = Some targets →
  ∃ (st' : Loader) (targets' : gset nat),
    process_cards cards st = (Returned (), st') ∧
    observer st' = Some targets' ∧
    (∀ card : nat,
       card ∈ observedCards st' ↔
       card ∈ observedCards st ∨
       (card ∈ cards ∧ findThumbnailImages (card_of st card) ≠ [])) ∧
    (∀ card : nat,
       card ∈ targets' ↔
       card ∈ targets ∨
       ((card ∉ observedCards st) ∧ card ∈ cards ∧
        findThumbnailImages (card_of st card) ≠ [])) ∧
    (∀ card : nat, card ∉ observedCards st' → page st' !! card = page st !! card) ∧
    flight st' = flight st ∧
    timers st' = timers st.
Proof.
  revert st targets.
  induction cards as [|card rest IH]; intros st targets Hobs.
  - exists st, targets. cbn [process_cards].
    split; [reflexivity |]. split; [exact Hobs |].
    split.
    { intros card. split; [now left |].
      intros [H | [H _]]; [exact H | now apply elem_of_nil in H]. }
    split.
    { intros card. split; [now left |].
      intros [H | (_ & H & _)]; [exact H | now apply elem_of_nil in H]. }
    now repeat split.
  - cbn [process_cards].
    destruct (decide (card ∈ observedCards st)) as [Hin | Hnew].
    { rewrite (processCard_skips card st (or_introl Hin)).
      destruct (IH st targets Hobs)
        as (st' & targets' & Hrun & Hobs' & Htr & Htg & Hpg & Hfl & Htm).
      exists st', targets'. split; [exact Hrun |]. split; [exact Hobs' |].
      split.
      { intros c. rewrite Htr. split.
        - intros [H | [H Hth]]; [now left |].
          right. split; [| exact Hth]. now apply elem_of_cons; right.
        - intros [H | [H Hth]]; [now left |].
          apply elem_of_cons in H as [-> | H]; [now left | now right]. }
      split.
      { intros c. rewrite Htg. split.
        - intros [H | (Hn & H & Hth)]; [now left |].
          right. repeat split; [exact Hn | | exact Hth].
          now apply elem_of_cons; right.
        - intros [H | (Hn & H & Hth)]; [now left |].
          apply elem_of_cons in H as [-> | H]; [done | now right]. }
      now repeat split. }
    destruct (decide (findThumbnailImages (card_of st card) = []))
      as [Hnone | Hth].
    { rewrite (processCard_skips card st (or_intror Hnone)).
      destruct (IH st targets Hobs)
        as (st' & targets' & Hrun & Hobs' & Htr & Htg & Hpg & Hfl & Htm).
      exists st', targets'. split; [exact Hrun |]. split; [exact Hobs' |].
      split.
      { intros c. rewrite Htr. split.
        - intros [H | [H Hc]]; [now left |].
          right. split; [| exact Hc]. now apply elem_of_cons; right.
        - intros [H | [H Hc]]; [now left |].
          apply elem_of_cons in H as [-> | H]; [done | now right]. }
      split.
      { intros c. rewrite Htg. split.
        - intros [H | (Hn & H & Hc)]; [now left |].
          right. repeat split; [exact Hn | | exact Hc].
          now apply elem_of_cons; right.
        - intros [H | (Hn & H & Hc)]; [now left |].
          apply elem_of_cons in H as [-> | H]; [done | now right]. }
      now repeat split. }
    destruct (processCard_registers card st targets Hnew Hth Hobs)
      as (st1 & Hp & Ho1 & Hobs1 & Hpg1 & Hfl1 & Htm1).
    rewrite Hp.
    destruct (IH st1 _ Hobs1)
      as (st' & targets' & Hrun & Hobs' & Htr & Htg & Hpg & Hfl & Htm).
    exists st', targets'. split; [exact Hrun |]. split; [exact Hobs' |].
    assert (Hsame : ∀ c : nat, c ≠ card →
              findThumbnailImages (card_of st1 c)
              = findThumbnailImages (card_of st c)).
    { intros c Hne. now rewrite (card_of_page st st1 c (Hpg1 c Hne)). }
    split.
    { intros c. rewrite Htr, Ho1, elem_of_app, list_elem_of_singleton.
      destruct (decide (c = card)) as [-> | Hne].
      - split; intros _; [| left; now right].
        right. split; [now apply elem_of_cons; left | exact Hth].
      - rewrite (Hsame c Hne). split.
        + intros [[H | H] | [H Hc]]; [now left | done |].
          right. split; [now apply elem_of_cons; right | exact Hc].
        + intros [H | [H Hc]]; [left; now left |].
          apply elem_of_cons in H as [-> | H]; [done | now right]. }
    split.
    { intros c. rewrite Htg, Ho1, elem_of_union, elem_of_singleton.
      destruct (decide (c = card)) as [-> | Hne].
      - split; intros _; [| left; now left].
        right. repeat split; [exact Hnew | | exact Hth].
        now apply elem_of_cons; left.
      - rewrite (Hsame c Hne). split.
        + intros [[H | H] | (Hn & H & Hc)]; [done | now left |].
          right. repeat split; [| now apply elem_of_cons; right | exact Hc].
          intros Hin. apply Hn, elem_of_app. now left.
        + intros [H | (Hn & H & Hc)]; [left; now right |].
          apply elem_of_cons in H as [-> | H]; [done |].
          right. repeat split; [| exact H | exact Hc].
          intros Hin. apply elem_of_app in Hin as [Hin | Hin]; [done |].
          now apply list_elem_of_singleton in Hin. }
    split.
    { intros c Hn. rewrite (Hpg c Hn). apply Hpg1. intros ->.
      apply Hn, Htr. left. rewrite Ho1. apply elem_of_app. right.
      now apply list_elem_of_singleton. }
    split; [now rewrite Hfl | now rewrite Htm].
Qed.

Lemma newVisibleCards_spec (allCards : list nat) (rendered : gset nat)
    (st : Loader) (card : nat) :
  card ∈ List.filter
           (λ card : nat,
              bool_decide (card ∈ rendered)
              && negb (bool_decide (card ∈ observedCards st))) allCards
  ↔ card ∈ allCards ∧ card ∈ rendered ∧ (card ∉ observedCards st).
Proof.
  rewrite list_elem_of_In, filter_In, <- list_elem_of_In, andb_true_iff,
    negb_true_iff, bool_decide_eq_true, bool_decide_eq_false.
  tauto.
Qed.

Lemma process_cards_skips (cards : list nat) (st : Loader) :
  Forall (λ card, card ∈ observedCards st
                  ∨ findThumbnailImages (card_of st card) = []) cards →
  process_cards cards st = (Returned (), st).
Proof.
  induction 1 as [|card cards H _ IH]; [reflexivity |].
  cbn [process_cards]. now rewrite (processCard_skips card st H).
Qed.

(** X12: a scan of a page that has cards, by a loader that has its
    observer and is not in a scan already. The scan returns, leaves the
    loader ready for the next scan and sets no timer. The cards tracked
    after it are the cards tracked before and the rendered cards of the page
    in which [findThumbnailImages] finds an image; the observer gets as new
    targets exactly those of them that were not tracked before. Loads in
    flight and pending timers of the loads are left as they are. *)
Theorem scan_tracks_rendered_cards_with_thumbnails
    (allCards : list nat) (rendered : gset nat) (c : Controller)
    (targets : gset nat) :
  isProcessing c = false →
  observer (core c) = Some targets →
  allCards ≠ [] →
  ∃ (c' : Controller) (targets' : gset nat),
    processAllCards allCards rendered c = (Returned (), c') ∧
    isProcessing c' = false ∧
    scan_timers c' = scan_timers c ∧
    observer (core c') = Some targets' ∧
    (∀ card : nat,
       card ∈ observedCards (core c') ↔
       card ∈ observedCards (core c) ∨
       (card ∈ allCards ∧ card ∈ rendered ∧
        findThumbnailImages (card_of (core c) card) ≠ [])) ∧
    (∀ card : nat,
       card ∈ targets' ↔
       card ∈ targets ∨
       ((card ∉ observedCards (core c)) ∧ card ∈ allCards ∧ card ∈ rendered ∧
        findThumbnailImages (card_of (core c) card) ≠ [])) ∧
    flight (core c') = flight (core c) ∧
    timers (core c') = timers (core c).
Proof.
  intros Hidle Hobs Hcards. unfold processAllCards. rewrite Hidle.
  destruct allCards as [|card0 rest]; [done |]. cbn [length Nat.eqb].
  cbn [core set_isProcessing].
  set (allCards := card0 :: rest) in *.
  set (newVisibleCards := List.filter _ allCards).
  destruct (process_cards_spec newVisibleCards (core c) targets Hobs)
    as (st' & targets' & Hrun & Hobs' & Htr & Htg & _ & Hfl & Htm).
  rewrite Hrun. eexists. exists targets'.
  split; [reflexivity |]. cbn [isProcessing scan_timers core set_core
                                set_isProcessing].
  split; [reflexivity |]. split; [reflexivity |]. split; [exact Hobs' |].
  split.
  { intros card. rewrite Htr. subst newVisibleCards.
    rewrite newVisibleCards_spec.
    destruct (decide (card ∈ observedCards (core c))); tauto. }
  split; [| now split].
  intros card. rewrite Htg. subst newVisibleCards.
  rewrite newVisibleCards_spec. tauto.
Qed.

Lemma scan_tracks_rendered_cards_with_thumbnails_witness :
  ∃ (c' : Controller) (targets' : gset nat),
    processAllCards [0%nat; 1%nat; 2%nat] {[0%nat; 2%nat]}
      (set_core scenario_loader (new_controller scenario_page))
    = (Returned (), c') ∧
    isProcessing c' = false ∧
    scan_timers c' = [] ∧
    observer (core c') = Some targets' ∧
    (∀ card : nat,
       card ∈ observedCards (core c') ↔
       card ∈ [] ∨
       (card ∈ [0%nat; 1%nat; 2%nat] ∧ card ∈ ({[0%nat; 2%nat]} : gset nat) ∧
        findThumbnailImages (card_of scenario_loader card) ≠ [])) ∧
    (∀ card : nat,
       card ∈ targets' ↔
       card ∈ (∅ : gset nat) ∨
       ((card ∉ []) ∧ card ∈ [0%nat; 1%nat; 2%nat] ∧
        card ∈ ({[0%nat; 2%nat]} : gset nat) ∧
        findThumbnailImages (card_of scenario_loader card) ≠ [])) ∧
    flight (core c') = flight scenario_loader ∧
    timers (core c') = [].
Proof.
  apply (scan_tracks_rendered_cards_with_thumbnails
           [0%nat; 1%nat; 2%nat] {[0%nat; 2%nat]}
           (set_core scenario_loader (new_controller scenario_page)) ∅).
  - reflexivity.
  - reflexivity.
  - discriminate.
Defined.

(** X13: a second scan of a page that has not changed does nothing: it
    returns and leaves the loader, the cards and the observer exactly as the
    first scan left them. *)
Theorem rescan_of_unchanged_page_changes_nothing
    (allCards : list nat) (rendered : gset nat) (c c' : Controller) :
  isProcessing c = false →
  observer (core c) ≠ None →
  allCards ≠ [] →
  processAllCards allCards rendered c = (Returned (), c') →
  processAllCards allCards rendered c' = (Returned (), c').
Proof.
  intros Hidle Hobs Hcards Hscan.
  destruct (observer (core c)) as [targets|] eqn:Ho; [clear Hobs | done].
  unfold processAllCards in Hscan. rewrite Hidle in Hscan.
  destruct allCards as [|card0 rest]; [done |]. cbn [length Nat.eqb] in Hscan.
  cbn [core set_isProcessing] in Hscan.
  set (allCards := card0 :: rest) in *.
  destruct (process_cards_spec
              (List.filter
                 (λ card : nat,
                    bool_decide (card ∈ rendered)
                    && negb (bool_decide (card ∈ observedCards (core c))))
                 allCards) (core c) targets Ho)
    as (st' & targets' & Hrun & Hobs' & Htr & _ & Hpg & _ & _).
  rewrite Hrun in Hscan. injection Hscan as <-.
  unfold processAllCards. cbn [isProcessing set_isProcessing set_core].
  subst allCards. cbn [length Nat.eqb]. set (allCards := card0 :: rest) in *.
  cbn [core set_core set_isProcessing].
  rewrite process_cards_skips; [reflexivity |].
  apply Forall_forall. intros card Hin.
  apply newVisibleCards_spec in Hin as (Hin & Hr & Hn).
  right.
  rewrite (card_of_page (core c) st' card (Hpg card Hn)).
  destruct (decide (findThumbnailImages (card_of (core c) card) = []))
    as [He | Hne]; [exact He |].
  exfalso. apply Hn, Htr. right. split; [| exact Hne].
  apply newVisibleCards_spec. repeat split; [exact Hin | exact Hr |].
  intros Ht. apply Hn, Htr. now left.
Qed.

Lemma rescan_of_unchanged_page_changes_nothing_witness :
  processAllCards [0%nat; 1%nat; 2%nat] {[0%nat; 2%nat]}
    (snd (processAllCards [0%nat; 1%nat; 2%nat] {[0%nat; 2%nat]}
            (set_core scenario_loader (new_controller scenario_page))))
  = (Returned (),
     snd (processAllCards [0%nat; 1%nat; 2%nat] {[0%nat; 2%nat]}
            (set_core scenario_loader (new_controller scenario_page)))).
Proof.
  apply (rescan_of_unchanged_page_changes_nothing
           [0%nat; 1%nat; 2%nat] {[0%nat; 2%nat]}
           (set_core scenario_loader (new_controller scenario_page))).
  - reflexivity.
  - discriminate.
  - discriminate.
  - vm_compute. reflexivity.
Defined.

(** ** The debounce of the mutation handler *)

Lemma filter_elem {A : Type} (p : A → bool) (l : list A) (x : A) :
  x ∈ List.filter p l → x ∈ l.
Proof. rewrite !list_elem_of_In, filter_In. tauto. Qed.

Lemma take_timer_elem (id : nat) (ts ts' : list (nat * (Z * ScanTimer)))
    (t : nat * (Z * ScanTimer)) :
  take_timer id ts = Some ts' → t ∈ ts' → t ∈ ts.
Proof.
  revert ts'. induction ts as [|t0 ts IH]; intros ts' H Hin; [discriminate |].
  cbn [take_timer] in H. destruct (fst t0 =? id)%nat.
  - injection H as <-. now apply elem_of_cons; right.
  - destruct (take_timer id ts) as [rest|]; [| discriminate].
    injection H as <-. apply elem_of_cons in Hin as [-> | Hin].
    + now apply elem_of_cons; left.
    + apply elem_of_cons; right. now apply (IH rest).
Qed.

Lemma NoDup_fst_filter {A : Type} (p : nat * A → bool) (l : list (nat * A)) :
  NoDup (fst <$> l) → NoDup (fst <$> List.filter p l).
Proof.
  induction l as [|t l IH]; intros H; [constructor |].
  cbn in H. apply NoDup_cons in H as [Hn Hd].
  cbn [List.filter]. destruct (p t); [| now apply IH].
  cbn. apply NoDup_cons. split; [| now apply IH].
  intros Hin. apply Hn. apply list_elem_of_fmap in Hin as (t' & -> & Hin).
  apply list_elem_of_fmap. exists t'. split; [reflexivity |].
  now apply filter_elem in Hin.
Qed.

Lemma take_timer_NoDup (id : nat) (ts ts' : list (nat * (Z * ScanTimer))) :
  take_timer id ts = Some ts' → NoDup (fst <$> ts) → NoDup (fst <$> ts').
Proof.
  revert ts'. induction ts as [|t0 ts IH]; intros ts' H Hd; [discriminate |].
  cbn in Hd. apply NoDup_cons in Hd as [Hn Hd].
  cbn [take_timer] in H. destruct (fst t0 =? id)%nat.
  - now injection H as <-.
  - destruct (take_timer id ts) as [rest|] eqn:E; [| discriminate].
    injection H as <-. cbn. apply NoDup_cons. split; [| now apply IH].
    intros Hin. apply Hn. apply list_elem_of_fmap in Hin as (t' & -> & Hin).
    apply list_elem_of_fmap. exists t'. split; [reflexivity |].
    now apply (take_timer_elem id ts rest).
Qed.

Lemma debounced_fields (c c' : Controller) :
  scan_timers c' = scan_timers c → mutationTimeout c' = mutationTimeout c →
  next_timer_id c' = next_timer_id c → debounced c → debounced c'.
Proof. unfold debounced. now intros -> -> ->. Qed.

Lemma debounced_shrink (c : Controller) (ts : list (nat * (Z * ScanTimer))) :
  (∀ t, t ∈ ts → t ∈ scan_timers c) → NoDup (fst <$> ts) →
  debounced c → debounced (set_scan_timers ts c).
Proof.
  intros Hsub Hd (H1 & H2 & _). unfold debounced.
  cbn [scan_timers mutationTimeout next_timer_id set_scan_timers].
  split; [| split]; [| | exact Hd].
  - intros t Hin. apply H1, Hsub, Hin.
  - intros t Hin. apply H2, Hsub, Hin.
Qed.

Lemma debounced_rescan (c c' : Controller) (delay : Z) :
  scan_timers c' = scan_timers c ++ [(next_timer_id c, (delay, Rescan))] →
  mutationTimeout c' = mutationTimeout c →
  next_timer_id c' = S (next_timer_id c) →
  debounced c → debounced c'.
Proof.
  intros Ht Hm Hn (H1 & H2 & H3). unfold debounced. rewrite Ht, Hm, Hn.
  split; [| split].
  - intros t Hin Hr. apply elem_of_app in Hin as [Hin | Hin];
      [now apply H1 |].
    apply list_elem_of_singleton in Hin. subst t. discriminate.
  - intros t Hin. apply elem_of_app in Hin as [Hin | Hin].
    + specialize (H2 t Hin). lia.
    + apply list_elem_of_singleton in Hin. subst t. cbn. lia.
  - rewrite fmap_app. apply NoDup_app. split; [exact H3 |].
    split; [| cbn; apply NoDup_singleton].
    intros x Hin Hx. cbn in Hx. apply list_elem_of_singleton in Hx. subst x.
    apply list_elem_of_fmap in Hin as (t & Heq & Hin).
    specialize (H2 t Hin). lia.
Qed.

Lemma processAllCards_debounced (allCards : list nat) (rendered : gset nat)
    (c : Controller) :
  debounced c → debounced (snd (processAllCards allCards rendered c)).
Proof.
  intros H. unfold processAllCards.
  destruct (isProcessing c); [exact H |].
  destruct (length allCards =? 0)%nat.
  - now apply (debounced_rescan c _ 1000).
  - destruct (process_cards _ _) as [[[]|] st];
      now apply (debounced_fields c).
Qed.

Lemma clearTimeout_debounced (id : option nat) (c : Controller) :
  debounced c → debounced (clearTimeout id c).
Proof.
  intros H. destruct id as [n|]; [| exact H]. cbn [clearTimeout].
  apply debounced_shrink; [| | exact H].
  - intros t. apply filter_elem.
  - apply NoDup_fst_filter, H.
Qed.

(** After [clearTimeout(this.mutationTimeout)] no timer of the mutation
    handler is pending. *)
Lemma clearTimeout_clears (c : Controller) :
  debounced c → mutation_rescans (clearTimeout (mutationTimeout c) c) = [].
Proof.
  intros (H1 & _ & _). unfold mutation_rescans.
  destruct (mutationTimeout c) as [n|] eqn:Hm; cbn [clearTimeout scan_timers
                                                     set_scan_timers].
  - induction (scan_timers c) as [|t ts IH]; [reflexivity |].
    cbn [List.filter]. destruct (negb (fst t =? n)%nat) eqn:Hid.
    + cbn [List.filter]. destruct (is_mutation_rescan t) eqn:Hr.
      * specialize (H1 t (list_elem_of_here _ _) Hr). injection H1 as ->.
        now rewrite Nat.eqb_refl in Hid.
      * apply IH. intros t' Hin. apply H1. now apply elem_of_cons; right.
    + apply IH. intros t' Hin. apply H1. now apply elem_of_cons; right.
  - induction (scan_timers c) as [|t ts IH]; [reflexivity |].
    cbn [List.filter]. destruct (is_mutation_rescan t) eqn:Hr.
    + now specialize (H1 t (list_elem_of_here _ _) Hr).
    + apply IH. intros t' Hin. apply H1. now apply elem_of_cons; right.
Qed.

Lemma mutation_handler_relevant (mutations : list MutationRecord)
    (c : Controller) :
  List.filter is_relevant mutations ≠ [] →
  mutation_handler mutations c
  = set_mutationTimeout (Some (next_timer_id c))
      (snd (scan_setTimeout MutationRescan mutationDebounce
              (clearTimeout (mutationTimeout c) c))).
Proof.
  intros H. unfold mutation_handler.
  destruct (List.filter is_relevant mutations); [done |].
  cbn [length Nat.eqb]. destruct (mutationTimeout c); reflexivity.
Qed.

Lemma mutation_handler_debounced (mutations : list MutationRecord)
    (c : Controller) :
  debounced c → debounced (mutation_handler mutations c).
Proof.
  intros H.
  destruct (decide (List.filter is_relevant mutations = [])) as [He | Hne].
  { unfold mutation_handler. now rewrite He. }
  rewrite (mutation_handler_relevant mutations c Hne).
  pose proof (clearTimeout_clears c H) as Hclear.
  pose proof (clearTimeout_debounced (mutationTimeout c) c H) as (_ & H2 & H3).
  assert (Hnext : next_timer_id (clearTimeout (mutationTimeout c) c)
                  = next_timer_id c) by (now destruct (mutationTimeout c)).
  set (c1 := clearTimeout (mutationTimeout c) c) in *.
  unfold debounced, scan_setTimeout.
  cbn [snd scan_timers mutationTimeout next_timer_id set_mutationTimeout
       set_next_timer_id set_scan_timers].
  rewrite Hnext. split; [| split].
  - intros t Hin Hr. apply elem_of_app in Hin as [Hin | Hin].
    + exfalso. unfold mutation_rescans in Hclear.
      assert (Hf : t ∈ List.filter is_mutation_rescan (scan_timers c1))
        by (rewrite list_elem_of_In, filter_In, <- list_elem_of_In; now split).
      rewrite Hclear in Hf. now apply elem_of_nil in Hf.
    + apply list_elem_of_singleton in Hin. now subst t.
  - intros t Hin. apply elem_of_app in Hin as [Hin | Hin].
    + specialize (H2 t Hin). lia.
    + apply list_elem_of_singleton in Hin. subst t. cbn. lia.
  - rewrite fmap_app. apply NoDup_app. split; [exact H3 |].
    split; [| cbn; apply NoDup_singleton].
    intros x Hin Hx. cbn in Hx. apply list_elem_of_singleton in Hx. subst x.
    apply list_elem_of_fmap in Hin as (t & Heq & Hin).
    specialize (H2 t Hin). lia.
Qed.

Lemma controller_step_debounced (c : Controller) (e : ControllerEvent) :
  debounced c → debounced (controller_step c e).
Proof.
  intros H.
  destruct e as [e | allCards rendered | | allCards rendered | mutations
                | id allCards rendered]; cbn [controller_step].
  - now apply (debounced_fields c).
  - unfold initialize. destruct (isInitialized c); [exact H |].
    pose proof (processAllCards_debounced allCards rendered
                  (set_core (create_observer (core c)) c)) as Hp.
    destruct (processAllCards _ _ _) as [[[]|] c'].
    + cbn [snd] in *. apply (debounced_fields c'); try reflexivity.
      apply Hp. now apply (debounced_fields c).
    + cbn [snd] in *. apply Hp. now apply (debounced_fields c).
  - unfold destroy. destruct (observer (core c)).
    + apply (debounced_fields
               (clearTimeout (mutationTimeout c)
                  (set_core (set_observer (Some ∅) (core c)) c)));
        try reflexivity.
      apply (clearTimeout_debounced (mutationTimeout c)).
      now apply (debounced_fields c).
    + apply (debounced_fields (clearTimeout (mutationTimeout c) c));
        try reflexivity.
      now apply clearTimeout_debounced.
  - unfold reinitialize. apply processAllCards_debounced.
    now apply (debounced_fields c).
  - now apply mutation_handler_debounced.
  - unfold fire_scan_timer.
    destruct (take_timer id (scan_timers c)) as [ts|] eqn:E; [| exact H].
    apply processAllCards_debounced, debounced_shrink; [| | exact H].
    + intros t. now apply (take_timer_elem id).
    + apply (take_timer_NoDup id (scan_timers c)); [exact E | apply H].
Qed.

Lemma controller_run_debounced (es : list ControllerEvent) (c : Controller) :
  debounced c → debounced (controller_run c es).
Proof.
  revert c. induction es as [|e es IH]; intros c H; [exact H |].
  apply IH, controller_step_debounced, H.
Qed.

Lemma new_controller_debounced (cards : gmap nat Card) :
  debounced (new_controller cards).
Proof.
  unfold debounced. cbn. split; [| split]; [| | constructor];
    intros t Hin; now apply elem_of_nil in Hin.
Qed.

Lemma debounced_at_most_one (c : Controller) :
  debounced c → (length (mutation_rescans c) <= 1)%nat.
Proof.
  intros (H1 & _ & H3). unfold mutation_rescans.
  pose proof (NoDup_fst_filter is_mutation_rescan (scan_timers c) H3) as Hd.
  assert (Hall : ∀ t, t ∈ List.filter is_mutation_rescan (scan_timers c) →
                      mutationTimeout c = Some (fst t)).
  { intros t Hin.
    rewrite list_elem_of_In, filter_In, <- list_elem_of_In in Hin.
    now apply H1. }
  destruct (List.filter is_mutation_rescan (scan_timers c))
    as [|t1 [|t2 rest]]; cbn [length]; [lia | lia |].
  exfalso.
  pose proof (Hall t1 (list_elem_of_here _ _)) as E1.
  pose proof (Hall t2 (list_elem_of_further _ _ _ (list_elem_of_here _ _))) as E2.
  rewrite E1 in E2. injection E2 as E.
  cbn in Hd. apply NoDup_cons in Hd as [Hn _]. apply Hn.
  rewrite E. now apply elem_of_cons; left.
Qed.

(** X14: whatever happens to the loader after its construction, at most one
    timer of the mutation handler is pending. A batch of mutations that adds
    a card leaves exactly one, the new one, with the delay
    [mutationDebounce]: the timer set for an earlier batch is cleared. A
    batch that adds no card changes nothing. *)
Theorem mutation_rescans_are_debounced
    (cards : gmap nat Card) (es : list ControllerEvent)
    (mutations : list MutationRecord) :
  (length (mutation_rescans (controller_run (new_controller cards) es)) <= 1)%nat ∧
  (List.filter is_relevant mutations ≠ [] →
   mutation_rescans
     (mutation_handler mutations (controller_run (new_controller cards) es))
   = [(next_timer_id (controller_run (new_controller cards) es),
       (mutationDebounce, MutationRescan))]) ∧
  (List.filter is_relevant mutations = [] →
   mutation_handler mutations (controller_run (new_controller cards) es)
   = controller_run (new_controller cards) es).
Proof.
  pose proof (controller_run_debounced es _ (new_controller_debounced cards))
    as H.
  set (c := controller_run (new_controller cards) es) in *.
  split; [now apply debounced_at_most_one |]. split.
  - intros Hne. rewrite (mutation_handler_relevant mutations c Hne).
    pose proof (clearTimeout_clears c H) as Hclear.
    assert (Hnext : next_timer_id (clearTimeout (mutationTimeout c) c)
                    = next_timer_id c) by (now destruct (mutationTimeout c)).
    unfold mutation_rescans in *. unfold scan_setTimeout.
    cbn [snd scan_timers set_mutationTimeout set_next_timer_id
         set_scan_timers].
    now rewrite List.filter_app, Hclear, Hnext.
  - intros He. unfold mutation_handler. now rewrite He.
Qed.

Lemma mutation_rescans_are_debounced_witness :
  mutation_rescans
    (mutation_handler
       [{| mutation_type := ChildList;
           addedNodes := [{| nodeType := 1; class_card := true;
                             contains_card := false;
                             class_extra_network_cards := false |}] |}]
       (controller_run (new_controller scenario_page)
          [Initialize [] ∅;
           MutationsObserved
             [{| mutation_type := ChildList;
                 addedNodes := [{| nodeType := 1; class_card := false;
                                   contains_card := true;
                                   class_extra_network_cards := false |}] |}]]))
  = [(2%nat, (mutationDebounce, MutationRescan))].
Proof.
  apply (proj1 (proj2 (mutation_rescans_are_debounced scenario_page
                         [Initialize [] ∅;
                          MutationsObserved
                            [{| mutation_type := ChildList;
                                addedNodes :=
                                  [{| nodeType := 1; class_card := false;
                                      contains_card := true;
                                      class_extra_network_cards := false |}] |}]]
                         [{| mutation_type := ChildList;
                             addedNodes :=
                               [{| nodeType := 1; class_card := true;
                                   contains_card := false;
                                   class_extra_network_cards := false |}] |}]))).
  vm_compute. discriminate.
Defined.

(** ** Tear-down and set-up again *)

Lemma processAllCards_returns (allCards : list nat) (rendered : gset nat)
    (c : Controller) (targets : gset nat) :
  observer (core c) = Some targets →
  ∃ (c' : Controller) (targets' : gset nat),
    processAllCards allCards rendered c = (Returned (), c') ∧
    observer (core c') = Some targets' ∧
    (∀ card : nat,
       card ∈ targets' → card ∈ targets ∨ (card ∉ observedCards (core c))) ∧
    (∀ card : nat,
       card ∈ observedCards (core c) → card ∈ observedCards (core c')) ∧
    flight (core c') = flight (core c) ∧
    isInitialized c' = isInitialized c ∧
    mutation_observers c' = mutation_observers c.
Proof.
  intros Hobs. unfold processAllCards.
  destruct (isProcessing c).
  { exists c, targets. repeat split; auto. }
  destruct (length allCards =? 0)%nat.
  { eexists. exists targets. split; [reflexivity |]. cbn.
    repeat split; auto. }
  cbn [core set_isProcessing].
  destruct (process_cards_spec
              (List.filter
                 (λ card : nat,
                    bool_decide (card ∈ rendered)
                    && negb (bool_decide (card ∈ observedCards (core c))))
                 allCards) (core c) targets Hobs)
    as (st' & targets' & Hrun & Hobs' & Htr & Htg & _ & Hfl & _).
  rewrite Hrun. eexists. exists targets'. split; [reflexivity |]. cbn.
  split; [exact Hobs' |]. split.
  { intros card Hin. apply Htg in Hin as [Hin | [Hn _]]; [now left | now right]. }
  split; [| now repeat split].
  intros card Hin. apply Htr. now left.
Qed.

(** X15: [destroy()] followed by [initialize()]. The loader is initialized
    again, with a new observer and one more mutation observer, and it still
    tracks every card that it tracked before. No card that was tracked
    before is a target of the new observer: the scan of [initialize] passes
    over the tracked cards, so that a card whose thumbnails had not been
    loaded when the loader was destroyed is observed no longer. *)
Theorem initialize_after_destroy_skips_tracked_cards
    (allCards : list nat) (rendered : gset nat) (c : Controller) :
  ∃ (c' : Controller) (targets : gset nat),
    initialize allCards rendered (destroy c) = (Returned (), c') ∧
    isInitialized c' = true ∧
    mutation_observers c' = S (mutation_observers c) ∧
    observer (core c') = Some targets ∧
    (∀ card : nat, card ∈ targets → card ∉ observedCards (core c)) ∧
    (∀ card : nat,
       card ∈ observedCards (core c) → card ∈ observedCards (core c')) ∧
    flight (core c') = flight (core c).
Proof.
  assert (Hd : isInitialized (destroy c) = false ∧
               observedCards (core (destroy c)) = observedCards (core c) ∧
               flight (core (destroy c)) = flight (core c) ∧
               mutation_observers (destroy c) = mutation_observers c).
  { unfold destroy.
    destruct (observer (core c)); cbn [mutationTimeout set_core];
      destruct (mutationTimeout c); now repeat split. }
  destruct Hd as (Hi & Ho & Hf & Hm).
  unfold initialize. rewrite Hi.
  destruct (processAllCards_returns allCards rendered
              (set_core (create_observer (core (destroy c))) (destroy c)) ∅
              eq_refl)
    as (c' & targets & Hscan & Hobs & Htg & Htr & Hfl & _ & Hmo).
  rewrite Hscan. eexists. exists targets. split; [reflexivity |].
  cbn [isInitialized mutation_observers core set_isInitialized
       set_styles_injected set_mutation_observers].
  cbn [core set_core create_observer observedCards set_observer
       mutation_observers] in Htg, Htr, Hfl, Hmo.
  split; [reflexivity |]. split; [now rewrite Hmo, Hm |].
  split; [exact Hobs |]. split.
  { intros card Hin. destruct (Htg card Hin) as [H | H].
    - now apply not_elem_of_empty in H.
    - now rewrite <- Ho. }
  split.
  { intros card Hin. apply Htr. now rewrite Ho. }
  now rewrite Hfl, <- Hf.
Qed.

Lemma initialize_after_destroy_skips_tracked_cards_witness :
  ∃ (c' : Controller) (targets : gset nat),
    initialize [0%nat; 1%nat; 2%nat] {[0%nat; 1%nat; 2%nat]}
      (destroy (controller_run (new_controller scenario_page)
                  [Initialize [0%nat; 1%nat] {[0%nat; 1%nat]}]))
    = (Returned (), c') ∧
    isInitialized c' = true ∧
    mutation_observers c' = 2%nat ∧
    observer (core c') = Some targets ∧
    (∀ card : nat, card ∈ targets → card ∉ [0%nat; 1%nat]) ∧
    (∀ card : nat,
       card ∈ [0%nat; 1%nat] → card ∈ observedCards (core c')) ∧
    flight (core c')
    = flight (core (controller_run (new_controller scenario_page)
                      [Initialize [0%nat; 1%nat] {[0%nat; 1%nat]}])).
Proof.
  exact (initialize_after_destroy_skips_tracked_cards
           [0%nat; 1%nat; 2%nat] {[0%nat; 1%nat; 2%nat]}
           (controller_run (new_controller scenario_page)
              [Initialize [0%nat; 1%nat] {[0%nat; 1%nat]}])).
Defined.

(** ** The reset *)

Lemma process_cards_pages (cards : list nat) (st st' : Loader)
    (targets : gset nat) (card : nat) :
  observer st = Some targets →
  process_cards cards st = (Returned (), st') →
  (card ∈ observedCards st → page st' !! card = page st !! card) ∧
  ((card ∉ observedCards st) → card ∈ observedCards st' →
   ∀ c0 : Card, page st !! card = Some c0 →
   ∃ c1 : Card,
     page st' !! card = Some c1 ∧
     images c1 = prepare_thumbnails c0 0 (images c0) ∧
     data_name c1 = data_name c0).
Proof.
  revert st targets.
  induction cards as [|card' rest IH]; intros st targets Hobs Hrun.
  - cbn in Hrun. injection Hrun as <-. split; [reflexivity | done].
  - cbn [process_cards] in Hrun.
    destruct (decide (card' ∈ observedCards st
                      ∨ findThumbnailImages (card_of st card') = []))
      as [Hskip | Hreg].
    { rewrite (processCard_skips card' st Hskip) in Hrun.
      exact (IH st targets Hobs Hrun). }
    assert (Hnew : card' ∉ observedCards st)
      by (intros H; apply Hreg; now left).
    assert (Hth : findThumbnailImages (card_of st card') ≠ [])
      by (intros H; apply Hreg; now right).
    destruct (processCard_registers card' st targets Hnew Hth Hobs)
      as (st1 & Hp & Ho1 & Hobs1 & Hpg1 & _ & _).
    rewrite Hp in Hrun.
    destruct (IH st1 _ Hobs1 Hrun) as [IHa IHc].
    assert (Hin1 : card' ∈ observedCards st1).
    { rewrite Ho1. apply elem_of_app. right. now apply list_elem_of_singleton. }
    split.
    + intros Hin. assert (Hne : card ≠ card') by (now intros ->).
      rewrite IHa, (Hpg1 card Hne); [reflexivity |].
      rewrite Ho1. apply elem_of_app. now left.
    + intros Hn Hin' c0 Hc0. destruct (decide (card = card')) as [-> | Hne].
      * rewrite (IHa Hin1).
        assert (Hth0 : findThumbnailImages c0 ≠ []).
        { unfold card_of in Hth. now rewrite Hc0 in Hth. }
        assert (Hsome : observer st ≠ None) by (now rewrite Hobs).
        destruct (processCard_prepares card' st c0 Hc0 Hnew Hth0 Hsome)
          as (c1 & H1 & Himg & Hname & _ & _).
        rewrite Hp in H1. now exists c1.
      * apply IHc; [| exact Hin' | now rewrite (Hpg1 card Hne)].
        rewrite Ho1. intros Hin. apply elem_of_app in Hin as [Hin | Hin];
          [done |].
        now apply list_elem_of_singleton in Hin.
Qed.

Lemma prepared_is_thumbnail (c : Card) (index : nat) (i : Img) :
  is_thumbnail (prepareThumbnailForLazyLoading c index i)
  = (in_preview i || card_image i)%bool.
Proof.
  assert (H1 : includes "sd_extra_networks/thumb" getPlaceholderDataURL = false)
    by (vm_compute; reflexivity).
  assert (H2 : includes "thumbnail" getPlaceholderDataURL = false)
    by (vm_compute; reflexivity).
  assert (H3 : String.eqb getPlaceholderDataURL "" = false) by reflexivity.
  unfold is_thumbnail, prepareThumbnailForLazyLoading.
  destruct (truthy_str (originalSrc i));
    cbn [src in_preview card_image set_lazyLoading set_transition set_filter_
         set_opacity set_src set_lazyId set_originalSrc];
    now rewrite H1, H2, H3.
Qed.

Lemma found_by_place_prepared (c : Card) (index : nat) (imgs : list Img) :
  List.filter is_thumbnail (prepare_thumbnails c index imgs) ≠ []
  ↔ existsb found_by_place imgs = true.
Proof.
  revert index. induction imgs as [|i imgs IH]; intros index; [done |].
  cbn [prepare_thumbnails existsb]. unfold found_by_place at 1.
  destruct (is_thumbnail i) eqn:Ht; cbn [List.filter andb].
  - rewrite prepared_is_thumbnail.
    destruct (in_preview i || card_image i)%bool; [done |].
    cbn [orb]. apply IH.
  - rewrite Ht. cbn [orb]. apply IH.
Qed.

Lemma prepare_keeps_address (c : Card) (index : nat) (imgs : list Img) :
  Forall untouched imgs →
  Forall2 keeps_address imgs (prepare_thumbnails c index imgs).
Proof.
  intros H. revert index.
  induction H as [|i imgs [Ho _] _ IH]; intros index; [constructor |].
  cbn [prepare_thumbnails]. unfold keeps_address at 1.
  destruct (is_thumbnail i) eqn:Ht; (constructor; [| apply IH]).
  - rewrite Ht. unfold prepareThumbnailForLazyLoading. now rewrite Ho.
  - now rewrite Ht.
Qed.

Lemma prepare_twice_keeps_address (c c' : Card) (index index' : nat)
    (imgs : list Img) :
  Forall untouched imgs →
  Forall2 keeps_address imgs
    (prepare_thumbnails c' index' (prepare_thumbnails c index imgs)).
Proof.
  intros H. revert index index'.
  induction H as [|i imgs [Ho _] _ IH]; intros index index'; [constructor |].
  cbn [prepare_thumbnails]. unfold keeps_address at 1.
  destruct (is_thumbnail i) eqn:Ht; cbn [prepare_thumbnails].
  - assert (Hfirst : originalSrc (prepareThumbnailForLazyLoading c index i)
                     = Some (src i)).
    { unfold prepareThumbnailForLazyLoading. now rewrite Ho. }
    assert (Hsrc : negb (String.eqb (src i) "") = true).
    { unfold is_thumbnail in Ht. now apply andb_true_iff in Ht as [Hs _]. }
    destruct (is_thumbnail (prepareThumbnailForLazyLoading c index i));
      (constructor; [| apply IH]); rewrite Ht; [| exact Hfirst].
    unfold prepareThumbnailForLazyLoading at 1. rewrite Hfirst.
    cbn [truthy_str]. rewrite Hsrc. exact Hfirst.
  - rewrite Ht. constructor; [| apply IH]. now rewrite Ht.
Qed.

(** X16: a card is registered and, before its thumbnails are loaded, the
    loader is reset. The scan of the reset tracks the card again exactly
    when one of its thumbnails is found by its place in the card (inside
    [.preview], or with the class [card-image]): a thumbnail that was found
    by its address shows the placeholder now and is found no longer. In
    both cases every thumbnail of the card still carries the address it had
    at first. *)
Theorem reinitialize_tracks_again_by_place
    (allCards : list nat) (rendered : gset nat) (c : Controller)
    (card : nat) (c0 : Card) :
  page (core c) !! card = Some c0 →
  Forall untouched (images c0) →
  observer (core c) ≠ None →
  card ∉ observedCards (core c) →
  findThumbnailImages c0 ≠ [] →
  card ∈ allCards →
  card ∈ rendered →
  (card ∈ observedCards
            (core (controller_run c [LoaderEvent (ProcessCard card);
                                     Reinitialize allCards rendered]))
   ↔ existsb found_by_place (images c0) = true) ∧
  Forall2 keeps_address (images c0)
    (images (card_of
               (core (controller_run c [LoaderEvent (ProcessCard card);
                                        Reinitialize allCards rendered]))
               card)).
Proof.
  intros Hc Hfresh Hobs Hnew Hth Hin Hr.
  destruct (observer (core c)) as [targets|] eqn:Ho; [clear Hobs | done].
  assert (Hth' : findThumbnailImages (card_of (core c) card) ≠ []).
  { unfold card_of. now rewrite Hc. }
  destruct (processCard_registers card (core c) targets Hnew Hth' Ho)
    as (st1 & Hp & _ & Hobs1 & _ & _ & _).
  assert (Hsome : observer (core c) ≠ None) by (now rewrite Ho).
  destruct (processCard_prepares card (core c) c0 Hc Hnew Hth Hsome)
    as (k1 & Hk1 & Himg1 & _ & _ & _).
  rewrite Hp in Hk1. cbn [snd] in Hk1.
  cbn [controller_run foldl controller_step step core set_core].
  rewrite Hp. cbn [snd].
  unfold reinitialize, processAllCards.
  cbn [isProcessing set_isProcessing set_core core].
  destruct allCards as [|card0 rest]; [now apply elem_of_nil in Hin |].
  cbn [length Nat.eqb]. set (allCards := card0 :: rest) in *.
  set (stR := set_retryAttempts ∅
                (set_loadingImages ∅
                   (set_loadedImages ∅ (set_observedCards [] st1)))).
  set (newVisibleCards := List.filter _ allCards).
  assert (HoR : observer stR = Some ({[card]} ∪ targets)) by exact Hobs1.
  assert (HkR : page stR !! card = Some k1) by exact Hk1.
  assert (Hvis : card ∈ newVisibleCards).
  { subst newVisibleCards. apply newVisibleCards_spec.
    repeat split; [exact Hin | exact Hr | apply not_elem_of_nil]. }
  destruct (process_cards_spec newVisibleCards stR _ HoR)
    as (st' & targets' & Hrun & _ & Htr & _ & Hpg & _ & _).
  destruct (process_cards_pages newVisibleCards stR st' _ card HoR Hrun)
    as [_ Hpages].
  rewrite Hrun. cbn [snd core set_core set_isProcessing].
  assert (Hiff : card ∈ observedCards st'
                 ↔ existsb found_by_place (images c0) = true).
  { rewrite Htr. unfold card_of. rewrite HkR. cbn [from_option id].
    unfold findThumbnailImages. rewrite Himg1, found_by_place_prepared.
    split.
    - intros [H | [_ H]]; [now apply elem_of_nil in H | exact H].
    - intros H. right. now split. }
  split; [exact Hiff |].
  destruct (decide (card ∈ observedCards st')) as [Htracked | Hnot].
  - destruct (Hpages (not_elem_of_nil _) Htracked k1 HkR)
      as (k2 & Hk2 & Himg2 & _).
    unfold card_of. rewrite Hk2. cbn [from_option id]. rewrite Himg2, Himg1.
    now apply prepare_twice_keeps_address.
  - unfold card_of. rewrite (Hpg card Hnot), HkR. cbn [from_option id].
    rewrite Himg1. now apply prepare_keeps_address.
Qed.

Lemma reinitialize_tracks_again_by_place_witness :
  0%nat ∈ observedCards
            (core (controller_run
                     (set_core scenario_loader (new_controller scenario_page))
                     [LoaderEvent (ProcessCard 0%nat);
                      Reinitialize [0%nat; 1%nat] {[0%nat; 1%nat]}]))
  ↔ existsb found_by_place
      (images (scenario_card (Some "model-a")
                 ["http://host/sd_extra_networks/thumb?filename=a.png"]))
    = true.
Proof.
  assert (Hpage : page (core (set_core scenario_loader
                                (new_controller scenario_page))) !! 0%nat
                  = Some (scenario_card (Some "model-a")
                            ["http://host/sd_extra_networks/thumb?filename=a.png"]))
    by (vm_compute; reflexivity).
  assert (Hfresh : Forall untouched
                     (images (scenario_card (Some "model-a")
                        ["http://host/sd_extra_networks/thumb?filename=a.png"])))
    by (repeat constructor).
  assert (Hth : findThumbnailImages
                  (scenario_card (Some "model-a")
                     ["http://host/sd_extra_networks/thumb?filename=a.png"])
                ≠ []) by (vm_compute; discriminate).
  assert (Hin : 0%nat ∈ [0%nat; 1%nat]) by apply list_elem_of_here.
  assert (Hr : 0%nat ∈ ({[0%nat; 1%nat]} : gset nat))
    by (apply elem_of_union; left; now apply elem_of_singleton).
  exact (proj1 (reinitialize_tracks_again_by_place
                  [0%nat; 1%nat] {[0%nat; 1%nat]}
                  (set_core scenario_loader (new_controller scenario_page))
                  0%nat _ Hpage Hfresh
                  (λ H : Some ∅ = None, eq_ind (Some ∅)
                         (λ o : option (gset nat),
                            match o with Some _ => True | None => False end)
                         I None H)
                  (not_elem_of_nil 0%nat) Hth Hin Hr)).
Defined.

(** ** A scan without an observer *)





(** ** A loaded name stays loaded, until the reset *)

Lemma process_cards_flight (cards : list nat) (st : Loader) :
  flight (snd (process_cards cards st)) = flight st.
Proof.
  revert st. induction cards as [|card rest IH]; intros st; [reflexivity |].
  cbn [process_cards]. pose proof (processCard_flight card st) as H.
  destruct (processCard card st) as [[b|] st1]; cbn [snd] in *.
  - now rewrite IH.
  - exact H.
Qed.

Lemma processAllCards_flight (allCards : list nat) (rendered : gset nat)
    (c : Controller) :
  flight (core (snd (processAllCards allCards rendered c))) = flight (core c).
Proof.
  unfold processAllCards. destruct (isProcessing c); [reflexivity |].
  destruct (length allCards =? 0)%nat; [reflexivity |].
  cbn [core set_isProcessing].
  match goal with |- context [process_cards ?l ?s] =>
    pose proof (process_cards_flight l s) as H;
    destruct (process_cards l s) as [[u|] st1] end;
    exact H.
Qed.

(** The events of the loader object other than those of the loads and the
    reset leave the loads in flight as they are. *)
Lemma controller_step_flight (c : Controller) (e : ControllerEvent) :
  is_reset e = false →
  (∃ e' : Event, e = LoaderEvent e') ∨
  flight (core (controller_step c e)) = flight (core c).
Proof.
  intros Hr.
  destruct e as [e | allCards rendered | | allCards rendered | mutations
                | id allCards rendered]; cbn [controller_step].
  - left. now exists e.
  - right. unfold initialize. destruct (isInitialized c); [reflexivity |].
    pose proof (processAllCards_flight allCards rendered
                  (set_core (create_observer (core c)) c)) as H.
    destruct (processAllCards _ _ _) as [[u|] c']; exact H.
  - right. unfold destroy.
    destruct (observer (core c)); cbn [mutationTimeout set_core];
      destruct (mutationTimeout c); reflexivity.
  - discriminate.
  - right. unfold mutation_handler.
    destruct (length _ =? 0)%nat; [reflexivity |].
    destruct (mutationTimeout c); reflexivity.
  - right. unfold fire_scan_timer.
    destruct (take_timer id (scan_timers c)) as [ts|]; [| reflexivity].
    exact (processAllCards_flight allCards rendered (set_scan_timers ts c)).
Qed.

Lemma loaded_apart_flight (st st' : Loader) :
  flight st' = flight st → loaded_apart st → loaded_apart st'.
Proof.
  unfold flight, loaded_apart. intros H. injection H as Hl Hg _.
  now rewrite Hl, Hg.
Qed.

Lemma loadCardThumbnails_resume_apart (call : Suspended) (a : Awaited)
    (st : Loader) :
  loaded_apart st → loaded_apart (loadCardThumbnails_resume call a st).
Proof.
  intros H name. unfold loadCardThumbnails_resume.
  cbn [loadedImages loadingImages set_loadingImages].
  destruct a as [results|].
  - pose proof (removeLoadingIndicator_flight (s_card call)
                  (set_loadedImages ({[s_cardName call]} ∪ loadedImages st) st))
      as Hf.
    unfold flight in Hf. injection Hf as Hl Hg _. rewrite Hl, Hg.
    cbn [loadedImages loadingImages set_loadedImages].
    rewrite elem_of_union, elem_of_singleton, elem_of_difference,
      elem_of_singleton.
    intros [-> | Hin] [Hg' Hne]; [done |]. now apply (H name).
  - pose proof (scheduleRetry_flight (s_card call) st) as Hf.
    unfold flight in Hf. injection Hf as Hl Hg _. rewrite Hl, Hg.
    rewrite elem_of_difference. intros Hin [Hg' _]. now apply (H name).
Qed.

Lemma load_each_apart (post : nat → Loader → Loader) (cards : list nat)
    (st : Loader) :
  (∀ (card : nat) (st : Loader), flight (post card st) = flight st) →
  (∀ (card : nat) (st : Loader), page (post card st) = page st) →
  loaded_apart st →
  loaded_apart (foldl (λ st card, post card (loadCardThumbnails card st))
                  st cards).
Proof.
  intros Hf Hp H name.
  destruct (load_each_spec post Hf Hp cards st)
    as (new & _ & Hg & Hl & _ & _ & Hmem & _).
  rewrite Hl, Hg. intros Hin [Hg' | Hnew]; [now apply (H name) |].
  apply list_elem_of_fmap in Hnew as (card & -> & Hc).
  destruct (Hmem card Hc) as [_ Hn]. apply Hn. now left.
Qed.

Lemma step_apart (st : Loader) (e : Event) :
  loaded_apart st → loaded_apart (ThumbnailLoader.step st e).
Proof.
  intros H.
  destruct e as [card|entries|in_viewport|card results|card|k];
    cbn [ThumbnailLoader.step].
  - apply (loaded_apart_flight st); [apply processCard_flight | exact H].
  - rewrite handleIntersection_fold.
    apply (load_each_apart unobserve);
      [intros; apply unobserve_keeps | intros; apply unobserve_keeps | exact H].
  - rewrite forceLoadAllVisible_fold.
    now apply (load_each_apart (λ _ s, s)).
  - destruct (resume_call card (awaiting st)) as [[call calls]|];
      [| exact H].
    case_match; [| exact H].
    apply loadCardThumbnails_resume_apart.
    apply (loaded_apart_flight (set_awaiting calls st));
      [apply settle_flight | exact H].
  - destruct (resume_call card (awaiting st)) as [[call calls]|];
      [| exact H].
    now apply loadCardThumbnails_resume_apart.
  - destruct (ThumbnailLoader.timers st !! k) as [[d f]|]; [| exact H].
    destruct f as [card | card index src0]; cbn [run_timer].
    + apply (load_each_apart (λ _ s, s) [card]
               (set_timers (delete k (ThumbnailLoader.timers st)) st));
        [reflexivity | reflexivity | exact H].
    + exact H.
Qed.

Lemma reinitialize_clears (allCards : list nat) (rendered : gset nat)
    (c : Controller) :
  loadedImages (core (snd (reinitialize allCards rendered c))) = ∅ ∧
  loadingImages (core (snd (reinitialize allCards rendered c))) = ∅.
Proof.
  unfold reinitialize. cbv zeta.
  set (c1 := set_core _ (set_isProcessing false c)).
  pose proof (processAllCards_flight allCards rendered c1) as H.
  unfold flight in H. injection H as Hl Hg _. rewrite Hl, Hg.
  split; reflexivity.
Qed.

Lemma controller_step_apart (c : Controller) (e : ControllerEvent) :
  loaded_apart (core c) → loaded_apart (core (controller_step c e)).
Proof.
  intros H. destruct (is_reset e) eqn:Hr.
  - destruct e; try discriminate. cbn [controller_step].
    intros name Hin.
    rewrite (proj1 (reinitialize_clears allCards rendered c)) in Hin.
    now apply not_elem_of_empty in Hin.
  - destruct (controller_step_flight c e Hr) as [[e' ->] | Hf].
    + cbn [controller_step core set_core]. now apply step_apart.
    + now apply (loaded_apart_flight (core c)).
Qed.

Lemma controller_run_apart (es : list ControllerEvent) (c : Controller) :
  loaded_apart (core c) → loaded_apart (core (controller_run c es)).
Proof.
  revert c. induction es as [|e es IH]; intros c H; [exact H |].
  apply IH, controller_step_apart, H.
Qed.

Lemma controller_run_loaded (es : list ControllerEvent) (c : Controller)
    (name : string) :
  Forall (λ e, is_reset e = false) es →
  name ∈ loadedImages (core c) →
  name ∈ loadedImages (core (controller_run c es)).
Proof.
  intros Hes. revert c.
  induction Hes as [|e es Hr _ IH]; intros c H; [exact H |].
  apply IH. destruct (controller_step_flight c e Hr) as [[e' ->] | Hf].
  - cbn [controller_step core set_core]. now apply step_loaded.
  - now rewrite (flight_loaded _ _ Hf).
Qed.

(** X8: a name that is in [loadedImages], after any events of the loader
    object, stays there as long as [reinitialize()] is not called: whatever
    else happens (events of the loads, [initialize()], [destroy()],
    mutations, scans), it is not in [loadingImages] again, and every call
    of [loadCardThumbnails] for a card of that name returns at once, so
    that the images of the card are not loaded again. [reinitialize()]
    empties [loadedImages] and [loadingImages]: after it no name is loaded,
    and the cards can be loaded again. *)
Theorem loaded_name_stays_loaded_until_reset
    (cards : gmap nat Card) (es es' : list ControllerEvent) (name : string) :
  Forall (λ e, is_reset e = false) es' →
  name ∈ loadedImages (core (controller_run (new_controller cards) es)) →
  name ∈ loadedImages
           (core (controller_run (controller_run (new_controller cards) es)
                    es')) ∧
  (name ∉ loadingImages
            (core (controller_run (controller_run (new_controller cards) es)
                     es'))) ∧
  (∀ card : nat,
     cardName
       (core (controller_run (controller_run (new_controller cards) es) es'))
       card = name →
     loadCardThumbnails card
       (core (controller_run (controller_run (new_controller cards) es) es'))
     = core (controller_run (controller_run (new_controller cards) es) es')) ∧
  (∀ (allCards : list nat) (rendered : gset nat),
     loadedImages
       (core (snd (reinitialize allCards rendered
                     (controller_run
                        (controller_run (new_controller cards) es) es'))))
     = ∅ ∧
     loadingImages
       (core (snd (reinitialize allCards rendered
                     (controller_run
                        (controller_run (new_controller cards) es) es'))))
     = ∅).
Proof.
  intros Hes' H.
  set (c := controller_run (new_controller cards) es) in *.
  pose proof (controller_run_loaded es' c name Hes' H) as Hl.
  assert (Hinv : loaded_apart (core (controller_run c es'))).
  { apply controller_run_apart. subst c. apply controller_run_apart.
    intros n Hn. now apply not_elem_of_empty in Hn. }
  split; [exact Hl |]. split; [now apply Hinv |]. split.
  - intros card <-. apply loadCardThumbnails_known. now left.
  - intros allCards rendered. apply reinitialize_clears.
Qed.

Lemma loaded_name_stays_loaded_until_reset_witness :
  loadCardThumbnails 1%nat
    (core (controller_run
             (controller_run (new_controller scenario_page)
                [Initialize [0%nat] {[0%nat]};
                 LoaderEvent (Intersection [(0%nat, true)]);
                 LoaderEvent (ThumbnailsSettled 0%nat [Fulfilled])])
             [Destroy; Initialize [0%nat; 1%nat] {[0%nat; 1%nat]};
              LoaderEvent (TimerFired 0%nat)]))
  = core (controller_run
            (controller_run (new_controller scenario_page)
               [Initialize [0%nat] {[0%nat]};
                LoaderEvent (Intersection [(0%nat, true)]);
                LoaderEvent (ThumbnailsSettled 0%nat [Fulfilled])])
            [Destroy; Initialize [0%nat; 1%nat] {[0%nat; 1%nat]};
             LoaderEvent (TimerFired 0%nat)]).
Proof.
  assert (Hes : Forall (λ e, is_reset e = false)
                  [Destroy; Initialize [0%nat; 1%nat] {[0%nat; 1%nat]};
                   LoaderEvent (TimerFired 0%nat)])
    by (repeat constructor).
  assert (H : "model-a" ∈ loadedImages
                (core (controller_run (new_controller scenario_page)
                         [Initialize [0%nat] {[0%nat]};
                          LoaderEvent (Intersection [(0%nat, true)]);
                          LoaderEvent (ThumbnailsSettled 0%nat [Fulfilled])])))
    by (vm_compute; reflexivity).
  apply (proj1 (proj2 (proj2
           (loaded_name_stays_loaded_until_reset scenario_page
              [Initialize [0%nat] {[0%nat]};
               LoaderEvent (Intersection [(0%nat, true)]);
               LoaderEvent (ThumbnailsSettled 0%nat [Fulfilled])]
              [Destroy; Initialize [0%nat; 1%nat] {[0%nat; 1%nat]};
               LoaderEvent (TimerFired 0%nat)] "model-a" Hes H)))
           1%nat).
  vm_compute. reflexivity.
Defined.
